(** * pdfmake printer: the page compositor and the structure-tag engine

    A shallow embedding of [src/printer.js]: margin resolution
    ([fixPageMargins]), the auto-height pass ([calculatePageHeight]), the
    orientation bookkeeping of [renderPages], the deferred page-number
    resolver ([preparePageNodeRefLine]) and the stack machine that
    [renderLine] runs over a line's tag list.

    JavaScript numbers are modelled by rationals ([Q]); the result of an
    arithmetic operation on [undefined] (that is, [NaN]) is [None] where
    the code can produce it.  The offsets of gradient stops, in which the
    rounding of a quotient and of a product shows, are binary64 values
    ([spec_float]).  A JavaScript exception is the [Throw] branch
    of [result].  The drawing backend (pdfkit) is represented by the log
    of the calls made on it, oldest first. *)

From Stdlib Require Import List String Ascii ZArith QArith Qminmax Bool Lia.
From Stdlib Require Import DecimalString.
From Stdlib Require Import Permutation.
From Stdlib Require Import SpecFloat.
Import ListNotations.
Close Scope Q_scope.
Open Scope string_scope.
Open Scope list_scope.

(** ** Exceptions *)

Inductive exn : Type :=
| TypeError (what : string)   (* raised by the JavaScript runtime *)
| Thrown (msg : string).      (* a [throw '...'] of the source *)

Inductive result (A : Type) : Type :=
| Ok (a : A)
| Throw (e : exn).
Arguments Ok {A} a.
Arguments Throw {A} e.

Definition bind {A B} (r : result A) (k : A -> result B) : result B :=
  match r with
  | Ok a => k a
  | Throw e => Throw e
  end.

Notation "'let*' x ':=' r 'in' k" := (bind r (fun x => k))
  (at level 10, x pattern, r at level 100, k at level 200).

(** ** JavaScript arrays used as stacks and queues

    An array is a list in index order: [push] appends at the end, [pop]
    removes the last element, [slice(-1)[0]] reads it, [shift] removes the
    first one. *)

Fixpoint slice_last {A} (l : list A) : option A :=
  match l with
  | [] => None
  | [a] => Some a
  | _ :: l' => slice_last l'
  end.

Definition push {A} (l : list A) (a : A) : list A := l ++ [a].
Definition pop {A} (l : list A) : list A := removelast l.

(** [a.splice(k, 1)] *)
Definition splice1 {A} (k : nat) (l : list A) : list A :=
  firstn k l ++ skipn (Datatypes.S k) l.

(** ** Data model *)

(** A structure element made by [pdfKitDoc.struct(name)].  pdfkit keeps the
    name under [dictionary.data.S]; [ref] is the identity of the object. *)
Record StructElem : Type := {
  ref : nat;
  data_S : string
}.

(** The object returned by [pdfKitDoc.markStructureContent(tag)]. *)
Record StructContent : Type := {
  mcid : nat;
  content_tag : string
}.

(** An element of [line.tags], by its [typeof].  Of an object the loop
    reads the [onetime] property only; the counts modelled are the
    integers, [None] standing for a property that is missing. *)
Inductive TagToken : Type :=
| TString (s : string)
| TObject (onetime : option Z)  (* a non-null object and its [onetime] property, an integer when present *)
| TNull                         (* [typeof null === 'object'] *)
| TUndefined
| TNumber (n : Z)
| TBoolean (b : bool).

Inductive warning : Type :=
| WAccessibility (parentItem tagitem : string)   (* "... will not pass accessibility checks." *)
| WIgnoringClose (tagitem parentItem : string)   (* "Ignoring ... tried to close ..." *)
| WPopRoot                                       (* "... TRIED TO POP THE ROOT STRUCTURE ELEMENT ..." *)
| WIgnoringObject.                               (* "Ignoring object ... in tags." *)

(** Calls on the backend document, on the objects it returned, and on the
    console. *)
Inductive call : Type :=
| AddPage (size : option (Q * Q))        (* [addPage()] / [addPage(options)] with [options.size] *)
| Struct (e : StructElem)                (* [struct(name)] returned [e] *)
| AddStructure (e : StructElem)
| ElemAdd (parent child : StructElem)    (* [parent.add(child)] *)
| ElemAddContent (e : StructElem) (c : StructContent)
| ElemEnd (e : StructElem)               (* [e.end()] *)
| MarkStructureContent (c : StructContent)
| EndMarkedContent
| DrawBackground
| DrawDecorations
| Text (text : string) (x y : Q)
| Draw (type : string)                   (* a non-text item handed to its primitive *)
| Watermark
| ConsoleLog (w : warning).

Record pdfKitDoc : Type := {
  options_size : Q * Q;                  (* [options.size] = [width, height] *)
  stk : option (list StructElem);        (* [None] until the first tagged line *)
  fresh : nat;                           (* identity of the next object the backend makes *)
  calls : list call
}.

Definition log (c : call) (d : pdfKitDoc) : pdfKitDoc :=
  {| options_size := options_size d; stk := stk d; fresh := fresh d;
     calls := calls d ++ [c] |}.

Definition set_stk (s : list StructElem) (d : pdfKitDoc) : pdfKitDoc :=
  {| options_size := options_size d; stk := Some s; fresh := fresh d;
     calls := calls d |}.

Definition set_size (s : Q * Q) (d : pdfKitDoc) : pdfKitDoc :=
  {| options_size := s; stk := stk d; fresh := fresh d; calls := calls d |}.

(** [pdfKitDoc.struct(name)] *)
Definition struct (name : string) (d : pdfKitDoc) : StructElem * pdfKitDoc :=
  let e := {| ref := fresh d; data_S := name |} in
  (e, {| options_size := options_size d; stk := stk d;
         fresh := Datatypes.S (fresh d); calls := calls d ++ [Struct e] |}).

(** [pdfKitDoc.markStructureContent(tag)] *)
Definition markStructureContent (tag : string) (d : pdfKitDoc)
  : StructContent * pdfKitDoc :=
  let c := {| mcid := fresh d; content_tag := tag |} in
  (c, {| options_size := options_size d; stk := stk d;
         fresh := Datatypes.S (fresh d);
         calls := calls d ++ [MarkStructureContent c] |}).

(** ** The structure-tag engine of [renderLine] *)

(** The variables of [renderLine] that the tag loop assigns, with the
    document. *)
Record engine : Type := {
  doc : pdfKitDoc;
  lastOpenedStructTag : option string;
  lastOpenedStructElement : option StructElem;
  closingsFifo : list StructElem;
  lifo : list nat
}.

(** [pdfKitDoc.stk] once it is an array *)
Definition stack (s : engine) : list StructElem :=
  match stk (doc s) with
  | Some l => l
  | None => []
  end.

Definition with_doc (d : pdfKitDoc) (s : engine) : engine :=
  {| doc := d; lastOpenedStructTag := lastOpenedStructTag s;
     lastOpenedStructElement := lastOpenedStructElement s;
     closingsFifo := closingsFifo s; lifo := lifo s |}.

Definition warn (w : warning) (s : engine) : engine :=
  with_doc (log (ConsoleLog w) (doc s)) s.

(** [pdfKitDoc.stk.slice(-1)[0]]; [Ok None] is [undefined]. *)
Definition topElement (s : engine) : result (option StructElem) :=
  match stk (doc s) with
  | Some l => Ok (slice_last l)
  | None =>
      Throw (TypeError "Cannot read properties of undefined (reading 'slice')")
  end.

(** [closingsFifo.push(topElement()); pdfKitDoc.stk.pop();] with the top
    already read as [e]. *)
Definition close_top (e : StructElem) (s : engine) : engine :=
  {| doc := set_stk (pop (stack s)) (doc s);
     lastOpenedStructTag := lastOpenedStructTag s;
     lastOpenedStructElement := lastOpenedStructElement s;
     closingsFifo := push (closingsFifo s) e;
     lifo := lifo s |}.

(** [for (var j = 0; j < pops; j++) { closingsFifo.push(topElement());
    pdfKitDoc.stk.pop(); }].  On an empty array [pop()] does nothing and
    [topElement()] is [undefined]; the caller's clamp keeps the loop away
    from that case (lemma [pop_loop_spec]). *)
Fixpoint pop_loop (pops : nat) (s : engine) : engine :=
  match pops with
  | O => s
  | Datatypes.S j =>
      match slice_last (stack s) with
      | Some e => pop_loop j (close_top e s)
      | None => s
      end
  end.

Definition good : list (string * list string) :=
  [ ("Table", ["TR"]); ("TR", ["TD"; "TH"]); ("L", ["LI"]);
    ("LI", ["Lbl"; "LBody"]) ].

Definition bad : list (string * list string) :=
  [ ("H",  ["H"; "TR"; "TD"; "TH"]);
    ("H1", ["H"; "H1"; "TR"; "TD"; "TH"]);
    ("H2", ["H"; "H1"; "H2"; "TR"; "TD"; "TH"]);
    ("H3", ["H"; "H1"; "H2"; "H3"; "TR"; "TD"; "TH"]);
    ("H4", ["H"; "H1"; "H2"; "H3"; "H4"; "TR"; "TD"; "TH"]);
    ("H5", ["H"; "H1"; "H2"; "H3"; "H4"; "H5"; "TR"; "TD"; "TH"]);
    ("H6", ["H"; "H1"; "H2"; "H3"; "H4"; "H5"; "H6"; "TR"; "TD"; "TH"]) ].

(** [key in o] also finds what an object literal inherits from
    [Object.prototype]; none of these has an [includes] method. *)
Definition objectPrototypeKeys : list string :=
  [ "constructor"; "hasOwnProperty"; "isPrototypeOf"; "propertyIsEnumerable";
    "toLocaleString"; "toString"; "valueOf"; "__proto__";
    "__defineGetter__"; "__defineSetter__"; "__lookupGetter__";
    "__lookupSetter__" ].

Definition includes (l : list string) (s : string) : bool :=
  existsb (String.eqb s) l.

Fixpoint own (key : string) (o : list (string * list string))
  : option (list string) :=
  match o with
  | [] => None
  | (k, v) :: o' => if String.eqb k key then Some v else own key o'
  end.

(** The condition of the syntax check:
    [(parentItem in good && !good[parentItem].includes(tagitem))
     || (parentItem in bad && bad[parentItem].includes(tagitem))]. *)
Definition failsSyntaxCheck (parentItem tagitem : string) : result bool :=
  if includes objectPrototypeKeys parentItem
  then Throw (TypeError "good[parentItem].includes is not a function")
  else Ok ((match own parentItem good with
            | Some l => negb (includes l tagitem)
            | None => false
            end)
           || (match own parentItem bad with
               | Some l => includes l tagitem
               | None => false
               end)).

(** [tagitem[0] != "/"] for a tag that is not empty *)
Definition isOpeningTag (tagitem : string) : bool :=
  match tagitem with
  | String c _ => negb (Ascii.eqb c "/"%char)
  | EmptyString => true
  end.

(** [tagitem.slice(1)] *)
Definition slice1 (tagitem : string) : string :=
  match tagitem with
  | String _ rest => rest
  | EmptyString => EmptyString
  end.

(** The body of [case 'string']. *)
Definition processString (starts ends : bool) (tagitem : string) (s : engine)
  : result engine :=
  let* top := topElement s in
  match top with
  | None => Throw (TypeError "Cannot read properties of undefined (reading 'dictionary')")
  | Some top =>
      let parentItem := data_S top in
      if (String.length tagitem =? 0)%nat then Ok s
      else if isOpeningTag tagitem && starts then
        let* failed := failsSyntaxCheck parentItem tagitem in
        let s1 := if failed then warn (WAccessibility parentItem tagitem) s else s in
        let (e, d1) := struct tagitem (doc s1) in
        let d2 := log (ElemAdd top e) d1 in
        Ok {| doc := set_stk (push (stack s1) e) d2;
              lastOpenedStructTag := Some tagitem;
              lastOpenedStructElement := Some e;
              closingsFifo := closingsFifo s1;
              lifo := lifo s1 |}
      else if negb (isOpeningTag tagitem) && ends then
        if negb (String.eqb parentItem (slice1 tagitem))
        then Ok (warn (WIgnoringClose tagitem parentItem) s)
        else Ok (close_top top s)
      else Ok s
  end.

(** The body of [case 'object'] for a non-null object whose [onetime]
    property is [onetime]. *)
Definition processObject (ends : bool) (itag : nat) (onetime : option Z)
  (s : engine) : result engine :=
  if ends then
    let pops := match onetime with
                | Some n => if (n =? 0)%Z then 0%Z else n
                | None => 0%Z
                end in
    match stk (doc s) with
    | None =>
        Throw (TypeError "Cannot read properties of undefined (reading 'length')")
    | Some l =>
        let poppable := (Z.of_nat (List.length l) - 1)%Z in
        let s1 := {| doc := doc s;
                     lastOpenedStructTag := lastOpenedStructTag s;
                     lastOpenedStructElement := lastOpenedStructElement s;
                     closingsFifo := closingsFifo s;
                     lifo := itag :: lifo s |} in
        if (pops >? poppable)%Z
        then Ok (pop_loop (Z.to_nat poppable) (warn WPopRoot s1))
        else Ok (pop_loop (Z.to_nat pops) s1)
    end
  else Ok s.

(** One turn of the [for] loop over [line.tags]: the [switch (typeof
    tagitem)]. *)
Definition processTag (starts ends : bool) (itag : nat) (tagitem : TagToken)
  (s : engine) : result engine :=
  match tagitem with
  | TString t => processString starts ends t s
  | TObject onetime => processObject ends itag onetime s
  | TNull =>
      if ends
      then Throw (TypeError "Cannot read properties of null (reading 'onetime')")
      else Ok s
  | TUndefined =>
      Throw (TypeError "Cannot read properties of undefined (reading 'toString')")
  | TNumber _ | TBoolean _ => Ok (warn WIgnoringObject s)
  end.

Fixpoint processTags (starts ends : bool) (itag : nat) (tags : list TagToken)
  (s : engine) : result engine :=
  match tags with
  | [] => Ok s
  | tagitem :: rest =>
      let* s' := processTag starts ends itag tagitem s in
      processTags starts ends (Datatypes.S itag) rest s'
  end.

(** [if (!pdfKitDoc.stk) { ... }] *)
Definition ensureRoot (d : pdfKitDoc) : pdfKitDoc :=
  match stk d with
  | Some _ => d
  | None =>
      let (root, d1) := struct "Document" d in
      set_stk [root] (log (AddStructure root) d1)
  end.

(** [lifo.map((k) => { line.tags.splice(k, 1); })] *)
Definition removeOnetimePops (lifo : list nat) (tags : list TagToken)
  : list TagToken :=
  fold_left (fun t k => splice1 k t) lifo tags.

(** ** Lines and inlines *)

Record Font : Type := {
  fontName : string;
  ascender : Q
}.

Record Position : Type := { pageNumber : nat }.

(** [positions] is [None] when the property is undefined. *)
Record PageNodeRef : Type := { positions : option (list Position) }.

Module Inline.
Record t : Type := {
  text : string;
  font : Font;
  fontSize : Q;
  characterSpacing : option Q;
  fontFeatures : option (list string);
  width : Q;
  x : Q;
  alignment : option string;
  _pageNodeRef : option PageNodeRef;
  sup : bool;
  sub : bool
}.
End Inline.

Module Line.
(** [startsNode] and [endsNode] are [None] when the line has no such
    property and [Some b] when it has one, of value [b]. *)
Record t : Type := {
  inlines : list Inline.t;
  tags : option (list TagToken);
  startsNode : option bool;
  endsNode : option bool;
  _pageNodeRef : option PageNodeRef;
  getHeight : Q;
  getAscenderHeight : Q;
  x : option Q;
  y : option Q
}.
End Line.

(** What the renderer takes from its collaborators: the text measurer
    ([TextTools.widthOfString]) and the one read of the backend's page
    state, [pdfKitDoc.page.markings.slice(-1)[0].structContent], as a
    function of the calls made so far ([None] when the read throws or
    gives a falsy value). *)
Class Collaborators : Type := {
  widthOfString : string -> Font -> Q -> option Q -> option (list string) -> Q;
  openStructContent : list call -> option StructContent
}.

(** [n.toString()] for a page number *)
Definition toString (n : nat) : string :=
  NilEmpty.string_of_uint (Nat.to_uint n).

(** [v || 0] for a number that may be undefined *)
Definition orZero (v : option Q) : Q :=
  match v with
  | Some q => if Qeq_bool q 0 then 0%Q else q
  | None => 0%Q
  end.

Definition isSome {A} (o : option A) : bool :=
  match o with
  | Some _ => true
  | None => false
  end.

(** ['startsNode' in line] and ['endsNode' in line] *)
Definition startsNode (line : Line.t) : bool := isSome (Line.startsNode line).
Definition endsNode (line : Line.t) : bool := isSome (Line.endsNode line).

Definition offsetText (y : Q) (inline : Inline.t) : Q :=
  let newY := y in
  let newY := if Inline.sup inline
              then (newY - Inline.fontSize inline * (3 # 4))%Q else newY in
  let newY := if Inline.sub inline
              then (newY + Inline.fontSize inline * (7 # 20))%Q else newY in
  newY.

Section Renderer.
Context {ext : Collaborators}.

(** [inline] is [None] when [line.inlines[0]] is undefined. *)
Definition preparePageNodeRefLine (_pageNodeRef : PageNodeRef)
  (inline : option Inline.t) : result Inline.t :=
  match positions _pageNodeRef with
  | None => Throw (Thrown "Page reference id not found")
  | Some [] =>
      Throw (TypeError "Cannot read properties of undefined (reading 'pageNumber')")
  | Some (p :: _) =>
      match inline with
      | None =>
          Throw (TypeError "Cannot set properties of undefined (setting 'text')")
      | Some i =>
          let text := toString (pageNumber p) in
          let newWidth :=
            widthOfString text (Inline.font i) (Inline.fontSize i)
              (Inline.characterSpacing i) (Inline.fontFeatures i) in
          let diffWidth := (Inline.width i - newWidth)%Q in
          let x :=
            match Inline.alignment i with
            | Some a =>
                if String.eqb a "right" then (Inline.x i + diffWidth)%Q
                else if String.eqb a "center"
                     then (Inline.x i + diffWidth / 2)%Q
                     else Inline.x i
            | None => Inline.x i
            end in
          Ok {| Inline.text := text;
                Inline.font := Inline.font i;
                Inline.fontSize := Inline.fontSize i;
                Inline.characterSpacing := Inline.characterSpacing i;
                Inline.fontFeatures := Inline.fontFeatures i;
                Inline.width := newWidth;
                Inline.x := x;
                Inline.alignment := Inline.alignment i;
                Inline._pageNodeRef := Inline._pageNodeRef i;
                Inline.sup := Inline.sup i;
                Inline.sub := Inline.sub i |}
      end
  end.

(** The [if (line._pageNodeRef)] at the head of [renderLine]. *)
Definition prepareLineRef (line : Line.t) : result (list Inline.t) :=
  match Line._pageNodeRef line with
  | None => Ok (Line.inlines line)
  | Some r =>
      match Line.inlines line with
      | [] => let* _ := preparePageNodeRefLine r None in Ok []
      | i :: rest => let* i' := preparePageNodeRefLine r (Some i) in Ok (i' :: rest)
      end
  end.

(** The tag block: [if (line.tags && line.tags.length > 0 &&
    (startsNode() || endsNode())) { ... }].  Gives the engine after the
    loop and the tag list after the splices. *)
Definition processLineTags (line : Line.t) (d : pdfKitDoc)
  : result (engine * option (list TagToken)) :=
  let s0 := {| doc := d; lastOpenedStructTag := None;
               lastOpenedStructElement := None;
               closingsFifo := []; lifo := [] |} in
  match Line.tags line with
  | Some (t :: ts) =>
      if startsNode line || endsNode line then
        let* s := processTags (startsNode line) (endsNode line) 0 (t :: ts)
                    (with_doc (ensureRoot d) s0) in
        Ok (s, Some (removeOnetimePops (lifo s) (t :: ts)))
      else Ok (s0, Line.tags line)
  | _ => Ok (s0, Line.tags line)
  end.

(** The [for] loop over [line.inlines]. *)
Fixpoint drawInlines (lineHeight descent x y : Q) (inlines : list Inline.t)
  (d : pdfKitDoc) : result (list Inline.t * pdfKitDoc) :=
  match inlines with
  | [] => Ok ([], d)
  | inline :: rest =>
      let shiftToBaseline :=
        (lineHeight
         - ((ascender (Inline.font inline) / 1000) * Inline.fontSize inline)
         - descent)%Q in
      let* inline' :=
        match Inline._pageNodeRef inline with
        | Some r => preparePageNodeRefLine r (Some inline)
        | None => Ok inline
        end in
      let shiftedY := offsetText (y + shiftToBaseline)%Q inline' in
      let d1 := log (Text (Inline.text inline') (x + Inline.x inline')%Q shiftedY) d in
      let* (rest', d2) := drawInlines lineHeight descent x y rest d1 in
      Ok (inline' :: rest', d2)
  end.

(** [while (closingsFifo.length > 0) { closingsFifo.shift().end(); }] *)
Fixpoint endAll (fifo : list StructElem) (d : pdfKitDoc) : pdfKitDoc :=
  match fifo with
  | [] => d
  | e :: fifo' => endAll fifo' (log (ElemEnd e) d)
  end.

(** The [if (endsNode()) { ... }] that finishes [renderLine]. *)
Definition closeNode (structContent : option StructContent)
  (lastOpened : option StructElem) (fifo : list StructElem) (d : pdfKitDoc)
  : pdfKitDoc :=
  let d1 :=
    match structContent, lastOpened with
    | Some c, Some e => log EndMarkedContent (log (ElemAddContent e c) d)
    | Some _, None => log EndMarkedContent d
    | None, _ => d
    end in
  endAll fifo d1.

Definition renderLine (line : Line.t) (x y : option Q) (d : pdfKitDoc)
  : result (Line.t * pdfKitDoc) :=
  let* inlines0 := prepareLineRef line in
  let x := orZero x in
  let y := orZero y in
  let lineHeight := Line.getHeight line in
  let ascenderHeight := Line.getAscenderHeight line in
  let descent := (lineHeight - ascenderHeight)%Q in
  let d := log DrawBackground d in
  let* (s, tags') := processLineTags line d in
  let d := doc s in
  let (structContent, d) :=
    if startsNode line then
      match lastOpenedStructTag s with
      | Some tag =>
          let (c, d') := markStructureContent tag d in (Some c, d')
      | None => (None, d)
      end
    else (None, d) in
  let* (inlines', d) := drawInlines lineHeight descent x y inlines0 d in
  let d := log DrawDecorations d in
  let structContent :=
    match structContent with
    | Some c => Some c
    | None => openStructContent (calls d)
    end in
  let lastOpened :=
    match lastOpenedStructElement s with
    | Some e => Some e
    | None => hd_error (closingsFifo s)
    end in
  let d := if endsNode line
           then closeNode structContent lastOpened (closingsFifo s) d
           else d in
  Ok ({| Line.inlines := inlines';
         Line.tags := tags';
         Line.startsNode := Line.startsNode line;
         Line.endsNode := Line.endsNode line;
         Line._pageNodeRef := Line._pageNodeRef line;
         Line.getHeight := Line.getHeight line;
         Line.getAscenderHeight := Line.getAscenderHeight line;
         Line.x := Line.x line;
         Line.y := Line.y line |}, d).

End Renderer.

(** ** Page margins *)

Module Margins.
Record t : Type := { left : Q; top : Q; right : Q; bottom : Q }.
End Margins.

(** A [pageMargins] value of the document definition. *)
Inductive MarginValue : Type :=
| MNumber (m : Q)
| MArray (a : list Q)
| MObject (o : Margins.t)     (* already an object with the four sides *)
| MString (s : string)
| MUndefined.

Definition fixPageMargins (margin : MarginValue) : result MarginValue :=
  match margin with
  | MNumber m =>
      Ok (MObject {| Margins.left := m; Margins.right := m;
                     Margins.top := m; Margins.bottom := m |})
  | MArray a =>
      match a with
      | [m0; m1] =>
          Ok (MObject {| Margins.left := m0; Margins.top := m1;
                         Margins.right := m0; Margins.bottom := m1 |})
      | [m0; m1; m2; m3] =>
          Ok (MObject {| Margins.left := m0; Margins.top := m1;
                         Margins.right := m2; Margins.bottom := m3 |})
      | _ => Throw (Thrown "Invalid pageMargins definition")
      end
  | _ => Ok margin
  end.

(** ** Pages and their items *)

Module Item.
(** [item.item], by the properties that the printer reads from it. *)
Inductive payload : Type :=
| line (l : Line.t)                          (* has a [getHeight] method *)
| vector (y y1 y2 : option Q)
| box (y : option Q) (_height : option Q)    (* image, svg, clip rectangle *)
| undefined.

Record t : Type := { type : string; item : payload }.
End Item.

Module Page.
Record t : Type := {
  items : list Item.t;
  pageSize_orientation : string;
  watermark : bool
}.
End Page.

(** ** Auto height *)

(** [margins || 40] *)
Definition orForty (margins : MarginValue) : MarginValue :=
  match margins with
  | MNumber m => if Qeq_bool m 0 then MNumber 40 else margins
  | MString "" => MNumber 40
  | MUndefined => MNumber 40
  | _ => margins
  end.

(** [fixedMargins.top] and [fixedMargins.bottom]; [None] is [undefined]. *)
Definition dot_top (m : MarginValue) : option Q :=
  match m with
  | MObject o => Some (Margins.top o)
  | _ => None
  end.

Definition dot_bottom (m : MarginValue) : option Q :=
  match m with
  | MObject o => Some (Margins.bottom o)
  | _ => None
  end.

(** [a > b] and [a + b] on numbers that may be [undefined] or [NaN] *)
Definition gt (a b : option Q) : bool :=
  match a, b with
  | Some p, Some q => negb (Qle_bool p q)
  | _, _ => false
  end.

Definition plus (a b : option Q) : option Q :=
  match a, b with
  | Some p, Some q => Some (p + q)%Q
  | _, _ => None
  end.

(** [if (v)] for a number that may be undefined *)
Definition truthy (v : option Q) : bool :=
  match v with
  | Some q => negb (Qeq_bool q 0)
  | None => false
  end.

Definition getItemHeight (item : Item.t) : result (option Q) :=
  match Item.item item with
  | Item.undefined =>
      Throw (TypeError "Cannot read properties of undefined (reading 'getHeight')")
  | Item.line l => Ok (Some (Line.getHeight l))
  | Item.box _ _height =>
      if truthy _height then Ok _height
      else if String.eqb (Item.type item) "vector" then Ok None
      else Ok (Some 0%Q)
  | Item.vector _ y1 y2 =>
      if String.eqb (Item.type item) "vector"
      then Ok (if gt y1 y2 then y1 else y2)
      else Ok (Some 0%Q)
  end.

(** [item.item.y] *)
Definition dot_y (p : Item.payload) : option Q :=
  match p with
  | Item.line l => Line.y l
  | Item.vector y _ _ => y
  | Item.box y _ => y
  | Item.undefined => None
  end.

Definition getBottomPosition (item : Item.t) : result (option Q) :=
  match Item.item item with
  | Item.undefined =>
      Throw (TypeError "Cannot read properties of undefined (reading 'y')")
  | p =>
      let top := orZero (dot_y p) in
      let* height := getItemHeight item in
      Ok (plus (Some top) height)
  end.

(** The inner [forEach] over [page.items], threading [height]. *)
Fixpoint scanItems (items : list Item.t) (height : option Q)
  : result (option Q) :=
  match items with
  | [] => Ok height
  | item :: rest =>
      let* bottomPosition := getBottomPosition item in
      scanItems rest (if gt bottomPosition height then bottomPosition else height)
  end.

Fixpoint scanPages (pages : list Page.t) (height : option Q)
  : result (option Q) :=
  match pages with
  | [] => Ok height
  | page :: rest =>
      let* height' := scanItems (Page.items page) height in
      scanPages rest height'
  end.

Definition calculatePageHeight (pages : list Page.t) (margins : MarginValue)
  : result (option Q) :=
  let* fixedMargins := fixPageMargins (orForty margins) in
  let height := dot_top fixedMargins in
  let* height := scanPages pages height in
  Ok (plus height (dot_bottom fixedMargins)).

(** ** Page loop *)

Definition updatePageOrientationInOptions (currentPage : Page.t)
  (d : pdfKitDoc) : pdfKitDoc :=
  let previousPageOrientation :=
    if negb (Qle_bool (fst (options_size d)) (snd (options_size d)))
    then "landscape" else "portrait" in
  if negb (String.eqb (Page.pageSize_orientation currentPage)
             previousPageOrientation)
  then
    let width := fst (options_size d) in
    let height := snd (options_size d) in
    set_size (height, width) d
  else d.

Section Pages.
Context {ext : Collaborators}.

(** The [switch (item.type)] of [renderPages]; the item comes back as the
    renderer left it. *)
Definition renderItem (item : Item.t) (d : pdfKitDoc)
  : result (Item.t * pdfKitDoc) :=
  let type := Item.type item in
  if String.eqb type "line" then
    match Item.item item with
    | Item.line l =>
        let* (l', d') := renderLine l (Line.x l) (Line.y l) d in
        Ok ({| Item.type := type; Item.item := Item.line l' |}, d')
    | Item.undefined =>
        Throw (TypeError "Cannot read properties of undefined (reading 'x')")
    | _ => Throw (TypeError "line.getHeight is not a function")
    end
  else if String.eqb type "endClip" then Ok (item, log (Draw type) d)
  else if existsb (String.eqb type) ["vector"; "image"; "svg"; "beginClip"]
  then
    match Item.item item with
    | Item.undefined =>
        Throw (TypeError "Cannot read properties of undefined")
    | _ => Ok (item, log (Draw type) d)
    end
  else Ok (item, d).

Fixpoint renderItems (items : list Item.t) (d : pdfKitDoc)
  : result (list Item.t * pdfKitDoc) :=
  match items with
  | [] => Ok ([], d)
  | item :: rest =>
      let* (item', d1) := renderItem item d in
      let* (rest', d2) := renderItems rest d1 in
      Ok (item' :: rest', d2)
  end.

(** The body of the page loop after the [if (i > 0)]. *)
Definition renderPageBody (page : Page.t) (d : pdfKitDoc)
  : result (Page.t * pdfKitDoc) :=
  let* (items', d1) := renderItems (Page.items page) d in
  let d2 := if Page.watermark page then log Watermark d1 else d1 in
  Ok ({| Page.items := items';
         Page.pageSize_orientation := Page.pageSize_orientation page;
         Page.watermark := Page.watermark page |}, d2).

(** Pages of index [i > 0]. *)
Fixpoint renderLaterPages (pages : list Page.t) (d : pdfKitDoc)
  : result (list Page.t * pdfKitDoc) :=
  match pages with
  | [] => Ok ([], d)
  | page :: rest =>
      let d0 := updatePageOrientationInOptions page d in
      let d1 := log (AddPage (Some (options_size d0))) d0 in
      let* (page', d2) := renderPageBody page d1 in
      let* (rest', d3) := renderLaterPages rest d2 in
      Ok (page' :: rest', d3)
  end.

Definition renderPages (pages : list Page.t) (d : pdfKitDoc)
  : result (list Page.t * pdfKitDoc) :=
  let d0 := log (AddPage None) d in
  match pages with
  | [] => Ok ([], d0)
  | first :: rest =>
      let* (first', d1) := renderPageBody first d0 in
      let* (rest', d2) := renderLaterPages rest d1 in
      Ok (first' :: rest', d2)
  end.

End Pages.

(** ** Definitions for the statements and the examples *)

(** Markings of a backend page kept as a plain stack: a structure content
    is open from its [markStructureContent] to the next
    [endMarkedContent]; a new page starts with none. *)
Fixpoint markingsOf (cs : list call) (open : list StructContent)
  : list StructContent :=
  match cs with
  | [] => open
  | MarkStructureContent c :: cs' => markingsOf cs' (push open c)
  | EndMarkedContent :: cs' => markingsOf cs' (pop open)
  | AddPage _ :: cs' => markingsOf cs' []
  | _ :: cs' => markingsOf cs' open
  end.

(** A measurer that gives every character half the font size. *)
Definition plainCollaborators : Collaborators :=
  {| widthOfString := fun text _ fontSize _ _ =>
       (inject_Z (Z.of_nat (String.length text)) * fontSize * (1 # 2))%Q;
     openStructContent := fun cs => slice_last (markingsOf cs []) |}.

(** A4 portrait, nothing drawn yet. *)
Definition blankDoc : pdfKitDoc :=
  {| options_size := (59528 # 100, 84189 # 100)%Q; stk := None; fresh := 0;
     calls := [] |}.

Definition Roboto : Font := {| fontName := "Roboto"; ascender := 927 # 1 |}.

Definition plainInline (text : string) : Inline.t :=
  {| Inline.text := text; Inline.font := Roboto; Inline.fontSize := 12;
     Inline.characterSpacing := None; Inline.fontFeatures := None;
     Inline.width := inject_Z (Z.of_nat (String.length text)) * 6;
     Inline.x := 0; Inline.alignment := None; Inline._pageNodeRef := None;
     Inline.sup := false; Inline.sub := false |}.

Definition taggedLine (text : string) (tags : list TagToken)
  (starts ends : option bool) : Line.t :=
  {| Line.inlines := [plainInline text]; Line.tags := Some tags;
     Line.startsNode := starts; Line.endsNode := ends;
     Line._pageNodeRef := None;
     Line.getHeight := 14; Line.getAscenderHeight := 11;
     Line.x := Some 40%Q; Line.y := Some 40%Q |}.

(** A document whose stack is [l], nothing logged. *)
Definition docOn (l : list StructElem) : pdfKitDoc :=
  {| options_size := options_size blankDoc; stk := Some l;
     fresh := List.length l; calls := [] |}.

(** An engine at the head of a line's tag loop, the stack being [l]. *)
Definition engineOn (l : list StructElem) : engine :=
  {| doc := docOn l; lastOpenedStructTag := None;
     lastOpenedStructElement := None; closingsFifo := []; lifo := [] |}.

Definition elem (n : nat) (name : string) : StructElem :=
  {| ref := n; data_S := name |}.

Definition isNumberOrBoolean (tok : TagToken) : bool :=
  match tok with
  | TNumber _ | TBoolean _ => true
  | _ => false
  end.

(** Calls other than the end of a structure element and the start of a
    page. *)
Definition quiet (c : call) : bool :=
  match c with
  | ElemEnd _ | AddPage _ => false
  | _ => true
  end.

(** [d'] is [d] after some quiet calls, the page size being the same. *)
Definition extends (d d' : pdfKitDoc) : Prop :=
  options_size d' = options_size d /\
  exists extra, calls d' = calls d ++ extra /\ forallb quiet extra = true.

(** The elements that left the stack between [before] and [after], the top
    first. *)
Definition popped_by (before after : list StructElem) : list StructElem :=
  rev (skipn (List.length after) before).

(** The elements that leave the stack while the loop runs over [tags], in
    the order they leave it. *)
Fixpoint pop_order (starts ends : bool) (itag : nat) (tags : list TagToken)
  (s : engine) : list StructElem :=
  match tags with
  | [] => []
  | tagitem :: rest =>
      match processTag starts ends itag tagitem s with
      | Ok s' =>
          popped_by (stack s) (stack s')
          ++ pop_order starts ends (Datatypes.S itag) rest s'
      | Throw _ => []
      end
  end.

(** The same for the tag block of a line rendered on [d]. *)
Definition linePopOrder (line : Line.t) (d : pdfKitDoc) : list StructElem :=
  match Line.tags line with
  | Some (t :: ts) =>
      if startsNode line || endsNode line
      then pop_order (startsNode line) (endsNode line) 0 (t :: ts)
             {| doc := ensureRoot d; lastOpenedStructTag := None;
                lastOpenedStructElement := None; closingsFifo := [];
                lifo := [] |}
      else []
  | _ => []
  end.

(** The elements that the log saw ended, in order. *)
Definition ends_of (cs : list call) : list StructElem :=
  flat_map (fun c => match c with ElemEnd e => [e] | _ => [] end) cs.

Definition pageRef (n : nat) : PageNodeRef :=
  {| positions := Some [ {| pageNumber := n |} ] |}.

Definition withStartsNode (v : option bool) (line : Line.t) : Line.t :=
  {| Line.inlines := Line.inlines line; Line.tags := Line.tags line;
     Line.startsNode := v; Line.endsNode := Line.endsNode line;
     Line._pageNodeRef := Line._pageNodeRef line;
     Line.getHeight := Line.getHeight line;
     Line.getAscenderHeight := Line.getAscenderHeight line;
     Line.x := Line.x line; Line.y := Line.y line |}.

Definition withEndsNode (v : option bool) (line : Line.t) : Line.t :=
  {| Line.inlines := Line.inlines line; Line.tags := Line.tags line;
     Line.startsNode := Line.startsNode line; Line.endsNode := v;
     Line._pageNodeRef := Line._pageNodeRef line;
     Line.getHeight := Line.getHeight line;
     Line.getAscenderHeight := Line.getAscenderHeight line;
     Line.x := Line.x line; Line.y := Line.y line |}.

Definition cellLine : Line.t :=
  taggedLine "cell" [TString "TD"; TString "/TD"; TString "/TR"]
    (Some true) (Some true).

Definition rowDoc : pdfKitDoc :=
  docOn [elem 0 "Document"; elem 1 "Table"; elem 2 "TR"].

Definition sized (y height : Q) : Item.t :=
  {| Item.type := "image"; Item.item := Item.box (Some y) (Some height) |}.

Definition threeItems : list Page.t :=
  [ {| Page.items := [sized 100 50; sized 300 20; sized 10 5];
       Page.pageSize_orientation := "portrait"; Page.watermark := false |} ].

(** The sizes given to [addPage], in order; [None] is [addPage()]. *)
Definition pagesAdded (cs : list call) : list (option (Q * Q)) :=
  flat_map (fun c => match c with AddPage size => [size] | _ => [] end) cs.

(** The orientation that a physical size stands for. *)
Definition impliedOrientation (size : Q * Q) : string :=
  if negb (Qle_bool (fst size) (snd size)) then "landscape" else "portrait".

Definition swapped (size : Q * Q) : Q * Q := (snd size, fst size).

(** The size a page asks for when the backend has [size]: the other way
    round if and only if its orientation is not the one [size] stands
    for. *)
Definition sizeFor (page : Page.t) (size : Q * Q) : Q * Q :=
  if String.eqb (Page.pageSize_orientation page) (impliedOrientation size)
  then size else swapped size.

Fixpoint sizesFor (pages : list Page.t) (size : Q * Q) : list (Q * Q) :=
  match pages with
  | [] => []
  | page :: rest => sizeFor page size :: sizesFor rest (sizeFor page size)
  end.

Definition orientedPage (orientation : string) : Page.t :=
  {| Page.items := []; Page.pageSize_orientation := orientation;
     Page.watermark := false |}.

(** [d'] has the page size of [d] and has added no page. *)
Definition samePages (d d' : pdfKitDoc) : Prop :=
  options_size d' = options_size d /\
  pagesAdded (calls d') = pagesAdded (calls d).

Definition landscapeDoc : pdfKitDoc :=
  {| options_size := (84189 # 100, 59528 # 100)%Q; stk := None; fresh := 0;
     calls := [] |}.

Definition threePages : list Page.t :=
  [orientedPage "landscape"; orientedPage "portrait"; orientedPage "landscape"].

(** A right-aligned placeholder of width 50 whose page number will
    measure 30. *)
Definition wideInline : Inline.t :=
  {| Inline.text := "000"; Inline.font := Roboto; Inline.fontSize := 60;
     Inline.characterSpacing := None; Inline.fontFeatures := None;
     Inline.width := 50; Inline.x := 100; Inline.alignment := Some "right";
     Inline._pageNodeRef := Some (pageRef 7);
     Inline.sup := false; Inline.sub := false |}.

(** A rectangle: a vector with a [y] and no [y1], [y2]. *)
Definition rectAt (y : Q) : Item.t :=
  {| Item.type := "vector"; Item.item := Item.vector (Some y) None None |}.

(** ** Definitions for the further properties *)

(** [pdfKitDoc.stk], empty while it is undefined. *)
Definition stackOf (d : pdfKitDoc) : list StructElem :=
  match stk d with
  | Some l => l
  | None => []
  end.

(** The stack, once there is one, stands on an element named
    ['Document']. *)
Definition rooted (d : pdfKitDoc) : Prop :=
  match stk d with
  | None => True
  | Some l => exists root rest, l = root :: rest /\ data_S root = "Document"
  end.

Definition isRootClose (tok : TagToken) : bool :=
  match tok with
  | TString t => String.eqb t "/Document"
  | _ => false
  end.

(** Some tag of the line is ['/Document']. *)
Definition closesRoot (line : Line.t) : bool :=
  match Line.tags line with
  | Some ts => existsb isRootClose ts
  | None => false
  end.

Definition itemClosesRoot (item : Item.t) : bool :=
  match Item.item item with
  | Item.line l => closesRoot l
  | _ => false
  end.

Definition pagesCloseRoot (pages : list Page.t) : bool :=
  existsb (fun page => existsb itemClosesRoot (Page.items page)) pages.

(** [d'] stands on a ['Document'] root, the one of [d] if [d] has one. *)
Definition sameRoot (d d' : pdfKitDoc) : Prop :=
  rooted d' /\
  (forall root rest, stk d = Some (root :: rest) ->
                     exists rest', stk d' = Some (root :: rest')).

Definition linePage (lines : list Line.t) : Page.t :=
  {| Page.items :=
       map (fun l => {| Item.type := "line"; Item.item := Item.line l |}) lines;
     Page.pageSize_orientation := "portrait"; Page.watermark := false |}.

(** A table over two pages, the second page opening with a onetime
    pop. *)
Definition brokenTable : list Page.t :=
  [ linePage [ taggedLine "head" [TString "Table"; TString "TR"; TString "TH"]
                 (Some true) None;
               taggedLine "end" [TString "/TH"; TString "/TR"] None (Some true) ];
    linePage [ taggedLine "cell" [TObject (Some 1%Z); TString "TR"; TString "TD"]
                 (Some true) (Some true);
               taggedLine "last" [TString "/TD"; TString "/TR"; TString "/Table"]
                 None (Some true) ] ].

Definition isObjectToken (tok : TagToken) : bool :=
  match tok with
  | TObject _ => true
  | _ => false
  end.

Definition notObjectToken (tok : TagToken) : bool := negb (isObjectToken tok).

(** The indices, counted from [itag], of the tokens that are objects. *)
Fixpoint objectIndices (itag : nat) (tags : list TagToken) : list nat :=
  match tags with
  | [] => []
  | tok :: rest =>
      (if isObjectToken tok then [itag] else [])
      ++ objectIndices (Datatypes.S itag) rest
  end.

Definition onetimeLine : Line.t :=
  taggedLine "cell"
    [TObject (Some 1%Z); TString "TR"; TObject None; TString "TD"]
    (Some true) (Some true).

(** [d'] is [d] after calls that all satisfy [P]. *)
Definition adds (P : call -> Prop) (d d' : pdfKitDoc) : Prop :=
  exists extra, calls d' = calls d ++ extra /\ Forall P extra.

(** The tag block of [renderLine] runs on this line. *)
Definition tagged (line : Line.t) : bool :=
  match Line.tags line with
  | Some (_ :: _) => startsNode line || endsNode line
  | _ => false
  end.

(** What rendering [line] on [d] may call. *)
Definition permitted (line : Line.t) (d : pdfKitDoc) (c : call) : Prop :=
  match c with
  | DrawBackground | DrawDecorations | Text _ _ _ => True
  | AddPage _ | Draw _ | Watermark => False
  | ElemEnd _ | ElemAddContent _ _ | EndMarkedContent => endsNode line = true
  | MarkStructureContent _ => tagged line = true /\ startsNode line = true
  | ElemAdd _ _ => tagged line = true /\ startsNode line = true
  | Struct e =>
      tagged line = true /\
      (startsNode line = true \/ (stk d = None /\ data_S e = "Document"))
  | AddStructure e => tagged line = true /\ stk d = None
  | ConsoleLog _ => tagged line = true
  end.

(** The calls that open an element under its parent or a content span,
    and those that close them. *)
Definition isOpening (c : call) : bool :=
  match c with
  | ElemAdd _ _ | MarkStructureContent _ => true
  | _ => false
  end.

Definition isClosing (c : call) : bool :=
  match c with
  | ElemEnd _ | ElemAddContent _ _ | EndMarkedContent => true
  | _ => false
  end.

Definition untaggedLine (text : string) : Line.t :=
  {| Line.inlines := [plainInline text]; Line.tags := None;
     Line.startsNode := None; Line.endsNode := None;
     Line._pageNodeRef := None;
     Line.getHeight := 14; Line.getAscenderHeight := 11;
     Line.x := Some 40%Q; Line.y := Some 40%Q |}.

(** The elements that the log saw made, in order. *)
Definition structs_of (cs : list call) : list StructElem :=
  flat_map (fun c => match c with Struct e => [e] | _ => [] end) cs.

(** Every element made is on the stack or has been ended, once. *)
Definition wellTracked (d : pdfKitDoc) : Prop :=
  Permutation (structs_of (calls d)) (stackOf d ++ ends_of (calls d)).

(** The same inside the tag loop, [ended] being the elements ended before
    the line. *)
Definition tracked (s : engine) (ended : list StructElem) : Prop :=
  Permutation (structs_of (calls (doc s)))
    (stack s ++ closingsFifo s ++ ended).

(** Calls that carry content: they make no element and end none. *)
Definition contentCall (c : call) : Prop :=
  match c with
  | MarkStructureContent _ | Text _ _ _ | DrawDecorations
  | ElemAddContent _ _ | EndMarkedContent => True
  | _ => False
  end.

(** [d'] has the stack of [d] and has made and ended the same elements. *)
Definition neutral (d d' : pdfKitDoc) : Prop :=
  stk d' = stk d /\
  structs_of (calls d') = structs_of (calls d) /\
  ends_of (calls d') = ends_of (calls d).

Definition isWarning (c : call) : Prop :=
  match c with
  | ConsoleLog _ => True
  | _ => False
  end.

Definition isTextCall (c : call) : Prop :=
  match c with
  | Text _ _ _ => True
  | _ => False
  end.

(** A line that opens and closes one element: tags [[name, '/' + name]]
    and both flags. *)
Definition selfContained (name text : string) : Line.t :=
  taggedLine text [TString name; TString (String "/" name)]
    (Some true) (Some true).

(** A line with [startsNode] only, one of whose tags is a close tag. *)
Definition openOnly : Line.t :=
  taggedLine "head" [TString "TH"; TString "/TR"] (Some true) None.

(** A placeholder whose reference was never given a position. *)
Definition danglingInline : Inline.t :=
  {| Inline.text := "00"; Inline.font := Roboto; Inline.fontSize := 12;
     Inline.characterSpacing := None; Inline.fontFeatures := None;
     Inline.width := 12; Inline.x := 30; Inline.alignment := None;
     Inline._pageNodeRef := Some {| positions := None |};
     Inline.sup := false; Inline.sub := false |}.

Definition danglingLine : Line.t :=
  {| Line.inlines := [plainInline "see page "; danglingInline];
     Line.tags := None; Line.startsNode := None; Line.endsNode := None;
     Line._pageNodeRef := None;
     Line.getHeight := 14; Line.getAscenderHeight := 11;
     Line.x := Some 40%Q; Line.y := Some 40%Q |}.

Definition replaceItems (items : list Item.t) (page : Page.t) : Page.t :=
  {| Page.items := items;
     Page.pageSize_orientation := Page.pageSize_orientation page;
     Page.watermark := Page.watermark page |}.

(** ** Fonts and page sizes *)

(** [String.prototype.toLowerCase] and [toUpperCase], and the table of
    [standardPageSizes.js] read as [sizes[key]] ([None] when the key is
    missing).  Its keys are in upper case, as is what [toUpperCase]
    returns, so that no name inherited from [Object.prototype] is looked
    up. *)
Class Strings : Type := {
  toLowerCase : string -> string;
  toUpperCase : string -> string;
  sizes : string -> option (Q * Q)
}.

(** A number that may be [Infinity]. *)
Inductive Num : Type :=
| Finite (q : Q)
| Infinity.

(** [a > b] *)
Definition gtNum (a b : Num) : bool :=
  match a, b with
  | Finite p, Finite q => negb (Qle_bool p q)
  | Infinity, Finite _ => true
  | _, Infinity => false
  end.

(** [pageSize.height]: a number or the string ['auto']. *)
Inductive HeightValue : Type :=
| HNumber (n : Num)
| HAuto.

(** The [pageSize] of a document definition. *)
Inductive PageSizeValue : Type :=
| PSUndefined
| PSName (name : string)
| PSObject (width : Num) (height : HeightValue).

(** The argument of [pageSize2widthAndHeight]: a name or an object whose
    height is a number. *)
Inductive PageSizeArg : Type :=
| AName (name : string)
| AObject (width height : Num).

Module Size.
Record t : Type := { width : Num; height : Num; orientation : string }.
End Size.

Section FontsAndSizes.
Context {str : Strings}.

(** The inner loop of [findFont]: [for (var font in fonts)], the keys in
    the order of the enumeration. *)
Fixpoint findKey (requiredFont : string) (fonts : list string)
  : option string :=
  match fonts with
  | [] => None
  | font :: rest =>
      if String.eqb (toLowerCase font) requiredFont then Some font
      else findKey requiredFont rest
  end.

Fixpoint findFont (fonts requiredFonts : list string) (defaultFont : string)
  : string :=
  match requiredFonts with
  | [] => defaultFont
  | required :: rest =>
      match findKey (toLowerCase required) fonts with
      | Some font => font
      | None => findFont fonts rest defaultFont
      end
  end.

Definition pageSize2widthAndHeight (pageSize : PageSizeArg)
  : result (Num * Num) :=
  match pageSize with
  | AName name =>
      match sizes (toUpperCase name) with
      | None =>
          Throw (Thrown ("Page size " ++ name ++ " not recognized")%string)
      | Some (w, h) => Ok (Finite w, Finite h)
      end
  | AObject w h => Ok (w, h)
  end.

(** [isNeedSwapPageSizes]; [pageOrientation] is [None] when it is not a
    string. *)
Definition isNeedSwapPageSizes (pageOrientation : option string)
  (size : Num * Num) : bool :=
  match pageOrientation with
  | Some o =>
      let o := toLowerCase o in
      (String.eqb o "portrait" && gtNum (fst size) (snd size))
      || (String.eqb o "landscape" && gtNum (snd size) (fst size))
  | None => false
  end.

Definition fixPageSize (pageSize : PageSizeValue)
  (pageOrientation : option string) : result Size.t :=
  let arg :=
    match pageSize with
    | PSUndefined => AName "A4"
    | PSName name => if String.eqb name "" then AName "A4" else AName name
    | PSObject w (HNumber h) => AObject w h
    | PSObject w HAuto => AObject w Infinity
    end in
  let* size := pageSize2widthAndHeight arg in
  let size := if isNeedSwapPageSizes pageOrientation size
              then (snd size, fst size) else size in
  Ok {| Size.width := fst size; Size.height := snd size;
        Size.orientation :=
          if gtNum (fst size) (snd size) then "landscape" else "portrait" |}.

End FontsAndSizes.

(** Case maps of the ASCII letters and a table with two sizes. *)
Definition asciiLower (c : ascii) : ascii :=
  let n := nat_of_ascii c in
  if (65 <=? n)%nat && (n <=? 90)%nat then ascii_of_nat (n + 32) else c.

Definition asciiUpper (c : ascii) : ascii :=
  let n := nat_of_ascii c in
  if (97 <=? n)%nat && (n <=? 122)%nat then ascii_of_nat (n - 32) else c.

Fixpoint mapString (f : ascii -> ascii) (s : string) : string :=
  match s with
  | EmptyString => EmptyString
  | String c rest => String (f c) (mapString f rest)
  end.

Definition asciiStrings : Strings :=
  {| toLowerCase := mapString asciiLower;
     toUpperCase := mapString asciiUpper;
     sizes := fun key =>
       if String.eqb key "A4" then Some (59528 # 100, 84189 # 100)%Q
       else if String.eqb key "LETTER" then Some (612, 792)%Q
       else None |}.

(** ** Vectors *)

(** [vector.color]: a colour name, or the gradient that [renderVector]
    puts in its place. *)
Inductive Paint : Type :=
| Named (color : string)
| Gradient.

Module Dash.
Record t : Type := { length : option Q; space : option Q; phase : option Q }.
End Dash.

Module Vector.
Record t : Type := {
  type : string;
  lineWidth : option Q;
  dash : option Dash.t;
  lineJoin : option string;
  lineCap : option string;
  x : option Q; y : option Q;
  r1 : option Q; r2 : option Q;
  w : option Q; h : option Q; r : option Q;
  x1 : option Q; y1 : option Q; x2 : option Q; y2 : option Q;
  points : list (Q * Q);
  closePath : bool;
  d : option string;
  linearGradient : option (list string);
  color : option Paint;
  lineColor : option string;
  fillOpacity : option Q;
  strokeOpacity : option Q
}.
End Vector.

(** The calls of [renderVector] on the backend and on the gradient. *)
Inductive vcall : Type :=
| VLineWidth (width : Q)
| VDash (length space : option Q) (phase : Q)
| VUndash
| VLineJoin (join : string)
| VLineCap (cap : string)
| VEllipse (x y r1 r2 : option Q)
| VRoundedRect (x y w h r : option Q)
| VRect (x y w h : option Q)
| VMoveTo (x y : option Q)
| VLineTo (x y : option Q)
| VClosePath
| VPath (d : option string)
| VLinearGradient (x1 y1 x2 y2 : option Q)
| VStop (offset : spec_float) (color : string)   (* a double *)
| VFillColor (paint : Paint) (opacity : Q)
| VStrokeColor (color : string) (opacity : Q)
| VFillAndStroke
| VFill
| VStroke.

(** [a - b] on numbers that may be undefined *)
Definition minus (a b : option Q) : option Q :=
  match a, b with
  | Some p, Some q => Some (p - q)%Q
  | _, _ => None
  end.

(** [v || dflt] for a number that may be undefined *)
Definition orNumber (v : option Q) (dflt : Q) : Q :=
  if truthy v then match v with Some q => q | None => dflt end else dflt.

(** [s || dflt] for a string that may be undefined *)
Definition orString (s : option string) (dflt : string) : string :=
  match s with
  | Some t => if String.eqb t "" then dflt else t
  | None => dflt
  end.

Definition truthyPaint (p : option Paint) : bool :=
  match p with
  | Some (Named c) => negb (String.eqb c "")
  | Some Gradient => true
  | None => false
  end.

Definition truthyString (s : option string) : bool :=
  match s with
  | Some t => negb (String.eqb t "")
  | None => false
  end.

(** The calls before the [switch]. *)
Definition vectorSetup (vector : Vector.t) : list vcall :=
  [ VLineWidth (orNumber (Vector.lineWidth vector) 1);
    match Vector.dash vector with
    | Some dash =>
        VDash (Dash.length dash)
          (if truthy (Dash.space dash) then Dash.space dash
           else Dash.length dash)
          (orNumber (Dash.phase dash) 0)
    | None => VUndash
    end;
    VLineJoin (orString (Vector.lineJoin vector) "miter");
    VLineCap (orString (Vector.lineCap vector) "butt") ].

(** [p1.x === pn.x && p1.y === pn.y] *)
Definition samePoint (p1 pn : Q * Q) : bool :=
  Qeq_bool (fst p1) (fst pn) && Qeq_bool (snd p1) (snd pn).

(** [case 'polyline'] *)
Definition polylineCalls (vector : Vector.t) : list vcall :=
  match Vector.points vector with
  | [] => []
  | p1 :: rest =>
      VMoveTo (Some (fst p1)) (Some (snd p1))
      :: map (fun p => VLineTo (Some (fst p)) (Some (snd p))) rest
      ++ match rest with
         | [] => []
         | _ :: _ =>
             if Vector.closePath vector || samePoint p1 (List.last rest p1)
             then [VClosePath] else []
         end
  end.

(** The [switch (vector.type)]: its calls, and whether [gradient] has
    been set. *)
Definition vectorShape (vector : Vector.t) : list vcall * bool :=
  let type := Vector.type vector in
  let hasGradient := isSome (Vector.linearGradient vector) in
  if String.eqb type "ellipse" then
    (VEllipse (Vector.x vector) (Vector.y vector) (Vector.r1 vector)
       (Vector.r2 vector)
     :: (if hasGradient
         then [VLinearGradient (minus (Vector.x vector) (Vector.r1 vector))
                 (Vector.y vector)
                 (plus (Vector.x vector) (Vector.r1 vector))
                 (Vector.y vector)]
         else []),
     hasGradient)
  else if String.eqb type "rect" then
    ((if truthy (Vector.r vector)
      then VRoundedRect (Vector.x vector) (Vector.y vector) (Vector.w vector)
             (Vector.h vector) (Vector.r vector)
      else VRect (Vector.x vector) (Vector.y vector) (Vector.w vector)
             (Vector.h vector))
     :: (if hasGradient
         then [VLinearGradient (Vector.x vector) (Vector.y vector)
                 (plus (Vector.x vector) (Vector.w vector))
                 (Vector.y vector)]
         else []),
     hasGradient)
  else if String.eqb type "line" then
    ([VMoveTo (Vector.x1 vector) (Vector.y1 vector);
      VLineTo (Vector.x2 vector) (Vector.y2 vector)], false)
  else if String.eqb type "polyline" then (polylineCalls vector, false)
  else if String.eqb type "path" then ([VPath (Vector.d vector)], false)
  else ([], false).

(** The offsets of the stops are quotients and products of doubles, and
    what they round to shows, so they are computed in binary64: precision
    53, infinities at exponent 1024.  A length and a loop index are
    integers, which are doubles. *)
Module F64.
Definition prec : Z := 53.
Definition emax : Z := 1024.
Definition ofNat (n : nat) : spec_float :=
  binary_normalize prec emax (Z.of_nat n) 0 false.
Definition one : spec_float := ofNat 1.
Definition sub : spec_float -> spec_float -> spec_float := SFsub prec emax.
Definition mul : spec_float -> spec_float -> spec_float := SFmul prec emax.
Definition div : spec_float -> spec_float -> spec_float := SFdiv prec emax.
Definition ltb : spec_float -> spec_float -> bool := SFltb.
(** neither [NaN] nor infinite nor negative *)
Definition isOffset (f : spec_float) : bool :=
  match f with
  | S754_zero false | S754_finite false _ _ => true
  | _ => false
  end.
End F64.

(** [var step = 1 / (vector.linearGradient.length - 1)] *)
Definition stopStep (n : nat) : spec_float :=
  F64.div F64.one (F64.sub (F64.ofNat n) F64.one).

(** [i * step] *)
Definition stopOffset (n i : nat) : spec_float :=
  F64.mul (F64.ofNat i) (stopStep n).

(** The loop over [vector.linearGradient], from index [i]. *)
Fixpoint gradientStops (n i : nat) (colors : list string) : list vcall :=
  match colors with
  | [] => []
  | c :: rest => VStop (stopOffset n i) c :: gradientStops n (Datatypes.S i) rest
  end.

(** [isNumber(o) ? o : 1] *)
Definition opacityOr1 (o : option Q) : Q :=
  match o with
  | Some q => q
  | None => 1%Q
  end.

(** The last [if]: the colour calls and the painting. *)
Definition vectorPaint (color : option Paint) (vector : Vector.t)
  : list vcall :=
  let fillOpacity := opacityOr1 (Vector.fillOpacity vector) in
  let strokeOpacity := opacityOr1 (Vector.strokeOpacity vector) in
  match color with
  | Some paint =>
      if truthyPaint color then
        if truthyString (Vector.lineColor vector)
        then [VFillColor paint fillOpacity;
              VStrokeColor (orString (Vector.lineColor vector) "black")
                strokeOpacity;
              VFillAndStroke]
        else [VFillColor paint fillOpacity; VFill]
      else [VStrokeColor (orString (Vector.lineColor vector) "black")
              strokeOpacity; VStroke]
  | None =>
      [VStrokeColor (orString (Vector.lineColor vector) "black")
         strokeOpacity; VStroke]
  end.

(** [renderVector]: its calls and the [vector.color] it leaves. *)
Definition renderVector (vector : Vector.t) : list vcall * option Paint :=
  let (shape, gradient) := vectorShape vector in
  let (stops, color) :=
    match Vector.linearGradient vector with
    | Some colors =>
        if gradient
        then (gradientStops (List.length colors) 0 colors, Some Gradient)
        else ([], Vector.color vector)
    | None => ([], Vector.color vector)
    end in
  (vectorSetup vector ++ shape ++ stops ++ vectorPaint color vector, color).

Definition isPaint (c : vcall) : bool :=
  match c with
  | VFillAndStroke | VFill | VStroke => true
  | _ => false
  end.

Definition isPathCall (c : vcall) : bool :=
  match c with
  | VMoveTo _ _ | VLineTo _ _ | VClosePath => true
  | _ => false
  end.

Definition plainVector (type : string) : Vector.t :=
  {| Vector.type := type; Vector.lineWidth := None; Vector.dash := None;
     Vector.lineJoin := None; Vector.lineCap := None;
     Vector.x := Some 10%Q; Vector.y := Some 20%Q;
     Vector.r1 := Some 5%Q; Vector.r2 := Some 5%Q;
     Vector.w := Some 100%Q; Vector.h := Some 50%Q; Vector.r := None;
     Vector.x1 := None; Vector.y1 := None; Vector.x2 := None;
     Vector.y2 := None;
     Vector.points := [(0, 0); (10, 0); (10, 10); (0, 0)]%Q;
     Vector.closePath := false; Vector.d := None;
     Vector.linearGradient := Some ["red"; "green"; "blue"];
     Vector.color := None; Vector.lineColor := None;
     Vector.fillOpacity := None; Vector.strokeOpacity := None |}.

(** ** Progress *)

(** [renderedItems / totalItems] *)
Definition ratio (renderedItems totalItems : nat) : Q :=
  (inject_Z (Z.of_nat renderedItems) / inject_Z (Z.of_nat totalItems))%Q.

(** The arguments that a [progressCallback] receives from [renderPages]
    in a pass that runs to its end: the item loop of one page, from the
    count [renderedItems], giving the reports and the new count. *)
Fixpoint reportItems (items : list Item.t) (renderedItems totalItems : nat)
  : list Q * nat :=
  match items with
  | [] => ([], renderedItems)
  | _ :: rest =>
      let renderedItems := Datatypes.S renderedItems in
      let (later, n) := reportItems rest renderedItems totalItems in
      (ratio renderedItems totalItems :: later, n)
  end.

Fixpoint reportPages (pages : list Page.t) (renderedItems totalItems : nat)
  : list Q :=
  match pages with
  | [] => []
  | page :: rest =>
      let (reports, n) :=
        reportItems (Page.items page) renderedItems totalItems in
      reports ++ reportPages rest n totalItems
  end.

(** [pages.forEach(function (page) { totalItems += page.items.length; })] *)
Definition countItems (pages : list Page.t) : nat :=
  fold_left (fun total page => total + List.length (Page.items page)) pages 0.

Definition progressReports (pages : list Page.t) : list Q :=
  reportPages pages 0 (countItems pages).

Definition notText (c : call) : Prop :=
  match c with
  | Text _ _ _ => False
  | _ => True
  end.

(** The [text] call for an inline of a line of height [lineHeight] and
    ascender height [ascenderHeight] drawn at [(x, y)]. *)
Definition textCall (lineHeight ascenderHeight x y : Q) (inline : Inline.t)
  : call :=
  Text (Inline.text inline) (x + Inline.x inline)%Q
    (offsetText
       (y + (lineHeight
             - ascender (Inline.font inline) / 1000 * Inline.fontSize inline
             - (lineHeight - ascenderHeight)))%Q inline).

Definition refLine : Line.t :=
  {| Line.inlines := [plainInline "see page "; wideInline];
     Line.tags := Some [TString "P"; TString "/P"];
     Line.startsNode := Some true; Line.endsNode := Some true;
     Line._pageNodeRef := None;
     Line.getHeight := 14; Line.getAscenderHeight := 11;
     Line.x := Some 40%Q; Line.y := Some 40%Q |}.

(** * Properties *)

(** ** Arrays *)

Lemma slice_last_push {A} (l : list A) (a : A) : slice_last (push l a) = Some a.
Proof.
  unfold push. induction l as [|b l IH]; [reflexivity|].
  simpl. destruct (l ++ [a]) eqn:E; [destruct l; discriminate|exact IH].
Qed.

Lemma pop_push {A} (l : list A) (a : A) : pop (push l a) = l.
Proof. apply removelast_last. Qed.

Lemma slice_last_inv {A} (l : list A) (a : A) :
  slice_last l = Some a -> l = push (pop l) a.
Proof.
  unfold push, pop. induction l as [|b l IH]; [discriminate|].
  destruct l as [|c l].
  - simpl. intros [= ->]. reflexivity.
  - intros H. change (slice_last (c :: l) = Some a) in H.
    apply IH in H. change (b :: c :: l = b :: (removelast (c :: l) ++ [a])).
    f_equal. exact H.
Qed.

Lemma slice_last_None {A} (l : list A) : slice_last l = None -> l = [].
Proof.
  induction l as [|b l IH]; [reflexivity|].
  destruct l as [|c l]; [discriminate|].
  intros H. change (slice_last (c :: l) = None) in H.
  apply IH in H. discriminate.
Qed.

(** ** The pop loop *)

Lemma stack_stk (s : engine) (l : list StructElem) :
  stk (doc s) = Some l -> stack s = l.
Proof. unfold stack. intros ->. reflexivity. Qed.

(** Popping as many elements as [popped] holds, all of them on the stack:
    they leave the stack from the top and enter the queue in that order. *)
Lemma pop_loop_spec (popped base : list StructElem) (s : engine) :
  stk (doc s) = Some (base ++ popped) ->
  pop_loop (List.length popped) s =
  {| doc := set_stk base (doc s);
     lastOpenedStructTag := lastOpenedStructTag s;
     lastOpenedStructElement := lastOpenedStructElement s;
     closingsFifo := closingsFifo s ++ rev popped;
     lifo := lifo s |}.
Proof.
  revert s. induction popped as [|e popped IH] using rev_ind; intros s H.
  - rewrite app_nil_r in *. destruct s as [d ? ? ? ?]. destruct d. simpl in *.
    subst. reflexivity.
  - rewrite length_app, Nat.add_comm. simpl.
    rewrite (stack_stk _ _ H), app_assoc.
    fold (push (base ++ popped) e). rewrite slice_last_push.
    rewrite IH.
    + simpl. unfold push. rewrite rev_app_distr, <- app_assoc. reflexivity.
    + simpl. rewrite (stack_stk _ _ H), app_assoc.
      fold (push (base ++ popped) e). rewrite pop_push. reflexivity.
Qed.

(** ** Tokens of the tag loop *)

(** C2: on a line with [endsNode], a token [{onetime: n}] met with a stack
    [l] that holds at least the root pops the elements [popped] off the top
    of [l] into the pending-closure queue, in the order popped, and leaves
    the rest of the stack, root included, as it was.  If [n <= depth - 1]
    exactly [n] elements are popped and nothing is logged; if
    [n > depth - 1] exactly [depth - 1] are popped and the warning about
    the root is logged. *)
Theorem onetime_pop (starts : bool) (itag n : nat) (s : engine)
  (l : list StructElem) :
  stk (doc s) = Some l -> l <> [] ->
  exists s' popped,
    processTag starts true itag (TObject (Some (Z.of_nat n))) s = Ok s' /\
    stk (doc s') = Some (stack s') /\
    l = stack s' ++ popped /\
    hd_error (stack s') = hd_error l /\
    closingsFifo s' = closingsFifo s ++ rev popped /\
    (n <= List.length l - 1 ->
     List.length popped = n /\ calls (doc s') = calls (doc s)) /\
    (n > List.length l - 1 ->
     List.length popped = List.length l - 1 /\
     calls (doc s') = calls (doc s) ++ [ConsoleLog WPopRoot]).
Proof.
  intros Hstk Hne.
  assert (Hlen : 1 <= List.length l) by (destruct l; [congruence|simpl; lia]).
  set (k := Nat.min n (List.length l - 1)).
  set (base := firstn (List.length l - k) l).
  set (popped := skipn (List.length l - k) l).
  assert (Hsplit : l = base ++ popped) by (symmetry; apply firstn_skipn).
  assert (Hpop : List.length popped = k)
    by (unfold popped; rewrite length_skipn; lia).
  assert (Hhd : hd_error base = hd_error l).
  { assert (Hk : exists m, List.length l - k = Datatypes.S m)
      by (exists (List.length l - k - 1); lia).
    destruct Hk as [m Hm]. unfold base. rewrite Hm.
    destruct l; [congruence|reflexivity]. }
  simpl. rewrite Hstk.
  assert (Hpops : (if (Z.of_nat n =? 0)%Z then 0%Z else Z.of_nat n) = Z.of_nat n)
    by (destruct (Z.eqb_spec (Z.of_nat n) 0); congruence).
  rewrite Hpops.
  destruct (Z.gtb_spec (Z.of_nat n) (Z.of_nat (List.length l) - 1)) as [Hgt|Hle].
  - assert (Hk : k = List.length l - 1) by lia.
    replace (Z.to_nat (Z.of_nat (List.length l) - 1)) with (List.length popped) by lia.
    eexists; exists popped. split; [reflexivity|].
    rewrite pop_loop_spec with (base := base) by (simpl; congruence).
    unfold stack; simpl. repeat split; auto; try lia.
  - assert (Hk : k = n) by lia.
    replace (Z.to_nat (Z.of_nat n)) with (List.length popped) by lia.
    eexists; exists popped. split; [reflexivity|].
    rewrite pop_loop_spec with (base := base) by (simpl; congruence).
    unfold stack; simpl. repeat split; auto; try lia.
Qed.

Lemma onetime_pop_witness :
  exists s' popped,
    processTag false true 0 (TObject (Some (Z.of_nat 1)))
      (engineOn [elem 0 "Document"; elem 1 "Table"; elem 2 "TR"]) = Ok s' /\
    stk (doc s') = Some (stack s') /\
    [elem 0 "Document"; elem 1 "Table"; elem 2 "TR"] = stack s' ++ popped /\
    hd_error (stack s') = Some (elem 0 "Document") /\
    closingsFifo s' = [] ++ rev popped /\
    (1 <= 3 - 1 -> List.length popped = 1 /\ calls (doc s') = []) /\
    (1 > 3 - 1 ->
     List.length popped = 3 - 1 /\ calls (doc s') = [] ++ [ConsoleLog WPopRoot]).
Proof.
  apply (onetime_pop false 0 1
           (engineOn [elem 0 "Document"; elem 1 "Table"; elem 2 "TR"])
           [elem 0 "Document"; elem 1 "Table"; elem 2 "TR"]).
  - reflexivity.
  - discriminate.
Defined.

(** C3: on a line with [endsNode], a close tag ["/Name"] whose [Name] is
    not the name of the top of the stack pops nothing: the stack and the
    pending-closure queue are as before and one warning is logged. *)
Theorem mismatched_close (starts : bool) (itag : nat) (name : string)
  (s : engine) (l : list StructElem) (top : StructElem) :
  stk (doc s) = Some l -> slice_last l = Some top -> data_S top <> name ->
  exists s',
    processTag starts true itag (TString (String "/" name)) s = Ok s' /\
    stk (doc s') = Some l /\
    closingsFifo s' = closingsFifo s /\
    calls (doc s') =
      calls (doc s) ++ [ConsoleLog (WIgnoringClose (String "/" name) (data_S top))].
Proof.
  intros Hstk Htop Hname.
  unfold processTag, processString, topElement. rewrite Hstk. simpl.
  rewrite Htop. simpl.
  destruct (String.eqb_spec (data_S top) name) as [E|_]; [contradiction|].
  simpl. eexists. split; [reflexivity|]. simpl. auto.
Qed.

Lemma mismatched_close_witness :
  exists s',
    processTag true true 2 (TString (String "/" "TR"))
      (engineOn [elem 0 "Document"; elem 1 "Table"; elem 2 "TH"]) = Ok s' /\
    stk (doc s') = Some [elem 0 "Document"; elem 1 "Table"; elem 2 "TH"] /\
    closingsFifo s' = [] /\
    calls (doc s') = [] ++ [ConsoleLog (WIgnoringClose (String "/" "TR") "TH")].
Proof.
  apply (mismatched_close true 2 "TR"
           (engineOn [elem 0 "Document"; elem 1 "Table"; elem 2 "TH"])
           [elem 0 "Document"; elem 1 "Table"; elem 2 "TH"] (elem 2 "TH")).
  - reflexivity.
  - reflexivity.
  - discriminate.
Defined.

(** C5, as the code has it: a token that is a number or a boolean is
    answered by one warning, the stack and the pending-closure queue stay
    as they are, and the loop goes on with the next token.  An object
    without a [onetime] count, met on a stack that holds the root, is a
    pop of no element: stack and queue stay as they are, nothing is
    logged, and the loop goes on. *)
Theorem unexpected_token (starts ends : bool) (itag : nat) (tok : TagToken)
  (rest : list TagToken) (s : engine) (l : list StructElem) :
  stk (doc s) = Some l -> l <> [] ->
  (isNumberOrBoolean tok = true ->
   exists s',
     processTag starts ends itag tok s = Ok s' /\
     stk (doc s') = Some l /\
     closingsFifo s' = closingsFifo s /\
     calls (doc s') = calls (doc s) ++ [ConsoleLog WIgnoringObject] /\
     processTags starts ends itag (tok :: rest) s =
       processTags starts ends (Datatypes.S itag) rest s') /\
  (tok = TObject None ->
   exists s',
     processTag starts ends itag tok s = Ok s' /\
     stk (doc s') = Some l /\
     closingsFifo s' = closingsFifo s /\
     calls (doc s') = calls (doc s) /\
     processTags starts ends itag (tok :: rest) s =
       processTags starts ends (Datatypes.S itag) rest s').
Proof.
  intros Hstk Hne. split.
  - intros Htok. exists (warn WIgnoringObject s).
    destruct tok; try discriminate; simpl; auto.
  - intros ->. simpl. unfold processObject. destruct ends.
    + rewrite Hstk.
      assert (Hle : (0 >? Z.of_nat (List.length l) - 1)%Z = false).
      { rewrite Z.gtb_ltb. apply Z.ltb_ge.
        destruct l; [congruence|]. simpl List.length. lia. }
      rewrite Hle. simpl. eexists. split; [reflexivity|]. simpl. auto.
    + exists s. simpl. auto.
Qed.

Lemma unexpected_token_witness :
  (isNumberOrBoolean (TNumber 7) = true ->
   exists s',
     processTag true true 1 (TNumber 7) (engineOn [elem 0 "Document"]) = Ok s' /\
     stk (doc s') = Some [elem 0 "Document"] /\
     closingsFifo s' = [] /\
     calls (doc s') = [] ++ [ConsoleLog WIgnoringObject] /\
     processTags true true 1 [TNumber 7; TString "P"] (engineOn [elem 0 "Document"]) =
       processTags true true 2 [TString "P"] s') /\
  (TNumber 7 = TObject None ->
   exists s',
     processTag true true 1 (TNumber 7) (engineOn [elem 0 "Document"]) = Ok s' /\
     stk (doc s') = Some [elem 0 "Document"] /\
     closingsFifo s' = [] /\
     calls (doc s') = [] /\
     processTags true true 1 [TNumber 7; TString "P"] (engineOn [elem 0 "Document"]) =
       processTags true true 2 [TString "P"] s').
Proof.
  apply (unexpected_token true true 1 (TNumber 7) [TString "P"]
           (engineOn [elem 0 "Document"]) [elem 0 "Document"]).
  - reflexivity.
  - discriminate.
Defined.

(** Against C5 as worded: on a line with [endsNode] the object [{}] is
    taken without any warning, and [null], whose [typeof] is ['object'],
    makes the read of its [onetime] throw. *)
Lemma unexpected_token_counterexample :
  (exists s',
     processTag false true 0 (TObject None) (engineOn [elem 0 "Document"]) = Ok s' /\
     calls (doc s') = calls (doc (engineOn [elem 0 "Document"]))) /\
  (exists e,
     processTag false true 0 TNull (engineOn [elem 0 "Document"]) = Throw e).
Proof.
  split; eexists; [split|]; reflexivity.
Qed.

(** ** What a line adds to the call log *)

Lemma extends_refl (d : pdfKitDoc) : extends d d.
Proof. split; [reflexivity|]. exists []. rewrite app_nil_r. auto. Qed.

Lemma extends_trans (d1 d2 d3 : pdfKitDoc) :
  extends d1 d2 -> extends d2 d3 -> extends d1 d3.
Proof.
  intros [H1 (e1 & C1 & Q1)] [H2 (e2 & C2 & Q2)]. split; [congruence|].
  exists (e1 ++ e2). rewrite C2, C1, <- app_assoc, forallb_app, Q1, Q2. auto.
Qed.

Lemma extends_log (c : call) (d : pdfKitDoc) :
  quiet c = true -> extends d (log c d).
Proof.
  intros H. split; [reflexivity|]. exists [c]. simpl. rewrite H. auto.
Qed.

Lemma extends_set_stk (l : list StructElem) (d : pdfKitDoc) :
  extends d (set_stk l d).
Proof. split; [reflexivity|]. exists []. simpl. rewrite app_nil_r. auto. Qed.

Lemma extends_struct (name : string) (d : pdfKitDoc) :
  extends d (snd (struct name d)).
Proof. split; [reflexivity|]. eexists. simpl. split; reflexivity. Qed.

Lemma extends_markStructureContent (tag : string) (d : pdfKitDoc) :
  extends d (snd (markStructureContent tag d)).
Proof. split; [reflexivity|]. eexists. simpl. split; reflexivity. Qed.

Create HintDb calls.
#[local] Hint Resolve extends_refl extends_log extends_set_stk extends_struct
  extends_markStructureContent : calls.

Ltac by_log :=
  split;
  [ reflexivity
  | eexists; simpl; split;
    [ first [ symmetry; apply app_nil_r | rewrite <- ?app_assoc; reflexivity ]
    | reflexivity ] ].

Lemma extends_pop_loop (pops : nat) (s : engine) :
  extends (doc s) (doc (pop_loop pops s)).
Proof.
  revert s. induction pops as [|j IH]; intros s; simpl; auto with calls.
  destruct (slice_last (stack s)); auto with calls.
  eapply extends_trans; [|apply IH]. simpl. auto with calls.
Qed.

Lemma extends_processTag (starts ends : bool) (itag : nat) (tok : TagToken)
  (s s' : engine) :
  processTag starts ends itag tok s = Ok s' -> extends (doc s) (doc s').
Proof.
  destruct tok as [t|onetime| | |n|b]; simpl.
  - unfold processString, topElement.
    destruct (stk (doc s)) as [l|]; [|discriminate]. simpl.
    destruct (slice_last l) as [top|]; [|discriminate].
    destruct (String.length t =? 0)%nat; [intros [= <-]; auto with calls|].
    destruct (isOpeningTag t && starts).
    + destruct (failsSyntaxCheck (data_S top) t) as [[|]|]; simpl;
        try discriminate; intros [= <-]; by_log.
    + destruct (negb (isOpeningTag t) && ends); [|intros [= <-]; auto with calls].
      destruct (negb (data_S top =? slice1 t)%string); intros [= <-]; by_log.
  - unfold processObject. destruct ends; [|intros [= <-]; auto with calls].
    destruct (stk (doc s)) as [l|]; [|discriminate].
    match goal with |- context [if ?c then _ else _] => destruct c end;
      intros [= <-];
      (eapply extends_trans; [|apply extends_pop_loop]); by_log.
  - destruct ends; [discriminate|intros [= <-]; auto with calls].
  - discriminate.
  - intros [= <-]. by_log.
  - intros [= <-]. by_log.
Qed.

Lemma extends_processTags (starts ends : bool) (tags : list TagToken) :
  forall (itag : nat) (s s' : engine),
    processTags starts ends itag tags s = Ok s' -> extends (doc s) (doc s').
Proof.
  induction tags as [|tok tags IH]; intros itag s s'; simpl.
  - intros [= <-]. auto with calls.
  - destruct (processTag starts ends itag tok s) as [s1|] eqn:E; [|discriminate].
    simpl. intros H. eapply extends_trans.
    + eapply extends_processTag; eassumption.
    + eapply IH; eassumption.
Qed.

Lemma extends_ensureRoot (d : pdfKitDoc) : extends d (ensureRoot d).
Proof. unfold ensureRoot. destruct (stk d); [auto with calls|by_log]. Qed.

(** ** The order of closures *)

Lemma popped_by_same (l : list StructElem) : popped_by l l = [].
Proof. unfold popped_by. rewrite skipn_all. reflexivity. Qed.

Lemma popped_by_push (l : list StructElem) (e : StructElem) :
  popped_by l (push l e) = [].
Proof.
  unfold popped_by, push. rewrite skipn_all2; [reflexivity|].
  rewrite length_app. simpl. lia.
Qed.

Lemma popped_by_app (base popped : list StructElem) :
  popped_by (base ++ popped) base = rev popped.
Proof.
  unfold popped_by. rewrite skipn_app, skipn_all, Nat.sub_diag. reflexivity.
Qed.

Lemma popped_by_firstn (n : nat) (l : list StructElem) :
  n <= List.length l -> popped_by l (firstn n l) = rev (skipn n l).
Proof.
  intros H. unfold popped_by. rewrite length_firstn, Nat.min_l by exact H.
  reflexivity.
Qed.

(** The clamp of the onetime pop keeps the count within the stack. *)
Lemma clamp_le (pops : Z) (l : list StructElem) :
  let poppable := (Z.of_nat (List.length l) - 1)%Z in
  Z.to_nat (if (pops >? poppable)%Z then poppable else pops) <= List.length l.
Proof.
  simpl. destruct (Z.gtb_spec pops (Z.of_nat (List.length l) - 1)); lia.
Qed.

(** One turn of the loop either leaves the queue alone or moves to it what
    left the stack, the top first. *)
Ltac open_engine :=
  unfold close_top, warn, with_doc, struct, log, set_stk, stack;
  cbn [doc stk closingsFifo].

Lemma processTag_fifo (starts ends : bool) (itag : nat) (tok : TagToken)
  (s s' : engine) (l : list StructElem) :
  stk (doc s) = Some l ->
  processTag starts ends itag tok s = Ok s' ->
  stk (doc s') = Some (stack s') /\
  closingsFifo s' = closingsFifo s ++ popped_by l (stack s').
Proof.
  intros Hstk.
  assert (Hsame : stk (doc s) = Some (stack s) /\
                  closingsFifo s = closingsFifo s ++ popped_by l (stack s)).
  { rewrite (stack_stk _ _ Hstk), popped_by_same, app_nil_r. auto. }
  destruct tok as [t|onetime| | |n|b]; simpl.
  - unfold processString, topElement. rewrite Hstk. simpl.
    destruct (slice_last l) as [top|] eqn:Htop; [|discriminate].
    destruct (String.length t =? 0)%nat; [intros [= <-]; exact Hsame|].
    destruct (isOpeningTag t && starts).
    + destruct (failsSyntaxCheck (data_S top) t) as [[|]|]; simpl;
        try discriminate; intros [= <-];
        open_engine; rewrite Hstk;
        rewrite popped_by_push, app_nil_r; auto.
    + destruct (negb (isOpeningTag t) && ends); [|intros [= <-]; exact Hsame].
      destruct (negb (data_S top =? slice1 t)%string); intros [= <-].
      * open_engine. rewrite Hstk, popped_by_same, app_nil_r. auto.
      * open_engine. rewrite Hstk. split; [reflexivity|].
        rewrite (slice_last_inv _ _ Htop) at 1. unfold push.
        rewrite popped_by_app. reflexivity.
  - unfold processObject. destruct ends; [|intros [= <-]; exact Hsame].
    rewrite Hstk.
    set (pops := match onetime with
                 | Some n => if (n =? 0)%Z then 0%Z else n
                 | None => 0%Z
                 end).
    pose proof (clamp_le pops l) as Hle. simpl in Hle.
    set (k := Z.to_nat (if (pops >? Z.of_nat (List.length l) - 1)%Z
                        then (Z.of_nat (List.length l) - 1)%Z else pops)) in *.
    assert (Hsplit : l = firstn (List.length l - k) l ++ skipn (List.length l - k) l)
      by (symmetry; apply firstn_skipn).
    assert (Hk : List.length (skipn (List.length l - k) l) = k)
      by (rewrite length_skipn; lia).
    destruct (pops >? Z.of_nat (List.length l) - 1)%Z; intros [= <-];
      fold k; rewrite <- Hk;
      rewrite pop_loop_spec with (base := firstn (List.length l - k) l)
        by (simpl; congruence);
      open_engine; (split; [reflexivity|]);
      rewrite popped_by_firstn by lia; reflexivity.
  - destruct ends; [discriminate|intros [= <-]; exact Hsame].
  - discriminate.
  - intros [= <-]. open_engine. rewrite Hstk, popped_by_same, app_nil_r. auto.
  - intros [= <-]. open_engine. rewrite Hstk, popped_by_same, app_nil_r. auto.
Qed.

Lemma pop_loop_firstn (k : nat) (s : engine) (l : list StructElem) :
  stk (doc s) = Some l -> k <= List.length l ->
  pop_loop k s =
  {| doc := set_stk (firstn (List.length l - k) l) (doc s);
     lastOpenedStructTag := lastOpenedStructTag s;
     lastOpenedStructElement := lastOpenedStructElement s;
     closingsFifo := closingsFifo s ++ rev (skipn (List.length l - k) l);
     lifo := lifo s |}.
Proof.
  intros Hstk Hk.
  pose proof (pop_loop_spec (skipn (List.length l - k) l)
                (firstn (List.length l - k) l) s) as H.
  rewrite firstn_skipn, length_skipn in H.
  replace (List.length l - (List.length l - k)) with k in H by lia.
  apply H. exact Hstk.
Qed.

(** A onetime pop on a stack [l] takes at most [length l - 1] elements off
    its top. *)
Lemma processObject_stack (ends : bool) (itag : nat) (onetime : option Z)
  (s s' : engine) (l : list StructElem) :
  stk (doc s) = Some l ->
  processObject ends itag onetime s = Ok s' ->
  exists k, k <= List.length l - 1 /\
            stk (doc s') = Some (firstn (List.length l - k) l).
Proof.
  intros Hstk. unfold processObject. destruct ends.
  - rewrite Hstk.
    set (pops := match onetime with
                 | Some n => if (n =? 0)%Z then 0%Z else n
                 | None => 0%Z
                 end).
    set (k := Z.to_nat (if (pops >? Z.of_nat (List.length l) - 1)%Z
                        then (Z.of_nat (List.length l) - 1)%Z else pops)).
    assert (Hk : k <= List.length l - 1).
    { unfold k. destruct (Z.gtb_spec pops (Z.of_nat (List.length l) - 1)); lia. }
    destruct (pops >? Z.of_nat (List.length l) - 1)%Z; intros [= <-];
      fold k; exists k; (split; [exact Hk|]);
      rewrite pop_loop_firstn with (l := l) by (simpl; auto; lia);
      reflexivity.
  - intros [= <-]. exists 0. rewrite Nat.sub_0_r, firstn_all. split; [lia|exact Hstk].
Qed.

(** The root stays at the bottom of the stack through every token but
    one: the close tag that names the root while the root is alone. *)
Lemma processTag_keeps_root (starts ends : bool) (itag : nat) (tok : TagToken)
  (s s' : engine) (root : StructElem) (rest : list StructElem) :
  stk (doc s) = Some (root :: rest) ->
  processTag starts ends itag tok s = Ok s' ->
  (rest = [] -> tok <> TString (String "/" (data_S root))) ->
  exists rest', stk (doc s') = Some (root :: rest').
Proof.
  intros Hstk H Hnot.
  destruct tok as [t|onetime| | |n|b]; simpl in H.
  - unfold processString, topElement in H. rewrite Hstk in H.
    cbn [bind] in H.
    destruct (slice_last (root :: rest)) as [top|] eqn:Htop; [|discriminate].
    destruct (String.length t =? 0)%nat; [injection H as <-; eauto|].
    destruct (isOpeningTag t && starts).
    + destruct (failsSyntaxCheck (data_S top) t) as [[|]|]; cbn [bind] in H;
        try discriminate; injection H as <-; open_engine; rewrite Hstk;
        unfold push; simpl; eauto.
    + destruct (negb (isOpeningTag t) && ends) eqn:Hclose;
        [|injection H as <-; eauto].
      destruct (String.eqb_spec (data_S top) (slice1 t)) as [Heq|Hneq];
        simpl in H; injection H as <-.
      * open_engine. rewrite Hstk. destruct rest as [|r rest].
        -- exfalso. apply Hnot; [reflexivity|].
           injection Htop as <-.
           apply andb_prop in Hclose. destruct Hclose as [Hopen _].
           destruct t as [|c t']; [discriminate|]. simpl in Hopen, Heq.
           destruct (Ascii.eqb_spec c "/"%char); [|discriminate].
           subst. reflexivity.
        -- unfold pop. simpl. eauto.
      * open_engine. eauto.
  - destruct (processObject_stack _ _ _ _ _ _ Hstk H) as (k & Hk & Hs').
    rewrite Hs'. simpl List.length in *.
    replace (Datatypes.S (List.length rest) - k)
      with (Datatypes.S (List.length rest - k)) by lia.
    simpl. eauto.
  - destruct ends; [discriminate|injection H as <-; eauto].
  - discriminate.
  - injection H as <-. open_engine. eauto.
  - injection H as <-. open_engine. eauto.
Qed.

Lemma processTags_fifo (starts ends : bool) (tags : list TagToken) :
  forall (itag : nat) (s s' : engine) (l : list StructElem),
    stk (doc s) = Some l ->
    processTags starts ends itag tags s = Ok s' ->
    closingsFifo s' = closingsFifo s ++ pop_order starts ends itag tags s.
Proof.
  induction tags as [|tok tags IH]; intros itag s s' l Hstk; simpl.
  - intros [= <-]. rewrite app_nil_r. reflexivity.
  - destruct (processTag starts ends itag tok s) as [s1|] eqn:E; [|discriminate].
    simpl. intros H.
    destruct (processTag_fifo _ _ _ _ _ _ _ Hstk E) as [Hstk1 Hfifo].
    rewrite (IH _ _ _ _ Hstk1 H), Hfifo, (stack_stk _ _ Hstk), app_assoc.
    reflexivity.
Qed.

Lemma ensureRoot_stk (d : pdfKitDoc) : exists l, stk (ensureRoot d) = Some l.
Proof.
  unfold ensureRoot. destruct (stk d) eqn:E; [eauto|]. simpl. eauto.
Qed.

Lemma ends_of_app (a b : list call) : ends_of (a ++ b) = ends_of a ++ ends_of b.
Proof. apply flat_map_app. Qed.

Lemma ends_of_quiet (cs : list call) : forallb quiet cs = true -> ends_of cs = [].
Proof.
  induction cs as [|c cs IH]; [reflexivity|]. simpl.
  intros H. apply andb_prop in H. destruct H as [Hc Hcs].
  rewrite (IH Hcs). destruct c; try reflexivity; discriminate.
Qed.

Lemma ends_of_map_ElemEnd (l : list StructElem) : ends_of (map ElemEnd l) = l.
Proof. induction l as [|e l IH]; [reflexivity|]. simpl. now rewrite IH. Qed.

Section RendererFacts.
Context {ext : Collaborators}.

Lemma extends_processLineTags (line : Line.t) (d : pdfKitDoc) (s : engine)
  (tags' : option (list TagToken)) :
  processLineTags line d = Ok (s, tags') -> extends d (doc s).
Proof.
  unfold processLineTags.
  destruct (Line.tags line) as [[|t ts]|]; try (intros [= <- _]; apply extends_refl).
  destruct (startsNode line || endsNode line); [|intros [= <- _]; apply extends_refl].
  match goal with |- context [processTags ?a ?b ?c ?e ?f] =>
    destruct (processTags a b c e f) as [s1|] eqn:E end; [|discriminate].
  simpl. intros [= <- _]. apply extends_processTags in E. simpl in E.
  eapply extends_trans; [apply extends_ensureRoot|exact E].
Qed.

(** The queue that the tag block leaves is the pop order of the line. *)
Lemma processLineTags_fifo (line : Line.t) (d : pdfKitDoc) (s : engine)
  (tags' : option (list TagToken)) :
  processLineTags line d = Ok (s, tags') ->
  closingsFifo s = linePopOrder line d.
Proof.
  unfold processLineTags, linePopOrder.
  destruct (Line.tags line) as [[|t ts]|]; try (intros [= <- _]; reflexivity).
  destruct (startsNode line || endsNode line); [|intros [= <- _]; reflexivity].
  match goal with |- context [processTags ?a ?b ?c ?e ?f] =>
    destruct (processTags a b c e f) as [s1|] eqn:E end; [|discriminate].
  simpl. intros [= <- _].
  destruct (ensureRoot_stk d) as [l Hl].
  apply processTags_fifo with (l := l) in E; [|exact Hl]. exact E.
Qed.

Lemma extends_drawInlines (lineHeight descent x y : Q)
  (inlines : list Inline.t) :
  forall (d : pdfKitDoc) (inlines' : list Inline.t) (d' : pdfKitDoc),
    drawInlines lineHeight descent x y inlines d = Ok (inlines', d') ->
    extends d d'.
Proof.
  induction inlines as [|i inlines IH]; intros d inlines' d'; simpl.
  - intros [= _ <-]. apply extends_refl.
  - match goal with |- context [bind ?r _] => destruct r as [i'|] end;
      [|discriminate].
    simpl.
    match goal with |- context [drawInlines ?a ?b ?c ?e ?f ?g] =>
      destruct (drawInlines a b c e f g) as [[rest' d2]|] eqn:E end;
      [|discriminate].
    simpl. intros [= _ <-]. apply IH in E.
    eapply extends_trans; [|exact E]. apply extends_log. reflexivity.
Qed.

Lemma endAll_calls (fifo : list StructElem) :
  forall d : pdfKitDoc,
    calls (endAll fifo d) = calls d ++ map ElemEnd fifo /\
    options_size (endAll fifo d) = options_size d.
Proof.
  induction fifo as [|e fifo IH]; intros d; simpl.
  - rewrite app_nil_r. auto.
  - destruct (IH (log (ElemEnd e) d)) as [C O]. rewrite C, O. simpl.
    rewrite <- app_assoc. auto.
Qed.

Lemma closeNode_calls (structContent : option StructContent)
  (lastOpened : option StructElem) (fifo : list StructElem) (d : pdfKitDoc) :
  exists q,
    forallb quiet q = true /\
    calls (closeNode structContent lastOpened fifo d)
      = calls d ++ q ++ map ElemEnd fifo /\
    options_size (closeNode structContent lastOpened fifo d) = options_size d.
Proof.
  unfold closeNode.
  destruct structContent as [c|]; [destruct lastOpened as [e|]|];
    match goal with |- context [endAll fifo ?d0] =>
      destruct (endAll_calls fifo d0) as [C O]; rewrite C, O end; simpl.
  - exists [ElemAddContent e c; EndMarkedContent].
    rewrite <- !app_assoc. auto.
  - exists [EndMarkedContent]. rewrite <- !app_assoc. auto.
  - exists []. auto.
Qed.

(** What a line that renders to the end adds to the log: quiet calls, then
    the end of every element of the queue if the line has [endsNode]. *)
Lemma renderLine_calls (line : Line.t) (x y : option Q) (d : pdfKitDoc)
  (line' : Line.t) (d' : pdfKitDoc) :
  renderLine line x y d = Ok (line', d') ->
  exists s tags' q,
    processLineTags line (log DrawBackground d) = Ok (s, tags') /\
    options_size d' = options_size d /\
    forallb quiet q = true /\
    calls d' = calls d ++ q
               ++ (if endsNode line then map ElemEnd (closingsFifo s) else []).
Proof.
  unfold renderLine.
  destruct (prepareLineRef line) as [inlines0|]; [|discriminate]. simpl.
  destruct (processLineTags line (log DrawBackground d)) as [[s tags']|] eqn:E;
    [|discriminate].
  simpl. apply extends_processLineTags in E.
  assert (E0 : extends d (doc s)).
  { apply (extends_trans _ (log DrawBackground d));
      [apply extends_log; reflexivity|exact E]. }
  clear E.
  set (marked := if startsNode line then _ else _).
  assert (E1 : extends d (snd marked)).
  { unfold marked. destruct (startsNode line); [|exact E0].
    destruct (lastOpenedStructTag s); [|exact E0].
    eapply extends_trans; [exact E0|]. simpl. by_log. }
  destruct marked as [structContent d1]. simpl in E1.
  match goal with |- context [drawInlines ?a ?b ?c ?e ?f ?g] =>
    destruct (drawInlines a b c e f g) as [[inlines' d2]|] eqn:E2 end;
    [|discriminate].
  simpl. apply extends_drawInlines in E2.
  assert (E3 : extends d (log DrawDecorations d2)).
  { apply (extends_trans _ d1); [exact E1|].
    apply (extends_trans _ d2); [exact E2|].
    apply extends_log. reflexivity. }
  destruct E3 as [O (q & C & Hq)].
  intros [= _ <-]. exists s, tags'.
  destruct (endsNode line).
  - match goal with |- context [closeNode ?a ?b ?c ?e] =>
      destruct (closeNode_calls a b c e) as (q' & Hq' & C' & O') end.
    exists (q ++ q'). split; [reflexivity|]. split; [congruence|].
    split; [rewrite forallb_app, Hq, Hq'; reflexivity|].
    rewrite C', C, <- !app_assoc. reflexivity.
  - exists q. split; [reflexivity|]. split; [exact O|]. split; [exact Hq|].
    rewrite app_nil_r. exact C.
Qed.

(** C4: a line with [endsNode] that renders to the end ends the elements
    of its pending-closure queue, all of them, in the order in which the
    tag loop popped them off the stack (the top first), whatever became of
    the content span. *)
Theorem closures_in_pop_order (line : Line.t) (x y : option Q)
  (d : pdfKitDoc) (line' : Line.t) (d' : pdfKitDoc) :
  endsNode line = true ->
  renderLine line x y d = Ok (line', d') ->
  exists s tags',
    processLineTags line (log DrawBackground d) = Ok (s, tags') /\
    closingsFifo s = linePopOrder line (log DrawBackground d) /\
    ends_of (calls d') = ends_of (calls d) ++ closingsFifo s.
Proof.
  intros Hends H.
  destruct (renderLine_calls _ _ _ _ _ _ H) as (s & tags' & q & E & _ & Hq & C).
  exists s, tags'. split; [exact E|]. split.
  - eapply processLineTags_fifo; exact E.
  - rewrite C, Hends, !ends_of_app, (ends_of_quiet _ Hq), ends_of_map_ElemEnd.
    reflexivity.
Qed.

End RendererFacts.

(** ** Deferred page numbers *)

Section ResolverFacts.
Context {ext : Collaborators}.

(** C6: a page-number reference that resolves gives the inline the page
    number as text and the width [newWidth] measured with the inline's own
    font and size; with [d = oldWidth - newWidth] its [x] grows by [d] when
    the alignment is ['right'], by [d / 2] when it is ['center'], and stays
    otherwise.  From width 50 to width 30 that is [x + 20], [x + 10] and
    [x]. *)
Theorem page_ref_keeps_anchor (r : PageNodeRef) (p : Position)
  (ps : list Position) (i : Inline.t) :
  positions r = Some (p :: ps) ->
  let newWidth :=
    widthOfString (toString (pageNumber p)) (Inline.font i) (Inline.fontSize i)
      (Inline.characterSpacing i) (Inline.fontFeatures i) in
  let d := (Inline.width i - newWidth)%Q in
  exists i',
    preparePageNodeRefLine r (Some i) = Ok i' /\
    Inline.text i' = toString (pageNumber p) /\
    Inline.width i' = newWidth /\
    (Inline.alignment i = Some "right" -> Inline.x i' = (Inline.x i + d)%Q) /\
    (Inline.alignment i = Some "center" ->
     Inline.x i' = (Inline.x i + d / 2)%Q) /\
    (Inline.alignment i <> Some "right" ->
     Inline.alignment i <> Some "center" -> Inline.x i' = Inline.x i) /\
    ((Inline.width i == 50)%Q -> (newWidth == 30)%Q ->
     (Inline.alignment i = Some "right" ->
      (Inline.x i' == Inline.x i + 20)%Q) /\
     (Inline.alignment i = Some "center" ->
      (Inline.x i' == Inline.x i + 10)%Q) /\
     (Inline.alignment i = Some "left" \/ Inline.alignment i = None ->
      Inline.x i' = Inline.x i)).
Proof.
  intros Hpos newWidth d. unfold preparePageNodeRefLine. rewrite Hpos.
  fold newWidth. fold d. eexists. split; [reflexivity|]. cbn [Inline.text Inline.width Inline.x].
  split; [reflexivity|]. split; [reflexivity|].
  assert (Hright : Inline.alignment i = Some "right" ->
                   match Inline.alignment i with
                   | Some a =>
                       if (a =? "right")%string then (Inline.x i + d)%Q
                       else if (a =? "center")%string
                            then (Inline.x i + d / 2)%Q else Inline.x i
                   | None => Inline.x i
                   end = (Inline.x i + d)%Q)
    by (intros ->; reflexivity).
  assert (Hcenter : Inline.alignment i = Some "center" ->
                    match Inline.alignment i with
                    | Some a =>
                        if (a =? "right")%string then (Inline.x i + d)%Q
                        else if (a =? "center")%string
                             then (Inline.x i + d / 2)%Q else Inline.x i
                    | None => Inline.x i
                    end = (Inline.x i + d / 2)%Q)
    by (intros ->; reflexivity).
  assert (Hother : Inline.alignment i <> Some "right" ->
                   Inline.alignment i <> Some "center" ->
                   match Inline.alignment i with
                   | Some a =>
                       if (a =? "right")%string then (Inline.x i + d)%Q
                       else if (a =? "center")%string
                            then (Inline.x i + d / 2)%Q else Inline.x i
                   | None => Inline.x i
                   end = Inline.x i).
  { destruct (Inline.alignment i) as [a|]; [|reflexivity]. intros H1 H2.
    destruct (String.eqb_spec a "right"); [congruence|].
    destruct (String.eqb_spec a "center"); [congruence|]. reflexivity. }
  repeat split; auto.
  - intros A. rewrite (Hright A). unfold d. rewrite H, H0. ring.
  - intros A. rewrite (Hcenter A). unfold d. rewrite H, H0. field.
  - intros [A|A]; apply Hother; rewrite A; discriminate.
Qed.

End ResolverFacts.

Lemma page_ref_keeps_anchor_witness :
  exists i',
    preparePageNodeRefLine (ext := plainCollaborators) (pageRef 7)
      (Some wideInline) = Ok i' /\
    Inline.text i' = "7" /\
    (Inline.x i' == 100 + 20)%Q.
Proof.
  destruct (page_ref_keeps_anchor (ext := plainCollaborators) (pageRef 7)
              {| pageNumber := 7 |} [] wideInline eq_refl)
    as (i' & E & T & _ & _ & _ & _ & H).
  exists i'. split; [exact E|]. split; [exact T|].
  apply H; [vm_compute; reflexivity|vm_compute; reflexivity|reflexivity].
Defined.

(** ** The node flags *)

Lemma bind_assoc {A B C} (r : result A) (f : A -> result B)
  (g : B -> result C) :
  bind (bind r f) g = bind r (fun a => bind (f a) g).
Proof. destruct r; reflexivity. Qed.

Lemma bind_ext {A B} (r : result A) (f g : A -> result B) :
  (forall a, f a = g a) -> bind r f = bind r g.
Proof. intros H. destruct r; [apply H|reflexivity]. Qed.

(** Two runs that differ in what they return at the end only. *)
Ltac same_run :=
  repeat first
    [ reflexivity
    | rewrite bind_assoc
    | apply bind_ext; intros
    | progress cbn [bind]
    | match goal with
      | |- context [let (_, _) := ?p in _] => destruct p
      | |- context [match ?o with Some _ => _ | None => _ end] => destruct o
      | |- context [if ?b then _ else _] => destruct b
      end ].

(** ** The calls a line adds, by its flags *)

Lemma adds_refl (P : call -> Prop) (d : pdfKitDoc) : adds P d d.
Proof. exists []. rewrite app_nil_r. auto. Qed.

Lemma adds_trans (P : call -> Prop) (d1 d2 d3 : pdfKitDoc) :
  adds P d1 d2 -> adds P d2 d3 -> adds P d1 d3.
Proof.
  intros (e1 & C1 & F1) (e2 & C2 & F2). exists (e1 ++ e2).
  rewrite C2, C1, <- app_assoc. split; [reflexivity|].
  apply Forall_app. auto.
Qed.

Lemma adds_log (P : call -> Prop) (c : call) (d : pdfKitDoc) :
  P c -> adds P d (log c d).
Proof. intros H. exists [c]. simpl. auto. Qed.

Lemma adds_same (P : call -> Prop) (d d' : pdfKitDoc) :
  calls d' = calls d -> adds P d d'.
Proof. intros H. exists []. rewrite app_nil_r. auto. Qed.

Lemma pop_loop_calls (pops : nat) :
  forall s : engine, calls (doc (pop_loop pops s)) = calls (doc s).
Proof.
  induction pops as [|j IH]; intros s; simpl; [reflexivity|].
  destruct (slice_last (stack s)); [|reflexivity].
  rewrite IH. reflexivity.
Qed.

(** One turn of the tag loop logs warnings, and a [struct] and an [add]
    when it opens an element, which it does on a line with [startsNode]
    only. *)
Lemma processTag_adds (P : call -> Prop) (starts ends : bool) (itag : nat)
  (tok : TagToken) (s s' : engine) :
  (forall w, P (ConsoleLog w)) ->
  (starts = true -> forall e, P (Struct e)) ->
  (starts = true -> forall p c, P (ElemAdd p c)) ->
  processTag starts ends itag tok s = Ok s' -> adds P (doc s) (doc s').
Proof.
  intros Hw Hs Ha.
  destruct tok as [t|onetime| | |n|b]; simpl.
  - unfold processString, topElement.
    destruct (stk (doc s)) as [l|]; [|discriminate]. simpl.
    destruct (slice_last l) as [top|]; [|discriminate].
    destruct (String.length t =? 0)%nat; [intros [= <-]; apply adds_refl|].
    destruct (isOpeningTag t && starts) eqn:Hopen.
    + apply andb_prop in Hopen. destruct Hopen as [_ ->].
      destruct (failsSyntaxCheck (data_S top) t) as [[|]|]; simpl;
        try discriminate; intros [= <-]; eexists; simpl;
        (split; [rewrite <- ?app_assoc; reflexivity|]);
        repeat constructor; auto.
    + destruct (negb (isOpeningTag t) && ends); [|intros [= <-]; apply adds_refl].
      destruct (negb (data_S top =? slice1 t)%string); intros [= <-].
      * apply adds_log. apply Hw.
      * apply adds_same. reflexivity.
  - unfold processObject. destruct ends; [|intros [= <-]; apply adds_refl].
    destruct (stk (doc s)) as [l|]; [|discriminate].
    match goal with |- context [if ?c then _ else _] => destruct c end;
      intros [= <-].
    + eexists. rewrite pop_loop_calls. simpl. split; [reflexivity|].
      repeat constructor. apply Hw.
    + apply adds_same. rewrite pop_loop_calls. reflexivity.
  - destruct ends; [discriminate|intros [= <-]; apply adds_refl].
  - discriminate.
  - intros [= <-]. apply adds_log. apply Hw.
  - intros [= <-]. apply adds_log. apply Hw.
Qed.

Lemma processTags_adds (P : call -> Prop) (starts ends : bool)
  (tags : list TagToken) :
  (forall w, P (ConsoleLog w)) ->
  (starts = true -> forall e, P (Struct e)) ->
  (starts = true -> forall p c, P (ElemAdd p c)) ->
  forall (itag : nat) (s s' : engine),
    processTags starts ends itag tags s = Ok s' -> adds P (doc s) (doc s').
Proof.
  intros Hw Hs Ha.
  induction tags as [|tok tags IH]; intros itag s s'; simpl.
  - intros [= <-]. apply adds_refl.
  - destruct (processTag starts ends itag tok s) as [s1|] eqn:E; [|discriminate].
    simpl. intros H. eapply adds_trans.
    + eapply processTag_adds; eassumption.
    + eapply IH; eassumption.
Qed.

Section AddedCalls.
Context {ext : Collaborators}.

Lemma processLineTags_adds (line : Line.t) (d0 d : pdfKitDoc) (s : engine)
  (tags' : option (list TagToken)) :
  stk d = stk d0 ->
  processLineTags line d = Ok (s, tags') ->
  adds (permitted line d0) d (doc s).
Proof.
  intros Hstk. unfold processLineTags.
  destruct (Line.tags line) as [[|t ts]|] eqn:Htags;
    try (intros [= <- _]; apply adds_refl).
  destruct (startsNode line || endsNode line) eqn:F;
    [|intros [= <- _]; apply adds_refl].
  assert (T : tagged line = true) by (unfold tagged; rewrite Htags; exact F).
  match goal with |- context [processTags ?a ?b ?c ?e ?f] =>
    destruct (processTags a b c e f) as [s1|] eqn:E end; [|discriminate].
  simpl. intros [= <- _].
  apply (processTags_adds (permitted line d0)) in E; simpl; auto.
  eapply adds_trans; [|exact E]. simpl.
  unfold ensureRoot. destruct (stk d) eqn:Hd; [apply adds_refl|].
  eexists. simpl. split; [rewrite <- app_assoc; reflexivity|].
  repeat constructor; simpl; auto; rewrite <- Hstk; auto.
Qed.

Lemma drawInlines_adds (P : call -> Prop) (lineHeight descent x y : Q)
  (inlines : list Inline.t) :
  (forall t a b, P (Text t a b)) ->
  forall (d : pdfKitDoc) (inlines' : list Inline.t) (d' : pdfKitDoc),
    drawInlines lineHeight descent x y inlines d = Ok (inlines', d') ->
    adds P d d'.
Proof.
  intros HP.
  induction inlines as [|i inlines IH]; intros d inlines' d'; simpl.
  - intros [= _ <-]. apply adds_refl.
  - match goal with |- context [bind ?r _] => destruct r as [i'|] end;
      [|discriminate].
    simpl.
    match goal with |- context [drawInlines ?a ?b ?c ?e ?f ?g] =>
      destruct (drawInlines a b c e f g) as [[rest' d2]|] eqn:E end;
      [|discriminate].
    simpl. intros [= _ <-]. apply IH in E.
    eapply adds_trans; [|exact E]. apply adds_log. apply HP.
Qed.

Lemma endAll_adds (P : call -> Prop) (fifo : list StructElem) :
  (forall e, P (ElemEnd e)) ->
  forall d : pdfKitDoc, adds P d (endAll fifo d).
Proof.
  intros HP. induction fifo as [|e fifo IH]; intros d; simpl.
  - apply adds_refl.
  - eapply adds_trans; [|apply IH]. apply adds_log. apply HP.
Qed.

(** The calls of a rendered line come after those made before it, and
    each is one its flags and tags allow. *)
Lemma renderLine_adds (line : Line.t) (x y : option Q) (d : pdfKitDoc)
  (line' : Line.t) (d' : pdfKitDoc) :
  renderLine line x y d = Ok (line', d') -> adds (permitted line d) d d'.
Proof.
  unfold renderLine.
  destruct (prepareLineRef line) as [inlines0|]; [|discriminate]. simpl.
  destruct (processLineTags line (log DrawBackground d)) as [[s tags']|] eqn:E;
    [|discriminate].
  simpl.
  assert (T : lastOpenedStructTag s <> None -> tagged line = true).
  { unfold processLineTags, tagged in *.
    destruct (Line.tags line) as [[|t ts]|];
      try (injection E as <- _; simpl; congruence).
    destruct (startsNode line || endsNode line);
      [reflexivity|injection E as <- _; simpl; congruence]. }
  apply (processLineTags_adds line d) in E; [|reflexivity].
  assert (E0 : adds (permitted line d) d (doc s)).
  { apply (adds_trans _ _ (log DrawBackground d)); [|exact E].
    apply adds_log. exact I. }
  clear E.
  set (marked := if startsNode line then _ else _).
  assert (E1 : adds (permitted line d) d (snd marked)).
  { unfold marked. destruct (startsNode line) eqn:S; [|exact E0].
    destruct (lastOpenedStructTag s) eqn:L; [|exact E0].
    eapply adds_trans; [exact E0|]. simpl.
    eexists. simpl. split; [reflexivity|]. repeat constructor; simpl; auto.
    apply T. discriminate. }
  destruct marked as [structContent d1]. simpl in E1.
  match goal with |- context [drawInlines ?a ?b ?c ?e ?f ?g] =>
    destruct (drawInlines a b c e f g) as [[inlines' d2]|] eqn:E2 end;
    [|discriminate].
  simpl.
  apply (drawInlines_adds (permitted line d)) in E2; [|intros; exact I].
  assert (E3 : adds (permitted line d) d (log DrawDecorations d2)).
  { apply (adds_trans _ _ d1); [exact E1|].
    apply (adds_trans _ _ d2); [exact E2|].
    apply adds_log. exact I. }
  intros [= _ <-].
  destruct (endsNode line) eqn:En; [|exact E3].
  eapply adds_trans; [exact E3|]. unfold closeNode.
  eapply adds_trans; [|apply endAll_adds; intros; exact En].
  match goal with |- context [match ?a with Some _ => _ | None => _ end] =>
    destruct a as [c|] end;
    [match goal with |- context [match ?a with Some _ => _ | None => _ end] =>
       destruct a as [e|] end|].
  - eexists. simpl. split; [rewrite <- app_assoc; reflexivity|].
    repeat constructor; exact En.
  - apply adds_log. exact En.
  - apply adds_refl.
Qed.

End AddedCalls.

(** C10: [renderLine] asks whether the line has a [startsNode] (an
    [endsNode]) property, not what its value is.  With the value [false]
    the line is rendered as with the value [true], and comes back with
    the flag it came with.  Without the property it is not: a line that
    has no [startsNode] adds no element under a parent and opens no
    content span, and a line that has no [endsNode] ends no element,
    attaches no content and closes no span, whatever its tags.  So the
    line ["text"] tagged [P] with [startsNode: false] opens the element
    and its span, and the line ["more"] tagged [/P] with [endsNode: false]
    attaches the span, closes it and ends the element; the same lines
    without the property only draw. *)
Theorem flags_by_presence {ext : Collaborators} (line : Line.t)
  (x y : option Q) (d : pdfKitDoc) :
  renderLine (withStartsNode (Some false) line) x y d =
    (let* (l, d') := renderLine (withStartsNode (Some true) line) x y d in
     Ok (withStartsNode (Some false) l, d')) /\
  renderLine (withEndsNode (Some false) line) x y d =
    (let* (l, d') := renderLine (withEndsNode (Some true) line) x y d in
     Ok (withEndsNode (Some false) l, d')) /\
  (forall l' d',
     renderLine (withStartsNode None line) x y d = Ok (l', d') ->
     exists added,
       calls d' = calls d ++ added /\ filter isOpening added = []) /\
  (forall l' d',
     renderLine (withEndsNode None line) x y d = Ok (l', d') ->
     exists added,
       calls d' = calls d ++ added /\ filter isClosing added = []) /\
  (exists l1 d1 l2 d2 c added l3 d3,
     renderLine (ext := plainCollaborators)
       (taggedLine "text" [TString "P"] (Some false) None) None None blankDoc
     = Ok (l1, d1) /\
     filter isOpening (calls d1)
     = [ElemAdd (elem 0 "Document") (elem 1 "P"); MarkStructureContent c] /\
     filter isClosing (calls d1) = [] /\
     stk d1 = Some [elem 0 "Document"; elem 1 "P"] /\
     renderLine (ext := plainCollaborators)
       (taggedLine "more" [TString "/P"] None (Some false)) None None d1
     = Ok (l2, d2) /\
     calls d2 = calls d1 ++ added /\
     filter isOpening added = [] /\
     filter isClosing added
     = [ElemAddContent (elem 1 "P") c; EndMarkedContent;
        ElemEnd (elem 1 "P")] /\
     stk d2 = Some [elem 0 "Document"] /\
     renderLine (ext := plainCollaborators)
       (taggedLine "more" [TString "/P"] None None) None None d1
     = Ok (l3, d3) /\
     filter isClosing (calls d3) = [] /\ stk d3 = stk d1) /\
  (exists l0 d0,
     renderLine (ext := plainCollaborators)
       (taggedLine "text" [TString "P"] None None) None None blankDoc
     = Ok (l0, d0) /\
     filter isOpening (calls d0) = [] /\ stk d0 = None).
Proof.
  split; [|split; [|split; [|split; [|split]]]].
  - assert (Hp : prepareLineRef (withStartsNode (Some false) line)
                 = prepareLineRef (withStartsNode (Some true) line))
      by reflexivity.
    assert (Ht : forall d0, processLineTags (withStartsNode (Some false) line) d0
                 = processLineTags (withStartsNode (Some true) line) d0)
      by reflexivity.
    unfold renderLine. rewrite Hp, Ht. unfold startsNode, endsNode.
    cbn [withStartsNode Line.inlines Line.tags Line.startsNode Line.endsNode
         Line._pageNodeRef Line.getHeight Line.getAscenderHeight Line.x Line.y
         isSome].
    same_run.
  - assert (Hp : prepareLineRef (withEndsNode (Some false) line)
                 = prepareLineRef (withEndsNode (Some true) line))
      by reflexivity.
    assert (Ht : forall d0, processLineTags (withEndsNode (Some false) line) d0
                 = processLineTags (withEndsNode (Some true) line) d0)
      by reflexivity.
    unfold renderLine. rewrite Hp, Ht. unfold startsNode, endsNode.
    cbn [withEndsNode Line.inlines Line.tags Line.startsNode Line.endsNode
         Line._pageNodeRef Line.getHeight Line.getAscenderHeight Line.x Line.y
         isSome].
    same_run.
  - intros l' d' R. apply renderLine_adds in R.
    destruct R as (added & C & F). exists added. split; [exact C|].
    clear C. induction F as [|c cs Hc _ IH]; [reflexivity|].
    cbn [filter]. rewrite IH.
    destruct c; try reflexivity; simpl in Hc; destruct Hc as [_ Hc];
      discriminate Hc.
  - intros l' d' R. apply renderLine_adds in R.
    destruct R as (added & C & F). exists added. split; [exact C|].
    clear C. induction F as [|c cs Hc _ IH]; [reflexivity|].
    cbn [filter]. rewrite IH.
    destruct c; try reflexivity; simpl in Hc; discriminate Hc.
  - do 8 eexists. split; [vm_compute; reflexivity|].
    split; [reflexivity|]. split; [reflexivity|]. split; [reflexivity|].
    split; [vm_compute; reflexivity|].
    split; [cbn [calls]; rewrite <- (firstn_skipn 8) at 1; reflexivity|].
    split; [reflexivity|]. split; [reflexivity|]. split; [reflexivity|].
    split; [vm_compute; reflexivity|]. split; reflexivity.
  - do 2 eexists. split; [vm_compute; reflexivity|]. split; reflexivity.
Qed.

Lemma flags_by_presence_witness :
  exists l' d' added,
    renderLine (ext := plainCollaborators)
      (withStartsNode None
         (taggedLine "text" [TString "P"] (Some true) (Some true)))
      None None blankDoc
    = Ok (l', d') /\
    calls d' = calls blankDoc ++ added /\ filter isOpening added = [].
Proof.
  assert (R : exists l' d',
             renderLine (ext := plainCollaborators)
               (withStartsNode None
                  (taggedLine "text" [TString "P"] (Some true) (Some true)))
               None None blankDoc
             = Ok (l', d'))
    by (do 2 eexists; vm_compute; reflexivity).
  destruct R as (l' & d' & R). exists l', d'.
  destruct (flags_by_presence (ext := plainCollaborators)
              (taggedLine "text" [TString "P"] (Some true) (Some true))
              None None blankDoc) as (_ & _ & H & _).
  destruct (H l' d' R) as (added & C & F). exists added. auto.
Defined.

(** ** Examples of the tag engine *)

Lemma closures_in_pop_order_witness :
  exists line' d',
    renderLine (ext := plainCollaborators) cellLine None None rowDoc
    = Ok (line', d') /\
    exists s tags',
      processLineTags cellLine (log DrawBackground rowDoc) = Ok (s, tags') /\
      closingsFifo s = linePopOrder cellLine (log DrawBackground rowDoc) /\
      ends_of (calls d') = ends_of (calls rowDoc) ++ closingsFifo s.
Proof.
  do 2 eexists. split; [vm_compute; reflexivity|].
  eapply (closures_in_pop_order (ext := plainCollaborators) cellLine None None
            rowDoc); [reflexivity|vm_compute; reflexivity].
Defined.

Example cellLine_closes_cell_then_row :
  exists line' d',
    renderLine (ext := plainCollaborators) cellLine None None rowDoc
    = Ok (line', d') /\
    ends_of (calls d') = [elem 3 "TD"; elem 2 "TR"] /\
    stk d' = Some [elem 0 "Document"; elem 1 "Table"].
Proof. do 2 eexists. split; [vm_compute; reflexivity|]. split; reflexivity. Qed.

(** C1 at the input that breaks it: the first tagged line of a pass has
    [endsNode] and the tag ["/Document"].  The name matches the root's, so
    the close branch queues the root and pops it: the stack is left empty,
    the root is ended with the line, and the next tag that reads the top
    of the stack throws. *)
Theorem close_tag_pops_root :
  let line := taggedLine "end" [TString "/Document"] None (Some true) in
  let root := elem 0 "Document" in
  stk (ensureRoot blankDoc) = Some [root] /\
  (exists s tags,
     processLineTags line blankDoc = Ok (s, tags) /\
     stk (doc s) = Some [] /\
     closingsFifo s = [root]) /\
  (exists line' d',
     renderLine (ext := plainCollaborators) line None None blankDoc
     = Ok (line', d') /\
     stk d' = Some [] /\
     ends_of (calls d') = [root] /\
     exists e,
       renderLine (ext := plainCollaborators)
         (taggedLine "next" [TString "P"] (Some true) None) None None d'
       = Throw e).
Proof.
  split; [reflexivity|]. split.
  - do 2 eexists. split; [vm_compute; reflexivity|]. split; reflexivity.
  - do 2 eexists. split; [vm_compute; reflexivity|].
    split; [reflexivity|]. split; [reflexivity|].
    eexists. vm_compute. reflexivity.
Qed.

(** ** Margins *)

(** C9, as the code has it: a number goes to the four sides, [[h, v]] to
    left and right [h] and top and bottom [v], [[l, t, r, b]] to the four
    sides in that order; an array of another length throws
    ['Invalid pageMargins definition']; a value that is neither a number
    nor an array is given back as it is. *)
Theorem fixPageMargins_shapes :
  (forall m,
     fixPageMargins (MNumber m)
     = Ok (MObject {| Margins.left := m; Margins.top := m;
                      Margins.right := m; Margins.bottom := m |})) /\
  (forall h v,
     fixPageMargins (MArray [h; v])
     = Ok (MObject {| Margins.left := h; Margins.top := v;
                      Margins.right := h; Margins.bottom := v |})) /\
  (forall l t r b,
     fixPageMargins (MArray [l; t; r; b])
     = Ok (MObject {| Margins.left := l; Margins.top := t;
                      Margins.right := r; Margins.bottom := b |})) /\
  (forall a,
     List.length a <> 2 -> List.length a <> 4 ->
     fixPageMargins (MArray a) = Throw (Thrown "Invalid pageMargins definition")) /\
  (forall o, fixPageMargins (MObject o) = Ok (MObject o)) /\
  (forall s, fixPageMargins (MString s) = Ok (MString s)) /\
  fixPageMargins MUndefined = Ok MUndefined.
Proof.
  repeat split; try reflexivity.
  intros a H2 H4.
  destruct a as [|a0 [|a1 [|a2 [|a3 [|a4 a]]]]]; simpl in *;
    try reflexivity; congruence.
Qed.

Lemma fixPageMargins_shapes_witness :
  fixPageMargins (MArray [10; 20; 30]%Q)
  = Throw (Thrown "Invalid pageMargins definition").
Proof.
  destruct fixPageMargins_shapes as (_ & _ & _ & H & _).
  apply (H [10; 20; 30]%Q); simpl; lia.
Defined.

(** Against C9 as worded: a string and an object are margin values of
    another shape, and [fixPageMargins] fails on neither. *)
Lemma fixPageMargins_counterexample :
  fixPageMargins (MString "wide") = Ok (MString "wide") /\
  fixPageMargins
    (MObject {| Margins.left := 0; Margins.top := 0; Margins.right := 0;
                Margins.bottom := 0 |})
  = Ok (MObject {| Margins.left := 0; Margins.top := 0; Margins.right := 0;
                   Margins.bottom := 0 |}).
Proof. split; reflexivity. Qed.

(** ** Auto height *)

(** The running maximum of the scan. *)
Lemma scan_step_max (b h : Q) :
  (if gt (Some b) (Some h) then Some b else Some h) = Some (Qmax h b).
Proof.
  unfold gt, Qmax, GenericMinMax.gmax.
  destruct (Qle_bool b h) eqn:E; simpl.
  - apply Qle_bool_iff in E. destruct (Qcompare_spec h b) as [Heq|Hlt|Hgt];
      try reflexivity.
    exfalso. apply (Qlt_irrefl h). eapply Qlt_le_trans; eassumption.
  - destruct (Qcompare_spec h b) as [Heq|Hlt|Hgt]; try reflexivity; exfalso;
      assert (Hle : (b <= h)%Q)
        by (first [rewrite Heq; apply Qle_refl | apply Qlt_le_weak; exact Hgt]);
      apply Qle_bool_iff in Hle; congruence.
Qed.

Lemma scanItems_max (items : list Item.t) :
  forall (bottoms : list Q) (h : Q),
    Forall2 (fun item b => getBottomPosition item = Ok (Some b)) items bottoms ->
    scanItems items (Some h) = Ok (Some (fold_left Qmax bottoms h)).
Proof.
  induction items as [|item items IH]; intros bottoms h H; inversion H; subst.
  - reflexivity.
  - cbn [scanItems]. rewrite H2. cbn [bind]. rewrite scan_step_max.
    cbn [fold_left]. apply IH. assumption.
Qed.

Lemma scanPages_max (pages : list Page.t) :
  forall (bottoms : list Q) (h : Q),
    Forall2 (fun item b => getBottomPosition item = Ok (Some b))
      (flat_map Page.items pages) bottoms ->
    scanPages pages (Some h) = Ok (Some (fold_left Qmax bottoms h)).
Proof.
  induction pages as [|page pages IH]; intros bottoms h H; simpl in *.
  - inversion H. reflexivity.
  - apply Forall2_app_inv_l in H. destruct H as (b1 & b2 & H1 & H2 & ->).
    rewrite (scanItems_max _ _ _ H1). cbn [bind]. rewrite fold_left_app.
    apply IH. exact H2.
Qed.

(** With margins that [margins || 40] lets through and whose sides are
    known, and items whose bottoms are numbers, the height is the largest
    bottom, not below the top margin, plus the bottom margin. *)
Lemma calculatePageHeight_max (pages : list Page.t) (margins : MarginValue)
  (fixedMargins : Margins.t) (bottoms : list Q) :
  orForty margins = margins ->
  fixPageMargins margins = Ok (MObject fixedMargins) ->
  Forall2 (fun item b => getBottomPosition item = Ok (Some b))
    (flat_map Page.items pages) bottoms ->
  calculatePageHeight pages margins
  = Ok (Some (fold_left Qmax bottoms (Margins.top fixedMargins)
              + Margins.bottom fixedMargins)%Q).
Proof.
  intros Hor Hfix Hitems. unfold calculatePageHeight.
  rewrite Hor, Hfix. cbn [bind dot_top dot_bottom].
  rewrite (scanPages_max _ _ _ Hitems). reflexivity.
Qed.

(** C7 at the inputs that break it.  With [pageMargins: 0] the margins of
    the document are 0 on every side, yet [margins || 40] takes the 0 for
    a missing value: the three items of the spec's example give 360, as
    they do with margins of 40, and not 320 + 0, which the same margins
    written [[0, 0]] do give; a single item that ends at 15 gives 80 and
    not 15.  And a vector without [y1] and [y2] has the height
    [undefined], not 0: its bottom is [NaN] and the scan passes it by, so
    a rectangle at [y = 500] under margins of 40 gives 80 and not 540. *)
Theorem auto_height_zero_margin :
  fixPageMargins (MNumber 0)
  = Ok (MObject {| Margins.left := 0; Margins.top := 0; Margins.right := 0;
                   Margins.bottom := 0 |}) /\
  calculatePageHeight threeItems (MNumber 40) = Ok (Some 360%Q) /\
  calculatePageHeight threeItems (MNumber 0) = Ok (Some 360%Q) /\
  calculatePageHeight threeItems (MArray [0; 0]%Q) = Ok (Some 320%Q) /\
  calculatePageHeight
    [ {| Page.items := [sized 10 5]; Page.pageSize_orientation := "portrait";
         Page.watermark := false |} ] (MNumber 0)
  = Ok (Some 80%Q) /\
  getItemHeight (rectAt 500) = Ok None /\
  calculatePageHeight
    [ {| Page.items := [rectAt 500]; Page.pageSize_orientation := "portrait";
         Page.watermark := false |} ] (MNumber 40)
  = Ok (Some 80%Q).
Proof. repeat split; vm_compute; reflexivity. Qed.

(** ** Page orientation *)

Lemma pagesAdded_app (a b : list call) :
  pagesAdded (a ++ b) = pagesAdded a ++ pagesAdded b.
Proof. apply flat_map_app. Qed.

Lemma pagesAdded_quiet (cs : list call) :
  forallb quiet cs = true -> pagesAdded cs = [].
Proof.
  induction cs as [|c cs IH]; [reflexivity|]. simpl.
  intros H. apply andb_prop in H. destruct H as [Hc Hcs].
  rewrite (IH Hcs). destruct c; try reflexivity; discriminate.
Qed.

Lemma pagesAdded_ends (l : list StructElem) : pagesAdded (map ElemEnd l) = [].
Proof. induction l as [|e l IH]; [reflexivity|exact IH]. Qed.

Lemma samePages_refl (d : pdfKitDoc) : samePages d d.
Proof. split; reflexivity. Qed.

Lemma samePages_trans (d1 d2 d3 : pdfKitDoc) :
  samePages d1 d2 -> samePages d2 d3 -> samePages d1 d3.
Proof. intros [O1 P1] [O2 P2]. split; congruence. Qed.

Lemma samePages_log (c : call) (d : pdfKitDoc) :
  quiet c = true -> samePages d (log c d).
Proof.
  intros H. split; [reflexivity|]. simpl. rewrite pagesAdded_app. simpl.
  destruct c; try discriminate; simpl; apply app_nil_r.
Qed.

Lemma updatePageOrientationInOptions_size (page : Page.t) (d : pdfKitDoc) :
  options_size (updatePageOrientationInOptions page d)
  = sizeFor page (options_size d) /\
  calls (updatePageOrientationInOptions page d) = calls d.
Proof.
  unfold updatePageOrientationInOptions, sizeFor, impliedOrientation, swapped.
  destruct (Page.pageSize_orientation page =? _)%string; simpl; auto.
Qed.

Section PagesFacts.
Context {ext : Collaborators}.

Lemma samePages_renderLine (line : Line.t) (x y : option Q) (d : pdfKitDoc)
  (line' : Line.t) (d' : pdfKitDoc) :
  renderLine line x y d = Ok (line', d') -> samePages d d'.
Proof.
  intros H.
  destruct (renderLine_calls _ _ _ _ _ _ H) as (s & tags' & q & _ & O & Hq & C).
  split; [exact O|].
  rewrite C, !pagesAdded_app, (pagesAdded_quiet _ Hq).
  destruct (endsNode line); [rewrite pagesAdded_ends|]; simpl;
    rewrite app_nil_r; reflexivity.
Qed.

Lemma samePages_renderItem (item : Item.t) (d : pdfKitDoc) (item' : Item.t)
  (d' : pdfKitDoc) :
  renderItem item d = Ok (item', d') -> samePages d d'.
Proof.
  unfold renderItem.
  destruct (Item.type item =? "line")%string.
  - destruct (Item.item item) as [l| | |]; try discriminate.
    destruct (renderLine l (Line.x l) (Line.y l) d) as [[l' d1]|] eqn:E;
      [|discriminate].
    simpl. intros [= _ <-]. eapply samePages_renderLine; exact E.
  - destruct (Item.type item =? "endClip")%string;
      [intros [= _ <-]; apply samePages_log; reflexivity|].
    destruct (existsb _ _); [|intros [= _ <-]; apply samePages_refl].
    destruct (Item.item item); try discriminate;
      intros [= _ <-]; apply samePages_log; reflexivity.
Qed.

Lemma samePages_renderItems (items : list Item.t) :
  forall (d : pdfKitDoc) (items' : list Item.t) (d' : pdfKitDoc),
    renderItems items d = Ok (items', d') -> samePages d d'.
Proof.
  induction items as [|item items IH]; intros d items' d'; simpl.
  - intros [= _ <-]. apply samePages_refl.
  - destruct (renderItem item d) as [[item1 d1]|] eqn:E1; [|discriminate].
    simpl.
    destruct (renderItems items d1) as [[rest' d2]|] eqn:E2; [|discriminate].
    simpl. intros [= _ <-].
    eapply samePages_trans;
      [eapply samePages_renderItem; exact E1|eapply IH; exact E2].
Qed.

Lemma samePages_renderPageBody (page : Page.t) (d : pdfKitDoc)
  (page' : Page.t) (d' : pdfKitDoc) :
  renderPageBody page d = Ok (page', d') -> samePages d d'.
Proof.
  unfold renderPageBody.
  destruct (renderItems (Page.items page) d) as [[items' d1]|] eqn:E;
    [|discriminate].
  simpl. intros [= _ <-]. apply samePages_renderItems in E.
  destruct (Page.watermark page); [|exact E].
  eapply samePages_trans; [exact E|apply samePages_log; reflexivity].
Qed.

Lemma renderLaterPages_sizes (pages : list Page.t) :
  forall (d : pdfKitDoc) (pages' : list Page.t) (d' : pdfKitDoc),
    renderLaterPages pages d = Ok (pages', d') ->
    pagesAdded (calls d')
    = pagesAdded (calls d) ++ map Some (sizesFor pages (options_size d)).
Proof.
  induction pages as [|page pages IH]; intros d pages' d'; simpl.
  - intros [= _ <-]. rewrite app_nil_r. reflexivity.
  - destruct (updatePageOrientationInOptions_size page d) as [O C].
    match goal with |- context [renderPageBody page ?d1] =>
      destruct (renderPageBody page d1) as [[page1 d2]|] eqn:E1 end;
      [|discriminate].
    simpl.
    destruct (renderLaterPages pages d2) as [[rest' d3]|] eqn:E2; [|discriminate].
    simpl. intros [= _ <-].
    apply samePages_renderPageBody in E1. destruct E1 as [O1 P1].
    simpl in O1, P1.
    rewrite (IH _ _ _ E2), O1, P1, O, C, pagesAdded_app. simpl.
    rewrite <- app_assoc. reflexivity.
Qed.

(** C8: before a page after the first is added, the backend's width and
    height are exchanged if and only if the page's orientation is not the
    one that the backend's size stands for (landscape when the width is
    the larger); [renderPages] adds each later page once, with the size so
    obtained from the size the page before it left; and from a landscape
    size a portrait page exchanges the sides and a landscape page after it
    exchanges them back. *)
Theorem orientation_swap :
  (forall page d,
     (Page.pageSize_orientation page <> impliedOrientation (options_size d) ->
      options_size (updatePageOrientationInOptions page d)
      = (snd (options_size d), fst (options_size d))) /\
     (Page.pageSize_orientation page = impliedOrientation (options_size d) ->
      options_size (updatePageOrientationInOptions page d) = options_size d)) /\
  (forall pages d pages' d',
     renderPages pages d = Ok (pages', d') ->
     pagesAdded (calls d')
     = pagesAdded (calls d)
       ++ None :: map Some (sizesFor (tl pages) (options_size d))) /\
  (forall w h,
     (h < w)%Q ->
     sizesFor [orientedPage "portrait"; orientedPage "landscape"] (w, h)
     = [(h, w); (w, h)]).
Proof.
  split; [|split].
  - intros page d.
    destruct (updatePageOrientationInOptions_size page d) as [O _].
    rewrite O. unfold sizeFor, swapped.
    destruct (String.eqb_spec (Page.pageSize_orientation page)
                (impliedOrientation (options_size d))); split; intros;
      try reflexivity; try contradiction.
  - intros pages d pages' d'. unfold renderPages.
    destruct pages as [|first rest].
    + intros [= _ <-]. simpl. rewrite pagesAdded_app. reflexivity.
    + destruct (renderPageBody first (log (AddPage None) d))
        as [[first' d1]|] eqn:E1; [|discriminate].
      simpl.
      destruct (renderLaterPages rest d1) as [[rest' d2]|] eqn:E2;
        [|discriminate].
      simpl. intros [= _ <-].
      apply samePages_renderPageBody in E1. destruct E1 as [O1 P1].
      simpl in O1, P1.
      rewrite (renderLaterPages_sizes _ _ _ _ E2), O1, P1, pagesAdded_app.
      simpl. rewrite <- app_assoc. reflexivity.
  - intros w h Hlt.
    assert (Hwh : Qle_bool w h = false).
    { destruct (Qle_bool w h) eqn:E; [|reflexivity].
      apply Qle_bool_iff in E. exfalso.
      apply (Qlt_irrefl h). eapply Qlt_le_trans; eassumption. }
    assert (Hhw : Qle_bool h w = true)
      by (apply Qle_bool_iff, Qlt_le_weak; exact Hlt).
    unfold sizesFor, sizeFor, impliedOrientation, swapped. simpl.
    rewrite Hwh. simpl. rewrite Hhw. reflexivity.
Qed.

End PagesFacts.

Lemma orientation_swap_witness :
  exists pages' d',
    renderPages (ext := plainCollaborators) threePages landscapeDoc
    = Ok (pages', d') /\
    pagesAdded (calls d')
    = pagesAdded (calls landscapeDoc)
      ++ None :: map Some (sizesFor (tl threePages) (options_size landscapeDoc)).
Proof.
  do 2 eexists. split; [vm_compute; reflexivity|].
  eapply (proj1 (proj2 (orientation_swap (ext := plainCollaborators)))
            threePages landscapeDoc).
  vm_compute. reflexivity.
Defined.

Example threePages_sizes :
  exists pages' d',
    renderPages (ext := plainCollaborators) threePages landscapeDoc
    = Ok (pages', d') /\
    pagesAdded (calls d')
    = [None; Some (59528 # 100, 84189 # 100)%Q;
       Some (84189 # 100, 59528 # 100)%Q].
Proof. do 2 eexists. split; vm_compute; reflexivity. Qed.

(** * Further properties *)

(** ** The root across lines and pages *)

Lemma processTags_keeps_root (starts ends : bool) (tags : list TagToken) :
  forall (itag : nat) (s s' : engine) (root : StructElem)
         (rest : list StructElem),
    stk (doc s) = Some (root :: rest) ->
    ~ In (TString (String "/" (data_S root))) tags ->
    processTags starts ends itag tags s = Ok s' ->
    exists rest', stk (doc s') = Some (root :: rest').
Proof.
  induction tags as [|tok tags IH]; intros itag s s' root rest Hstk Hnot;
    simpl.
  - intros [= <-]. eauto.
  - destruct (processTag starts ends itag tok s) as [s1|] eqn:E; [|discriminate].
    simpl. intros H.
    destruct (processTag_keeps_root _ _ _ _ _ _ _ _ Hstk E) as [rest1 H1].
    { intros _ ->. apply Hnot. left. reflexivity. }
    eapply IH; [exact H1| |exact H].
    intros Hin. apply Hnot. right. exact Hin.
Qed.

Lemma existsb_isRootClose (ts : list TagToken) :
  existsb isRootClose ts = false -> ~ In (TString "/Document") ts.
Proof.
  intros H Hin.
  assert (Hex : existsb isRootClose ts = true).
  { apply existsb_exists. exists (TString "/Document"). split; [exact Hin|].
    reflexivity. }
  congruence.
Qed.

Section RootFacts.
Context {ext : Collaborators}.

Lemma processLineTags_rooted (line : Line.t) (d : pdfKitDoc) (s : engine)
  (tags' : option (list TagToken)) :
  rooted d -> closesRoot line = false ->
  processLineTags line d = Ok (s, tags') ->
  rooted (doc s) /\
  (forall root rest, stk d = Some (root :: rest) ->
                     exists rest', stk (doc s) = Some (root :: rest')).
Proof.
  intros Hroot Hclose. unfold processLineTags, closesRoot in *.
  destruct (Line.tags line) as [[|t ts]|];
    try (intros [= <- _]; split; [exact Hroot|eauto]).
  destruct (startsNode line || endsNode line);
    [|intros [= <- _]; split; [exact Hroot|eauto]].
  match goal with |- context [processTags ?a ?b ?c ?e ?f] =>
    destruct (processTags a b c e f) as [s1|] eqn:E end; [|discriminate].
  simpl. intros [= <- _].
  apply existsb_isRootClose in Hclose.
  assert (Hens : exists root rest,
             stk (ensureRoot d) = Some (root :: rest) /\
             data_S root = "Document" /\
             (forall r0 rest0, stk d = Some (r0 :: rest0) -> r0 = root)).
  { unfold ensureRoot, rooted in *. destruct (stk d) as [l|] eqn:Hd.
    - destruct Hroot as (root & rest & -> & Hname).
      exists root, rest. rewrite Hd. repeat split; auto. congruence.
    - simpl. eexists. eexists. repeat split. discriminate. }
  destruct Hens as (root & rest & Hstk & Hname & Hsame).
  pose proof (fun H1 H2 => processTags_keeps_root _ _ _ _ _ _ root rest H1 H2 E)
    as K.
  destruct K as [rest' H']; [exact Hstk|rewrite Hname; exact Hclose|].
  split.
  - unfold rooted. rewrite H'. eauto.
  - intros r0 rest0 H0. rewrite (Hsame _ _ H0). eauto.
Qed.

Lemma drawInlines_stk (lineHeight descent x y : Q) (inlines : list Inline.t) :
  forall (d : pdfKitDoc) (inlines' : list Inline.t) (d' : pdfKitDoc),
    drawInlines lineHeight descent x y inlines d = Ok (inlines', d') ->
    stk d' = stk d.
Proof.
  induction inlines as [|i inlines IH]; intros d inlines' d'; simpl.
  - intros [= _ <-]. reflexivity.
  - match goal with |- context [bind ?r _] => destruct r as [i'|] end;
      [|discriminate].
    simpl.
    match goal with |- context [drawInlines ?a ?b ?c ?e ?f ?g] =>
      destruct (drawInlines a b c e f g) as [[rest' d2]|] eqn:E end;
      [|discriminate].
    simpl. intros [= _ <-]. apply IH in E. exact E.
Qed.

Lemma endAll_stk (fifo : list StructElem) :
  forall d : pdfKitDoc, stk (endAll fifo d) = stk d.
Proof.
  induction fifo as [|e fifo IH]; intros d; simpl; [reflexivity|].
  rewrite IH. reflexivity.
Qed.

Lemma closeNode_stk (structContent : option StructContent)
  (lastOpened : option StructElem) (fifo : list StructElem) (d : pdfKitDoc) :
  stk (closeNode structContent lastOpened fifo d) = stk d.
Proof.
  unfold closeNode. rewrite endAll_stk.
  destruct structContent; [destruct lastOpened|]; reflexivity.
Qed.

(** The stack and the tag list that a rendered line leaves are those of
    its tag block. *)
Lemma renderLine_stk (line : Line.t) (x y : option Q) (d : pdfKitDoc)
  (line' : Line.t) (d' : pdfKitDoc) :
  renderLine line x y d = Ok (line', d') ->
  exists s,
    processLineTags line (log DrawBackground d) = Ok (s, Line.tags line') /\
    stk d' = stk (doc s).
Proof.
  unfold renderLine.
  destruct (prepareLineRef line) as [inlines0|]; [|discriminate]. simpl.
  destruct (processLineTags line (log DrawBackground d)) as [[s tags']|] eqn:E;
    [|discriminate].
  simpl.
  set (marked := if startsNode line then _ else _).
  assert (E1 : stk (snd marked) = stk (doc s)).
  { unfold marked. destruct (startsNode line); [|reflexivity].
    destruct (lastOpenedStructTag s); reflexivity. }
  destruct marked as [structContent d1]. simpl in E1.
  match goal with |- context [drawInlines ?a ?b ?c ?e ?f ?g] =>
    destruct (drawInlines a b c e f g) as [[inlines' d2]|] eqn:E2 end;
    [|discriminate].
  simpl. apply drawInlines_stk in E2.
  intros [= <- <-]. exists s. split; [reflexivity|].
  destruct (endsNode line); [rewrite closeNode_stk|]; simpl; congruence.
Qed.

Lemma renderLine_rooted (line : Line.t) (x y : option Q) (d : pdfKitDoc)
  (line' : Line.t) (d' : pdfKitDoc) :
  rooted d -> closesRoot line = false ->
  renderLine line x y d = Ok (line', d') ->
  rooted d' /\
  (forall root rest, stk d = Some (root :: rest) ->
                     exists rest', stk d' = Some (root :: rest')).
Proof.
  intros Hroot Hclose H.
  destruct (renderLine_stk _ _ _ _ _ _ H) as (s & E & Hs).
  destruct (processLineTags_rooted line (log DrawBackground d) _ _ Hroot
              Hclose E) as [R K].
  unfold rooted in *. rewrite Hs. split; [exact R|exact K].
Qed.

End RootFacts.

Lemma sameRoot_stk (d d' : pdfKitDoc) :
  rooted d -> stk d' = stk d -> sameRoot d d'.
Proof.
  intros R E. unfold sameRoot, rooted in *. rewrite E. split; [exact R|eauto].
Qed.

Lemma sameRoot_trans (d1 d2 d3 : pdfKitDoc) :
  sameRoot d1 d2 -> sameRoot d2 d3 -> sameRoot d1 d3.
Proof.
  intros [R1 K1] [R2 K2]. split; [exact R2|].
  intros root rest H. destruct (K1 _ _ H) as [rest1 H1]. eauto.
Qed.

Section RootPass.
Context {ext : Collaborators}.

Lemma renderItem_sameRoot (item : Item.t) (d : pdfKitDoc) (item' : Item.t)
  (d' : pdfKitDoc) :
  rooted d -> itemClosesRoot item = false ->
  renderItem item d = Ok (item', d') -> sameRoot d d'.
Proof.
  intros R C. unfold renderItem, itemClosesRoot in *.
  destruct (Item.type item =? "line")%string.
  - destruct (Item.item item) as [l| | |]; try discriminate.
    destruct (renderLine l (Line.x l) (Line.y l) d) as [[l' d1]|] eqn:E;
      [|discriminate].
    simpl. intros [= _ <-]. exact (renderLine_rooted _ _ _ _ _ _ R C E).
  - destruct (Item.type item =? "endClip")%string;
      [intros [= _ <-]; apply sameRoot_stk; [exact R|reflexivity]|].
    destruct (existsb _ _);
      [|intros [= _ <-]; apply sameRoot_stk; [exact R|reflexivity]].
    destruct (Item.item item); try discriminate;
      intros [= _ <-]; apply sameRoot_stk; try exact R; reflexivity.
Qed.

Lemma renderItems_sameRoot (items : list Item.t) :
  forall (d : pdfKitDoc) (items' : list Item.t) (d' : pdfKitDoc),
    rooted d -> existsb itemClosesRoot items = false ->
    renderItems items d = Ok (items', d') -> sameRoot d d'.
Proof.
  induction items as [|item items IH]; intros d items' d' R C; simpl.
  - intros [= _ <-]. apply sameRoot_stk; [exact R|reflexivity].
  - simpl in C. apply orb_false_elim in C. destruct C as [C1 C2].
    destruct (renderItem item d) as [[item1 d1]|] eqn:E1; [|discriminate].
    simpl.
    destruct (renderItems items d1) as [[rest' d2]|] eqn:E2; [|discriminate].
    simpl. intros [= _ <-].
    pose proof (renderItem_sameRoot _ _ _ _ R C1 E1) as S1.
    eapply sameRoot_trans; [exact S1|].
    eapply IH; [exact (proj1 S1)|exact C2|exact E2].
Qed.

Lemma renderPageBody_sameRoot (page : Page.t) (d : pdfKitDoc) (page' : Page.t)
  (d' : pdfKitDoc) :
  rooted d -> existsb itemClosesRoot (Page.items page) = false ->
  renderPageBody page d = Ok (page', d') -> sameRoot d d'.
Proof.
  intros R C. unfold renderPageBody.
  destruct (renderItems (Page.items page) d) as [[items' d1]|] eqn:E;
    [|discriminate].
  simpl. intros [= _ <-].
  pose proof (renderItems_sameRoot _ _ _ _ R C E) as S1.
  destruct (Page.watermark page); [|exact S1].
  eapply sameRoot_trans; [exact S1|].
  apply sameRoot_stk; [exact (proj1 S1)|reflexivity].
Qed.

Lemma updatePageOrientationInOptions_stk (page : Page.t) (d : pdfKitDoc) :
  stk (updatePageOrientationInOptions page d) = stk d.
Proof.
  unfold updatePageOrientationInOptions.
  destruct (negb _); reflexivity.
Qed.

Lemma renderLaterPages_sameRoot (pages : list Page.t) :
  forall (d : pdfKitDoc) (pages' : list Page.t) (d' : pdfKitDoc),
    rooted d -> pagesCloseRoot pages = false ->
    renderLaterPages pages d = Ok (pages', d') -> sameRoot d d'.
Proof.
  induction pages as [|page pages IH]; intros d pages' d' R C; simpl.
  - intros [= _ <-]. apply sameRoot_stk; [exact R|reflexivity].
  - unfold pagesCloseRoot in C. simpl in C. apply orb_false_elim in C.
    destruct C as [C1 C2].
    assert (S0 : sameRoot d
                   (log (AddPage (Some (options_size
                                          (updatePageOrientationInOptions page d))))
                      (updatePageOrientationInOptions page d))).
    { apply sameRoot_stk; [exact R|].
      simpl. apply updatePageOrientationInOptions_stk. }
    match goal with |- context [renderPageBody page ?d1] =>
      destruct (renderPageBody page d1) as [[page1 d2]|] eqn:E1 end;
      [|discriminate].
    simpl.
    destruct (renderLaterPages pages d2) as [[rest' d3]|] eqn:E2; [|discriminate].
    simpl. intros [= _ <-].
    pose proof (renderPageBody_sameRoot _ _ _ _ (proj1 S0) C1 E1) as S1.
    eapply sameRoot_trans; [exact S0|].
    eapply sameRoot_trans; [exact S1|].
    eapply IH; [exact (proj1 S1)|exact C2|exact E2].
Qed.

(** X1: through a whole pass none of whose lines carries the tag
    ['/Document'], a stack that is still undefined or stands on a
    ['Document'] root comes out undefined or standing on a ['Document']
    root, and on the same root element if it had one. *)
Theorem renderPages_keeps_root (pages : list Page.t) (d : pdfKitDoc)
  (pages' : list Page.t) (d' : pdfKitDoc) :
  rooted d -> pagesCloseRoot pages = false ->
  renderPages pages d = Ok (pages', d') ->
  rooted d' /\
  (forall root rest, stk d = Some (root :: rest) ->
                     exists rest', stk d' = Some (root :: rest')).
Proof.
  intros R C. unfold renderPages.
  assert (S0 : sameRoot d (log (AddPage None) d))
    by (apply sameRoot_stk; [exact R|reflexivity]).
  destruct pages as [|first rest].
  - intros [= _ <-]. exact S0.
  - unfold pagesCloseRoot in C. simpl in C. apply orb_false_elim in C.
    destruct C as [C1 C2].
    destruct (renderPageBody first (log (AddPage None) d))
      as [[first' d1]|] eqn:E1; [|discriminate].
    simpl.
    destruct (renderLaterPages rest d1) as [[rest' d2]|] eqn:E2;
      [|discriminate].
    simpl. intros [= _ <-].
    pose proof (renderPageBody_sameRoot _ _ _ _ (proj1 S0) C1 E1) as S1.
    pose proof (renderLaterPages_sameRoot _ _ _ _ (proj1 S1) C2 E2) as S2.
    exact (sameRoot_trans _ _ _ S0 (sameRoot_trans _ _ _ S1 S2)).
Qed.

End RootPass.

Lemma renderPages_keeps_root_witness :
  exists pages' d',
    renderPages (ext := plainCollaborators) brokenTable blankDoc
    = Ok (pages', d') /\
    rooted d' /\
    (forall root rest, stk blankDoc = Some (root :: rest) ->
                       exists rest', stk d' = Some (root :: rest')).
Proof.
  do 2 eexists. split; [vm_compute; reflexivity|].
  eapply (renderPages_keeps_root (ext := plainCollaborators) brokenTable
            blankDoc); [exact I|reflexivity|vm_compute; reflexivity].
Defined.

Example brokenTable_ends_on_root :
  exists pages' d',
    renderPages (ext := plainCollaborators) brokenTable blankDoc
    = Ok (pages', d') /\
    stk d' = Some [elem 0 "Document"] /\
    ends_of (calls d')
    = [elem 3 "TH"; elem 2 "TR"; elem 1 "Table"; elem 6 "TD"; elem 5 "TR"].
Proof. do 2 eexists. split; [vm_compute; reflexivity|]. split; reflexivity. Qed.

(** ** The onetime tokens leave the tag list *)

Lemma pop_loop_lifo (pops : nat) :
  forall s : engine, lifo (pop_loop pops s) = lifo s.
Proof.
  induction pops as [|j IH]; intros s; simpl; [reflexivity|].
  destruct (slice_last (stack s)); [|reflexivity].
  rewrite IH. reflexivity.
Qed.

Lemma processTag_lifo (starts ends : bool) (itag : nat) (tok : TagToken)
  (s s' : engine) :
  processTag starts ends itag tok s = Ok s' ->
  lifo s' = (if ends && isObjectToken tok then [itag] else []) ++ lifo s.
Proof.
  destruct tok as [t|onetime| | |n|b]; simpl; rewrite ?andb_false_r; simpl.
  - unfold processString, topElement.
    destruct (stk (doc s)) as [l|]; [|discriminate]. simpl.
    destruct (slice_last l) as [top|]; [|discriminate].
    destruct (String.length t =? 0)%nat; [intros [= <-]; reflexivity|].
    destruct (isOpeningTag t && starts).
    + destruct (failsSyntaxCheck (data_S top) t) as [[|]|]; simpl;
        try discriminate; intros [= <-]; reflexivity.
    + destruct (negb (isOpeningTag t) && ends); [|intros [= <-]; reflexivity].
      destruct (negb (data_S top =? slice1 t)%string); intros [= <-];
        reflexivity.
  - unfold processObject. destruct ends; [|intros [= <-]; reflexivity].
    destruct (stk (doc s)) as [l|]; [|discriminate].
    match goal with |- context [if ?c then _ else _] => destruct c end;
      intros [= <-]; rewrite pop_loop_lifo; reflexivity.
  - destruct ends; [discriminate|intros [= <-]; reflexivity].
  - discriminate.
  - intros [= <-]. reflexivity.
  - intros [= <-]. reflexivity.
Qed.

Lemma processTags_lifo (starts ends : bool) (tags : list TagToken) :
  forall (itag : nat) (s s' : engine),
    processTags starts ends itag tags s = Ok s' ->
    lifo s' = (if ends then rev (objectIndices itag tags) else []) ++ lifo s.
Proof.
  induction tags as [|tok tags IH]; intros itag s s'; simpl.
  - intros [= <-]. destruct ends; reflexivity.
  - destruct (processTag starts ends itag tok s) as [s1|] eqn:E; [|discriminate].
    simpl. intros H. rewrite (IH _ _ _ H), (processTag_lifo _ _ _ _ _ _ E).
    destruct ends; simpl; [|reflexivity].
    rewrite rev_app_distr, <- app_assoc.
    destruct (isObjectToken tok); reflexivity.
Qed.

Lemma splice1_middle {A} (pre post : list A) (a : A) :
  splice1 (List.length pre) (pre ++ a :: post) = pre ++ post.
Proof.
  unfold splice1.
  rewrite skipn_app, skipn_all2 by lia.
  replace (Datatypes.S (List.length pre) - List.length pre) with 1 by lia.
  rewrite firstn_app, Nat.sub_diag, firstn_all. simpl.
  rewrite app_nil_r. reflexivity.
Qed.

(** Splicing out the object positions, the last one first, leaves the
    other tokens in their order. *)
Lemma removeOnetimePops_filter (tags : list TagToken) :
  forall pre : list TagToken,
    removeOnetimePops (rev (objectIndices (List.length pre) tags)) (pre ++ tags)
    = pre ++ filter notObjectToken tags.
Proof.
  unfold removeOnetimePops.
  induction tags as [|tok tags IH]; intros pre; simpl; [reflexivity|].
  specialize (IH (pre ++ [tok])).
  rewrite length_app, Nat.add_comm, <- app_assoc in IH. simpl in IH.
  unfold notObjectToken at 1. destruct (isObjectToken tok); simpl.
  - rewrite fold_left_app, IH. simpl.
    rewrite <- app_assoc. simpl. apply splice1_middle.
  - rewrite IH, <- app_assoc. reflexivity.
Qed.

Section TagListFacts.
Context {ext : Collaborators}.

(** X2: the tag list that a rendered line keeps.  On a line with
    [endsNode] every object token is spliced out and the other tokens stay
    in their order; on any other line the list is as it was. *)
Theorem onetime_tokens_removed (line : Line.t) (x y : option Q)
  (d : pdfKitDoc) (line' : Line.t) (d' : pdfKitDoc) :
  renderLine line x y d = Ok (line', d') ->
  Line.tags line' =
  match Line.tags line with
  | Some ts => Some (if endsNode line then filter notObjectToken ts else ts)
  | None => None
  end.
Proof.
  intros H. destruct (renderLine_stk _ _ _ _ _ _ H) as (s & E & _).
  revert E. generalize (Line.tags line'). intros tags'.
  unfold processLineTags.
  destruct (Line.tags line) as [[|t ts]|].
  - intros [= _ <-]. destruct (endsNode line); reflexivity.
  - destruct (startsNode line || endsNode line) eqn:F.
    + match goal with |- context [processTags ?a ?b ?c ?e ?f] =>
        destruct (processTags a b c e f) as [s1|] eqn:E end; [|discriminate].
      simpl. intros [= _ <-]. apply processTags_lifo in E. rewrite E.
      simpl lifo. rewrite app_nil_r. destruct (endsNode line).
      * f_equal. exact (removeOnetimePops_filter (t :: ts) []).
      * reflexivity.
    + intros [= _ <-]. apply orb_false_elim in F. destruct F as [_ ->].
      reflexivity.
  - intros [= _ <-]. reflexivity.
Qed.

End TagListFacts.

Lemma onetime_tokens_removed_witness :
  exists line' d',
    renderLine (ext := plainCollaborators) onetimeLine None None rowDoc
    = Ok (line', d') /\
    Line.tags line' = Some [TString "TR"; TString "TD"].
Proof.
  do 2 eexists. split; [vm_compute; reflexivity|].
  eapply (onetime_tokens_removed (ext := plainCollaborators) onetimeLine None
            None rowDoc).
  vm_compute. reflexivity.
Defined.

(** ** What a line may call *)

Section PermittedFacts.
Context {ext : Collaborators}.

(** X3: what rendering a line may call, by its flags.  Beyond the drawing
    of its background, text and decorations, a line ends elements and
    content spans only if it has [endsNode]; opens elements and content
    spans only if it has [startsNode], the lazily made root apart; and
    makes the root only when the stack is still undefined.  It never adds
    a page. *)
Theorem renderLine_permitted (line : Line.t) (x y : option Q) (d : pdfKitDoc)
  (line' : Line.t) (d' : pdfKitDoc) :
  renderLine line x y d = Ok (line', d') ->
  exists extra, calls d' = calls d ++ extra /\ Forall (permitted line d) extra.
Proof. apply renderLine_adds. Qed.

End PermittedFacts.

Lemma renderLine_permitted_witness :
  exists line' d' extra,
    renderLine (ext := plainCollaborators) cellLine None None rowDoc
    = Ok (line', d') /\
    calls d' = calls rowDoc ++ extra /\
    Forall (permitted cellLine rowDoc) extra.
Proof.
  assert (R : exists line' d',
             renderLine (ext := plainCollaborators) cellLine None None rowDoc
             = Ok (line', d'))
    by (do 2 eexists; vm_compute; reflexivity).
  destruct R as (line' & d' & R). exists line', d'.
  destruct (renderLine_permitted (ext := plainCollaborators) _ _ _ _ _ _ R)
    as (extra & C & F).
  exists extra. auto.
Defined.

(** ** Every element made is open or ended *)

Lemma structs_of_app (a b : list call) :
  structs_of (a ++ b) = structs_of a ++ structs_of b.
Proof. apply flat_map_app. Qed.

(** One turn of the tag loop either opens one element on top of the stack
    or moves some elements, possibly none, from the top of the stack to
    the queue. *)
Lemma processTag_shape (starts ends : bool) (itag : nat) (tok : TagToken)
  (s s' : engine) (l : list StructElem) :
  stk (doc s) = Some l ->
  processTag starts ends itag tok s = Ok s' ->
  (exists e,
     starts = true /\
     stk (doc s') = Some (l ++ [e]) /\
     closingsFifo s' = closingsFifo s /\
     structs_of (calls (doc s')) = structs_of (calls (doc s)) ++ [e]) \/
  (exists base popped,
     l = base ++ popped /\
     (popped <> [] -> ends = true) /\
     stk (doc s') = Some base /\
     closingsFifo s' = closingsFifo s ++ rev popped /\
     structs_of (calls (doc s')) = structs_of (calls (doc s))).
Proof.
  intros Hstk.
  assert (Hsame : exists base popped,
             l = base ++ popped /\ (popped <> [] -> ends = true) /\
             stk (doc s) = Some base /\
             closingsFifo s = closingsFifo s ++ rev popped /\
             structs_of (calls (doc s)) = structs_of (calls (doc s))).
  { exists l, []. rewrite !app_nil_r. repeat split; auto; congruence. }
  assert (Hwarn : forall w, exists base popped,
             l = base ++ popped /\ (popped <> [] -> ends = true) /\
             stk (doc (warn w s)) = Some base /\
             closingsFifo (warn w s) = closingsFifo s ++ rev popped /\
             structs_of (calls (doc (warn w s))) = structs_of (calls (doc s))).
  { intros w. exists l, []. simpl. rewrite structs_of_app, !app_nil_r.
    repeat split; auto; congruence. }
  destruct tok as [t|onetime| | |n|b]; simpl.
  - unfold processString, topElement. rewrite Hstk. simpl.
    destruct (slice_last l) as [top|] eqn:Htop; [|discriminate].
    destruct (String.length t =? 0)%nat; [intros [= <-]; right; exact Hsame|].
    destruct (isOpeningTag t && starts) eqn:Hopen.
    + apply andb_prop in Hopen. destruct Hopen as [_ ->].
      destruct (failsSyntaxCheck (data_S top) t) as [[|]|]; simpl;
        try discriminate; intros [= <-]; left; eexists;
        open_engine; cbn [calls]; rewrite Hstk, !structs_of_app; simpl;
        rewrite ?app_nil_r; repeat split; reflexivity.
    + destruct (negb (isOpeningTag t) && ends) eqn:Hclose;
        [|intros [= <-]; right; exact Hsame].
      apply andb_prop in Hclose. destruct Hclose as [_ ->].
      destruct (negb (data_S top =? slice1 t)%string); intros [= <-]; right.
      * apply Hwarn.
      * exists (pop l), [top]. open_engine. cbn [calls]. rewrite Hstk.
        repeat split; auto. apply (slice_last_inv _ _ Htop).
  - unfold processObject. destruct ends; [|intros [= <-]; right; exact Hsame].
    rewrite Hstk.
    set (pops := match onetime with
                 | Some n => if (n =? 0)%Z then 0%Z else n
                 | None => 0%Z
                 end).
    pose proof (clamp_le pops l) as Hle. simpl in Hle.
    set (k := Z.to_nat (if (pops >? Z.of_nat (List.length l) - 1)%Z
                        then (Z.of_nat (List.length l) - 1)%Z else pops)) in *.
    destruct (pops >? Z.of_nat (List.length l) - 1)%Z; intros [= <-];
      fold k; right;
      exists (firstn (List.length l - k) l), (skipn (List.length l - k) l);
      rewrite pop_loop_firstn with (l := l) by (simpl; auto);
      simpl; rewrite ?structs_of_app, ?app_nil_r, firstn_skipn;
      repeat split; auto.
  - destruct ends; [discriminate|intros [= <-]; right; exact Hsame].
  - discriminate.
  - intros [= <-]. right. apply Hwarn.
  - intros [= <-]. right. apply Hwarn.
Qed.

Lemma processTag_tracked (starts ends : bool) (itag : nat) (tok : TagToken)
  (s s' : engine) (l ended : list StructElem) :
  stk (doc s) = Some l -> tracked s ended ->
  processTag starts ends itag tok s = Ok s' ->
  tracked s' ended /\ stk (doc s') = Some (stack s') /\
  (ends = false -> closingsFifo s' = closingsFifo s).
Proof.
  intros Hstk T H. unfold tracked in *. rewrite (stack_stk _ _ Hstk) in T.
  destruct (processTag_shape _ _ _ _ _ _ _ Hstk H)
    as [(e & _ & S' & F' & C')|(base & popped & -> & Hp & S' & F' & C')];
    rewrite (stack_stk _ _ S'), C', F'.
  - split; [|split; [exact S'|reflexivity]].
    rewrite <- app_assoc.
    apply Permutation_trans with (l' := (l ++ closingsFifo s ++ ended) ++ [e]).
    + apply Permutation_app_tail. exact T.
    + rewrite <- app_assoc. apply Permutation_app_head.
      apply Permutation_app_comm.
  - split; [|split; [exact S'|]].
    + eapply Permutation_trans; [exact T|].
      rewrite <- !app_assoc. apply Permutation_app_head.
      rewrite !app_assoc. apply Permutation_app_tail.
      eapply Permutation_trans; [apply Permutation_app_comm|].
      apply Permutation_app_head. apply Permutation_rev.
    + intros ->. destruct popped as [|p popped]; [simpl; apply app_nil_r|].
      assert (false = true) by (apply Hp; discriminate). discriminate.
Qed.

Lemma processTags_tracked (starts ends : bool) (tags : list TagToken) :
  forall (itag : nat) (s s' : engine) (l ended : list StructElem),
    stk (doc s) = Some l -> tracked s ended ->
    processTags starts ends itag tags s = Ok s' ->
    tracked s' ended /\ stk (doc s') = Some (stack s') /\
    (ends = false -> closingsFifo s' = closingsFifo s).
Proof.
  induction tags as [|tok tags IH]; intros itag s s' l ended Hstk T; simpl.
  - intros [= <-]. rewrite (stack_stk _ _ Hstk). auto.
  - destruct (processTag starts ends itag tok s) as [s1|] eqn:E; [|discriminate].
    simpl. intros H.
    destruct (processTag_tracked _ _ _ _ _ _ _ _ Hstk T E) as (T1 & S1 & F1).
    destruct (IH _ _ _ _ _ S1 T1 H) as (T2 & S2 & F2).
    split; [exact T2|]. split; [exact S2|].
    intros He. rewrite (F2 He), (F1 He). reflexivity.
Qed.

Lemma structs_of_content (cs : list call) :
  Forall contentCall cs -> structs_of cs = [].
Proof.
  induction 1 as [|c cs Hc _ IH]; [reflexivity|].
  simpl. rewrite IH. destruct c; try reflexivity; contradiction.
Qed.

Lemma ends_of_content (cs : list call) :
  Forall contentCall cs -> ends_of cs = [].
Proof.
  induction 1 as [|c cs Hc _ IH]; [reflexivity|].
  simpl. rewrite IH. destruct c; try reflexivity; contradiction.
Qed.

Lemma structs_of_map_ElemEnd (l : list StructElem) :
  structs_of (map ElemEnd l) = [].
Proof. induction l as [|e l IH]; [reflexivity|exact IH]. Qed.

Lemma neutral_refl (d : pdfKitDoc) : neutral d d.
Proof. repeat split. Qed.

Lemma neutral_trans (d1 d2 d3 : pdfKitDoc) :
  neutral d1 d2 -> neutral d2 d3 -> neutral d1 d3.
Proof. intros (A1 & B1 & C1) (A2 & B2 & C2). repeat split; congruence. Qed.

Lemma neutral_log (c : call) (d : pdfKitDoc) :
  structs_of [c] = [] -> ends_of [c] = [] -> neutral d (log c d).
Proof.
  intros Hs He. unfold neutral. simpl.
  rewrite structs_of_app, ends_of_app, Hs, He, !app_nil_r. auto.
Qed.

Lemma wellTracked_neutral (d d' : pdfKitDoc) :
  neutral d d' -> wellTracked d -> wellTracked d'.
Proof.
  intros (A & B & C) W. unfold wellTracked, stackOf in *.
  rewrite A, B, C. exact W.
Qed.

Lemma ensureRoot_tracked (d : pdfKitDoc) :
  wellTracked d ->
  tracked {| doc := ensureRoot d; lastOpenedStructTag := None;
             lastOpenedStructElement := None; closingsFifo := [];
             lifo := [] |} (ends_of (calls d)).
Proof.
  unfold wellTracked, tracked, stackOf, stack, ensureRoot. simpl.
  destruct (stk d) as [l|] eqn:Hd; simpl.
  - rewrite Hd. auto.
  - intros W. rewrite !structs_of_app. simpl. rewrite app_nil_r.
    eapply Permutation_trans; [apply Permutation_app_comm|].
    simpl. apply perm_skip. exact W.
Qed.

Section TrackingFacts.
Context {ext : Collaborators}.

Lemma processLineTags_tracked (line : Line.t) (d : pdfKitDoc) (s : engine)
  (tags' : option (list TagToken)) :
  wellTracked d ->
  processLineTags line d = Ok (s, tags') ->
  Permutation (structs_of (calls (doc s)))
    (stackOf (doc s) ++ closingsFifo s ++ ends_of (calls d)) /\
  (endsNode line = false -> closingsFifo s = []) /\
  ends_of (calls (doc s)) = ends_of (calls d).
Proof.
  intros W H.
  assert (He : ends_of (calls (doc s)) = ends_of (calls d)).
  { destruct (extends_processLineTags _ _ _ _ H) as [_ (q & C & Hq)].
    rewrite C, ends_of_app, (ends_of_quiet _ Hq), app_nil_r. reflexivity. }
  split; [|split; [|exact He]]; revert H; unfold processLineTags;
    (destruct (Line.tags line) as [[|t ts]|];
     try (intros [= <- _]; simpl; auto; exact W));
    (destruct (startsNode line || endsNode line);
     [|intros [= <- _]; simpl; auto; exact W]);
    match goal with |- context [processTags ?a ?b ?c ?e ?f] =>
      destruct (processTags a b c e f) as [s1|] eqn:E end; try discriminate;
    simpl; intros [= <- _];
    destruct (ensureRoot_stk d) as [l Hl];
    pose proof (ensureRoot_tracked d W) as T0;
    destruct (fun H1 => processTags_tracked _ _ _ _ _ _ l _ H1 T0 E)
      as (T1 & _ & F1); try exact Hl.
  - exact T1.
  - intros En. rewrite (F1 En). reflexivity.
Qed.

Lemma closeNode_content (structContent : option StructContent)
  (lastOpened : option StructElem) (fifo : list StructElem) (d : pdfKitDoc) :
  exists q,
    Forall contentCall q /\
    calls (closeNode structContent lastOpened fifo d)
    = calls d ++ q ++ map ElemEnd fifo.
Proof.
  unfold closeNode.
  destruct structContent as [c|]; [destruct lastOpened as [e|]|];
    match goal with |- context [endAll fifo ?d0] =>
      destruct (endAll_calls fifo d0) as [C _]; rewrite C end; simpl.
  - exists [ElemAddContent e c; EndMarkedContent].
    rewrite <- !app_assoc. split; [repeat constructor|reflexivity].
  - exists [EndMarkedContent]. rewrite <- !app_assoc.
    split; [repeat constructor|reflexivity].
  - exists []. split; [constructor|reflexivity].
Qed.

(** A rendered line after its tag block: content calls, then the end of
    the queue if the line has [endsNode]. *)
Lemma renderLine_after_tags (line : Line.t) (x y : option Q) (d : pdfKitDoc)
  (line' : Line.t) (d' : pdfKitDoc) :
  renderLine line x y d = Ok (line', d') ->
  exists s mid,
    processLineTags line (log DrawBackground d) = Ok (s, Line.tags line') /\
    stk d' = stk (doc s) /\
    Forall contentCall mid /\
    calls d' = calls (doc s) ++ mid
               ++ (if endsNode line then map ElemEnd (closingsFifo s) else []).
Proof.
  intros H. destruct (renderLine_stk _ _ _ _ _ _ H) as (s & E & Hs).
  exists s. revert H. unfold renderLine.
  destruct (prepareLineRef line) as [inlines0|]; [|discriminate]. simpl.
  rewrite E. simpl.
  set (marked := if startsNode line then _ else _).
  assert (E1 : adds contentCall (doc s) (snd marked)).
  { unfold marked. destruct (startsNode line); [|apply adds_refl].
    destruct (lastOpenedStructTag s); [|apply adds_refl].
    eexists. simpl. split; [reflexivity|]. repeat constructor. }
  destruct marked as [structContent d1]. simpl in E1.
  match goal with |- context [drawInlines ?a ?b ?c ?e ?f ?g] =>
    destruct (drawInlines a b c e f g) as [[inlines' d2]|] eqn:E2 end;
    [|discriminate].
  simpl.
  apply (drawInlines_adds contentCall) in E2; [|intros; exact I].
  assert (E3 : adds contentCall (doc s) (log DrawDecorations d2)).
  { apply (adds_trans _ _ d1); [exact E1|].
    apply (adds_trans _ _ d2); [exact E2|].
    apply adds_log. exact I. }
  destruct E3 as (m & C & F).
  intros [= _ <-].
  destruct (endsNode line).
  - match goal with |- context [closeNode ?a ?b ?c ?e] =>
      destruct (closeNode_content a b c e) as (q & Fq & Cq) end.
    exists (m ++ q). split; [reflexivity|]. split; [exact Hs|].
    split; [apply Forall_app; auto|].
    rewrite Cq, C, <- !app_assoc. reflexivity.
  - exists m. split; [reflexivity|]. split; [exact Hs|]. split; [exact F|].
    rewrite app_nil_r. exact C.
Qed.

Lemma renderLine_wellTracked (line : Line.t) (x y : option Q) (d : pdfKitDoc)
  (line' : Line.t) (d' : pdfKitDoc) :
  wellTracked d -> renderLine line x y d = Ok (line', d') -> wellTracked d'.
Proof.
  intros W H.
  destruct (renderLine_after_tags _ _ _ _ _ _ H) as (s & mid & E & Hs & F & C).
  assert (W0 : wellTracked (log DrawBackground d)).
  { apply (wellTracked_neutral d); [|exact W]. apply neutral_log; reflexivity. }
  destruct (processLineTags_tracked _ _ _ _ W0 E) as (T & Fe & He).
  assert (Hd : ends_of (calls (log DrawBackground d)) = ends_of (calls d))
    by (simpl; rewrite ends_of_app, app_nil_r; reflexivity).
  rewrite Hd in *.
  unfold wellTracked, stackOf in *. rewrite Hs, C.
  rewrite !structs_of_app, !ends_of_app, (structs_of_content _ F),
    (ends_of_content _ F), He. simpl.
  destruct (endsNode line).
  - rewrite structs_of_map_ElemEnd, ends_of_map_ElemEnd, !app_nil_r.
    eapply Permutation_trans; [exact T|].
    apply Permutation_app_head. apply Permutation_app_comm.
  - rewrite (Fe eq_refl) in T. simpl in *. rewrite !app_nil_r. exact T.
Qed.

Lemma renderItem_wellTracked (item : Item.t) (d : pdfKitDoc) (item' : Item.t)
  (d' : pdfKitDoc) :
  wellTracked d -> renderItem item d = Ok (item', d') -> wellTracked d'.
Proof.
  intros W. unfold renderItem.
  destruct (Item.type item =? "line")%string.
  - destruct (Item.item item) as [l| | |]; try discriminate.
    destruct (renderLine l (Line.x l) (Line.y l) d) as [[l' d1]|] eqn:E;
      [|discriminate].
    simpl. intros [= _ <-]. exact (renderLine_wellTracked _ _ _ _ _ _ W E).
  - destruct (Item.type item =? "endClip")%string;
      [intros [= _ <-];
       apply (wellTracked_neutral d); [apply neutral_log; reflexivity|exact W]|].
    destruct (existsb _ _); [|intros [= _ <-]; exact W].
    destruct (Item.item item); try discriminate; intros [= _ <-];
      (apply (wellTracked_neutral d); [apply neutral_log; reflexivity|exact W]).
Qed.

Lemma renderItems_wellTracked (items : list Item.t) :
  forall (d : pdfKitDoc) (items' : list Item.t) (d' : pdfKitDoc),
    wellTracked d -> renderItems items d = Ok (items', d') -> wellTracked d'.
Proof.
  induction items as [|item items IH]; intros d items' d' W; simpl.
  - intros [= _ <-]. exact W.
  - destruct (renderItem item d) as [[item1 d1]|] eqn:E1; [|discriminate].
    simpl.
    destruct (renderItems items d1) as [[rest' d2]|] eqn:E2; [|discriminate].
    simpl. intros [= _ <-].
    eapply IH; [|exact E2]. eapply renderItem_wellTracked; eassumption.
Qed.

Lemma renderPageBody_wellTracked (page : Page.t) (d : pdfKitDoc)
  (page' : Page.t) (d' : pdfKitDoc) :
  wellTracked d -> renderPageBody page d = Ok (page', d') -> wellTracked d'.
Proof.
  intros W. unfold renderPageBody.
  destruct (renderItems (Page.items page) d) as [[items' d1]|] eqn:E;
    [|discriminate].
  simpl. intros [= _ <-]. apply renderItems_wellTracked in E; [|exact W].
  destruct (Page.watermark page); [|exact E].
  apply (wellTracked_neutral d1); [apply neutral_log; reflexivity|exact E].
Qed.

Lemma renderLaterPages_wellTracked (pages : list Page.t) :
  forall (d : pdfKitDoc) (pages' : list Page.t) (d' : pdfKitDoc),
    wellTracked d -> renderLaterPages pages d = Ok (pages', d') ->
    wellTracked d'.
Proof.
  induction pages as [|page pages IH]; intros d pages' d' W; simpl.
  - intros [= _ <-]. exact W.
  - match goal with |- context [renderPageBody page ?d1] =>
      assert (W1 : wellTracked d1);
      [|destruct (renderPageBody page d1) as [[page1 d2]|] eqn:E1] end;
      [| |discriminate].
    + apply (wellTracked_neutral (updatePageOrientationInOptions page d)).
      * apply neutral_log; reflexivity.
      * apply (wellTracked_neutral d); [|exact W].
        destruct (updatePageOrientationInOptions_size page d) as [_ C].
        unfold neutral. rewrite C, updatePageOrientationInOptions_stk. auto.
    + simpl.
      destruct (renderLaterPages pages d2) as [[rest' d3]|] eqn:E2;
        [|discriminate].
      simpl. intros [= _ <-].
      eapply IH; [|exact E2]. eapply renderPageBody_wellTracked; eassumption.
Qed.

(** X4: a pass loses no structure element.  If, before the pass, the
    elements made are those on the stack and those ended, each once, the
    same holds after it: every element that [struct] returned is still
    open on the stack or has been ended, and none is ended twice. *)
Theorem renderPages_wellTracked (pages : list Page.t) (d : pdfKitDoc)
  (pages' : list Page.t) (d' : pdfKitDoc) :
  wellTracked d -> renderPages pages d = Ok (pages', d') -> wellTracked d'.
Proof.
  intros W. unfold renderPages.
  assert (W0 : wellTracked (log (AddPage None) d))
    by (apply (wellTracked_neutral d); [apply neutral_log; reflexivity|exact W]).
  destruct pages as [|first rest].
  - intros [= _ <-]. exact W0.
  - destruct (renderPageBody first (log (AddPage None) d))
      as [[first' d1]|] eqn:E1; [|discriminate].
    simpl.
    destruct (renderLaterPages rest d1) as [[rest' d2]|] eqn:E2;
      [|discriminate].
    simpl. intros [= _ <-].
    eapply renderLaterPages_wellTracked; [|exact E2].
    eapply renderPageBody_wellTracked; eassumption.
Qed.

End TrackingFacts.

Lemma renderPages_wellTracked_witness :
  exists pages' d',
    renderPages (ext := plainCollaborators) brokenTable blankDoc
    = Ok (pages', d') /\
    wellTracked d'.
Proof.
  do 2 eexists. split; [vm_compute; reflexivity|].
  eapply (renderPages_wellTracked (ext := plainCollaborators) brokenTable
            blankDoc); [apply perm_nil|vm_compute; reflexivity].
Defined.

(** ** The stack by the flags of the line *)

Lemma processTags_grow (starts : bool) (tags : list TagToken) :
  forall (itag : nat) (s s' : engine) (l : list StructElem),
    stk (doc s) = Some l ->
    processTags starts false itag tags s = Ok s' ->
    exists opened, stk (doc s') = Some (l ++ opened).
Proof.
  induction tags as [|tok tags IH]; intros itag s s' l Hstk; simpl.
  - intros [= <-]. exists []. rewrite app_nil_r. exact Hstk.
  - destruct (processTag starts false itag tok s) as [s1|] eqn:E; [|discriminate].
    simpl. intros H.
    destruct (processTag_shape _ _ _ _ _ _ _ Hstk E)
      as [(e & _ & S' & _)|(base & popped & -> & Hp & S' & _)].
    + destruct (IH _ _ _ _ S' H) as [opened Ho].
      exists (e :: opened). rewrite Ho, <- app_assoc. reflexivity.
    + destruct popped as [|p popped].
      * rewrite app_nil_r. eapply IH; eassumption.
      * assert (false = true) by (apply Hp; discriminate). discriminate.
Qed.

Lemma processTags_shrink (ends : bool) (tags : list TagToken) :
  forall (itag : nat) (s s' : engine) (l : list StructElem),
    stk (doc s) = Some l ->
    processTags false ends itag tags s = Ok s' ->
    exists base popped, l = base ++ popped /\ stk (doc s') = Some base.
Proof.
  induction tags as [|tok tags IH]; intros itag s s' l Hstk; simpl.
  - intros [= <-]. exists l, []. rewrite app_nil_r. auto.
  - destruct (processTag false ends itag tok s) as [s1|] eqn:E; [|discriminate].
    simpl. intros H.
    destruct (processTag_shape _ _ _ _ _ _ _ Hstk E)
      as [(e & F & _)|(base & popped & -> & _ & S' & _)]; [discriminate|].
    destruct (IH _ _ _ _ S' H) as (base' & popped' & -> & Hb).
    exists base', (popped' ++ popped). rewrite app_assoc. auto.
Qed.

Section StackFacts.
Context {ext : Collaborators}.

(** X5: on a stack [l], a line without [endsNode] can only push (its
    stack is [l] with elements added on top), and a line without
    [startsNode] can only pop (its stack is a bottom part of [l]). *)
Theorem stack_by_flags (line : Line.t) (x y : option Q) (d : pdfKitDoc)
  (line' : Line.t) (d' : pdfKitDoc) (l : list StructElem) :
  stk d = Some l ->
  renderLine line x y d = Ok (line', d') ->
  (endsNode line = false -> exists opened, stk d' = Some (l ++ opened)) /\
  (startsNode line = false ->
   exists base popped, l = base ++ popped /\ stk d' = Some base).
Proof.
  intros Hstk H. destruct (renderLine_stk _ _ _ _ _ _ H) as (s & E & Hs).
  rewrite Hs. clear H Hs. revert E. generalize (Line.tags line').
  intros tags'. unfold processLineTags.
  assert (Hsame : (endsNode line = false ->
                   exists opened, stk d = Some (l ++ opened)) /\
                  (startsNode line = false ->
                   exists base popped, l = base ++ popped /\ stk d = Some base)).
  { split; intros _.
    - exists []. rewrite app_nil_r. exact Hstk.
    - exists l, []. rewrite app_nil_r. auto. }
  destruct (Line.tags line) as [[|t ts]|]; try (intros [= <- _]; exact Hsame).
  destruct (startsNode line || endsNode line);
    [|intros [= <- _]; exact Hsame].
  match goal with |- context [processTags ?a ?b ?c ?e ?f] =>
    destruct (processTags a b c e f) as [s1|] eqn:E end; [|discriminate].
  simpl. intros [= <- _].
  assert (Hens : stk (ensureRoot (log DrawBackground d)) = Some l)
    by (unfold ensureRoot; simpl; rewrite Hstk; exact Hstk).
  split; intros F; rewrite F in E.
  - eapply (fun H1 => processTags_grow _ _ _ _ _ l H1 E). exact Hens.
  - eapply (fun H1 => processTags_shrink _ _ _ _ _ l H1 E). exact Hens.
Qed.

End StackFacts.

Lemma stack_by_flags_witness :
  exists line' d' opened,
    renderLine (ext := plainCollaborators) openOnly None None rowDoc
    = Ok (line', d') /\
    stk d' = Some (stackOf rowDoc ++ opened).
Proof.
  assert (R : exists line' d',
             renderLine (ext := plainCollaborators) openOnly None None rowDoc
             = Ok (line', d'))
    by (do 2 eexists; vm_compute; reflexivity).
  destruct R as (line' & d' & R).
  destruct (stack_by_flags (ext := plainCollaborators) openOnly None None
              rowDoc line' d' (stackOf rowDoc) eq_refl R) as [G _].
  destruct (G eq_refl) as [opened Ho]. exists line', d', opened. auto.
Defined.

(** ** A line that opens and closes its own element *)

Lemma length_nonempty (name : string) :
  name <> "" -> (String.length name =? 0)%nat = false.
Proof. destruct name; [congruence|reflexivity]. Qed.

Lemma processTags_selfContained (s : engine) (l : list StructElem)
  (top : StructElem) (name : string) (s' : engine) :
  stk (doc s) = Some l -> slice_last l = Some top ->
  name <> "" -> isOpeningTag name = true ->
  processTags true true 0 [TString name; TString (String "/" name)] s = Ok s' ->
  exists e warnings,
    data_S e = name /\ Forall isWarning warnings /\
    stk (doc s') = Some l /\
    closingsFifo s' = closingsFifo s ++ [e] /\
    lastOpenedStructTag s' = Some name /\
    lastOpenedStructElement s' = Some e /\
    calls (doc s') = calls (doc s) ++ warnings ++ [Struct e; ElemAdd top e].
Proof.
  intros Hstk Htop Hne Hopen. cbn [processTags processTag].
  unfold processString at 1, topElement. rewrite Hstk. cbn [bind].
  rewrite Htop, (length_nonempty _ Hne), Hopen. cbn [andb].
  destruct (failsSyntaxCheck (data_S top) name) as [failed|]; [|discriminate].
  cbn [bind].
  set (s0 := if failed then warn (WAccessibility (data_S top) name) s else s).
  set (warnings := if failed
                   then [ConsoleLog (WAccessibility (data_S top) name)]
                   else []).
  assert (Hs0 : stk (doc s0) = Some l /\ closingsFifo s0 = closingsFifo s /\
                calls (doc s0) = calls (doc s) ++ warnings /\
                Forall isWarning warnings).
  { unfold s0, warnings. destruct failed; simpl.
    - repeat split; auto. repeat constructor.
    - rewrite app_nil_r. repeat split; auto. }
  destruct Hs0 as (Hstk0 & Hfifo0 & Hcalls0 & Hwarn).
  clearbody s0 warnings.
  unfold struct. cbn [bind].
  set (e := {| ref := fresh (doc s0); data_S := name |}).
  rewrite (stack_stk _ _ Hstk0).
  unfold processString, topElement. cbn [doc stk set_stk bind].
  rewrite slice_last_push. cbn [String.length Nat.eqb isOpeningTag].
  rewrite Ascii.eqb_refl. cbn [negb andb slice1 data_S e].
  rewrite String.eqb_refl. cbn [negb].
  intros [= <-].
  exists e, warnings.
  split; [reflexivity|]. split; [exact Hwarn|].
  unfold close_top, stack.
  cbn [doc stk set_stk log closingsFifo lastOpenedStructTag
       lastOpenedStructElement calls].
  rewrite pop_push, Hfifo0, Hcalls0, <- !app_assoc.
  repeat split; reflexivity.
Qed.

Section SelfContained.
Context {ext : Collaborators}.

(** X6: a line tagged [[name, '/' + name]] with both flags, on a stack
    whose top is [top].  It makes one element [e] named [name] under
    [top], opens one content span for [name], draws its text, attaches the
    span to [e], closes the span and ends [e]; the stack is afterwards as
    it was before.  A nesting that the policy tables reject changes none
    of this: beside these calls the line only logs warnings. *)
Theorem self_contained_line (line : Line.t) (x y : option Q) (d : pdfKitDoc)
  (line' : Line.t) (d' : pdfKitDoc) (l : list StructElem) (top : StructElem)
  (name : string) :
  stk d = Some l -> slice_last l = Some top ->
  name <> "" -> isOpeningTag name = true ->
  Line.tags line = Some [TString name; TString (String "/" name)] ->
  startsNode line = true -> endsNode line = true ->
  renderLine line x y d = Ok (line', d') ->
  stk d' = Some l /\
  exists e c warnings texts,
    data_S e = name /\ content_tag c = name /\
    Forall isWarning warnings /\ Forall isTextCall texts /\
    calls d' =
      calls d ++ DrawBackground :: warnings
      ++ [Struct e; ElemAdd top e; MarkStructureContent c]
      ++ texts
      ++ [DrawDecorations; ElemAddContent e c; EndMarkedContent; ElemEnd e].
Proof.
  intros Hstk Htop Hne Hopen Htags Hst Hen. unfold renderLine.
  destruct (prepareLineRef line) as [inlines0|]; [|discriminate]. cbn [bind].
  unfold processLineTags. rewrite Htags, Hst, Hen. cbn [orb].
  match goal with |- context [processTags ?a ?b ?c ?e ?f] =>
    destruct (processTags a b c e f) as [s|] eqn:E end; [|discriminate].
  cbn [bind].
  apply processTags_selfContained with (l := l) (top := top) in E;
    [|unfold ensureRoot; simpl; rewrite Hstk; exact Hstk|exact Htop|exact Hne
     |exact Hopen].
  destruct E as (e & warnings & He & Hw & Hs & Hf & Ht & Hl & Hc).
  cbn [with_doc doc closingsFifo app] in Hf, Hc. unfold ensureRoot in Hc.
  cbn [stk log] in Hc. rewrite Hstk in Hc. unfold log in Hc.
  cbn [calls] in Hc.
  rewrite Ht, Hl, Hf. unfold markStructureContent.
  match goal with |- context [drawInlines ?a ?b ?c ?e ?f ?g] =>
    destruct (drawInlines a b c e f g) as [[inlines' d2]|] eqn:E2 end;
    [|discriminate].
  cbn [bind]. intros [= _ <-].
  pose proof (drawInlines_stk _ _ _ _ _ _ _ _ E2) as Hs2.
  apply (drawInlines_adds isTextCall) in E2; [|intros; exact I].
  destruct E2 as (texts & C2 & Ft). cbn [calls] in C2.
  split.
  - rewrite closeNode_stk. cbn [stk log]. rewrite Hs2. exact Hs.
  - exists e, {| mcid := fresh (doc s); content_tag := name |}, warnings, texts.
    split; [exact He|]. split; [reflexivity|]. split; [exact Hw|].
    split; [exact Ft|].
    unfold closeNode. cbn [app endAll calls log].
    rewrite C2, Hc, <- !app_assoc. cbn [app]. reflexivity.
Qed.

End SelfContained.

Lemma self_contained_line_witness :
  exists line' d',
    renderLine (ext := plainCollaborators) (selfContained "P" "text") None
      None rowDoc
    = Ok (line', d') /\
    stk d' = Some (stackOf rowDoc).
Proof.
  assert (R : exists line' d',
             renderLine (ext := plainCollaborators) (selfContained "P" "text")
               None None rowDoc = Ok (line', d'))
    by (do 2 eexists; vm_compute; reflexivity).
  destruct R as (line' & d' & R). exists line', d'. split; [exact R|].
  refine (proj1 (self_contained_line (ext := plainCollaborators)
                   (selfContained "P" "text") None None rowDoc line' d'
                   (stackOf rowDoc) (elem 2 "TR") "P"
                   eq_refl eq_refl _ eq_refl eq_refl eq_refl eq_refl R)).
  discriminate.
Defined.

(** ** Errors that abort a line *)

Section AbortFacts.
Context {ext : Collaborators}.

(** X7: the nesting check reads the policy tables with [in], which also
    finds what an object literal inherits.  Under a parent element named
    like a property of [Object.prototype] (['constructor'], ['toString'],
    ...) an open tag on a line with [startsNode] makes the check throw,
    and the line is not rendered. *)
Theorem inherited_parent_throws (line : Line.t) (x y : option Q)
  (d : pdfKitDoc) (l : list StructElem) (top : StructElem) (t : string)
  (rest : list TagToken) :
  stk d = Some l -> slice_last l = Some top ->
  includes objectPrototypeKeys (data_S top) = true ->
  Line.tags line = Some (TString t :: rest) ->
  t <> "" -> isOpeningTag t = true -> startsNode line = true ->
  exists e, renderLine line x y d = Throw e.
Proof.
  intros Hstk Htop Hkey Htags Hne Hopen Hst. unfold renderLine.
  destruct (prepareLineRef line) as [inlines0|]; [|eexists; reflexivity].
  cbn [bind]. unfold processLineTags. rewrite Htags, Hst. cbn [orb].
  cbn [processTags processTag]. unfold processString at 1, topElement.
  unfold ensureRoot. cbn [with_doc doc stk log]. rewrite Hstk.
  cbn [doc stk log]. rewrite Hstk. cbn [bind].
  rewrite Htop, (length_nonempty _ Hne), Hopen. cbn [andb].
  unfold failsSyntaxCheck. rewrite Hkey. cbn [bind].
  eexists. reflexivity.
Qed.

Lemma prepareLineRef_refs (line : Line.t) (inlines0 : list Inline.t) :
  prepareLineRef line = Ok inlines0 ->
  forall i, In i (Line.inlines line) ->
            exists i0, In i0 inlines0 /\
                       Inline._pageNodeRef i0 = Inline._pageNodeRef i.
Proof.
  unfold prepareLineRef.
  destruct (Line._pageNodeRef line) as [r|]; [|intros [= <-]; eauto].
  destruct (Line.inlines line) as [|i1 rest].
  - intros _ i [].
  - unfold preparePageNodeRefLine.
    destruct (positions r) as [[|p ps]|]; try discriminate.
    cbn [bind]. intros [= <-] i [<-|Hin].
    + eexists. split; [left; reflexivity|reflexivity].
    + exists i. split; [right; exact Hin|reflexivity].
Qed.

Lemma drawInlines_unresolved (lineHeight descent x y : Q)
  (inlines : list Inline.t) (i : Inline.t) (r : PageNodeRef) :
  In i inlines -> Inline._pageNodeRef i = Some r -> positions r = None ->
  forall d, exists e, drawInlines lineHeight descent x y inlines d = Throw e.
Proof.
  intros Hin Href Hpos.
  induction inlines as [|i1 inlines IH]; [destruct Hin|]. intros d.
  cbn [drawInlines]. destruct Hin as [->|Hin].
  - rewrite Href. unfold preparePageNodeRefLine. rewrite Hpos.
    eexists. reflexivity.
  - match goal with |- context [bind ?r0 _] => destruct r0 as [i'|] end;
      [|eexists; reflexivity].
    cbn [bind].
    match goal with |- context [drawInlines ?a ?b ?c ?e ?f ?g] =>
      destruct (IH Hin g) as [e0 E0]; rewrite E0 end.
    eexists. reflexivity.
Qed.

(** X8: a page reference that was never given a position is fatal.  If
    any inline of a line carries a reference whose [positions] is
    undefined, [renderLine] throws, whatever else the line holds. *)
Theorem unresolved_reference_aborts (line : Line.t) (x y : option Q)
  (d : pdfKitDoc) (i : Inline.t) (r : PageNodeRef) :
  In i (Line.inlines line) ->
  Inline._pageNodeRef i = Some r -> positions r = None ->
  exists e, renderLine line x y d = Throw e.
Proof.
  intros Hin Href Hpos. unfold renderLine.
  destruct (prepareLineRef line) as [inlines0|] eqn:E0;
    [|eexists; reflexivity].
  cbn [bind].
  destruct (prepareLineRef_refs _ _ E0 _ Hin) as (i0 & Hin0 & Href0).
  rewrite Href in Href0.
  destruct (processLineTags line (log DrawBackground d)) as [[s tags']|];
    [|eexists; reflexivity].
  cbn [bind].
  set (marked := if startsNode line then _ else _).
  destruct marked as [structContent d1].
  match goal with |- context [drawInlines ?a ?b ?c ?e ?f ?g] =>
    destruct (drawInlines_unresolved a b c e f i0 r Hin0 Href0 Hpos g)
      as [e0 E1]; rewrite E1 end.
  eexists. reflexivity.
Qed.

(** X9: resolving a reference on an inline that the same reference has
    already resolved changes nothing: the text and the width are the
    same, and [x] is the same number. *)
Theorem page_ref_resolved_once (r : PageNodeRef) (i i1 i2 : Inline.t) :
  preparePageNodeRefLine r (Some i) = Ok i1 ->
  preparePageNodeRefLine r (Some i1) = Ok i2 ->
  Inline.text i2 = Inline.text i1 /\
  Inline.width i2 = Inline.width i1 /\
  (Inline.x i2 == Inline.x i1)%Q.
Proof.
  unfold preparePageNodeRefLine.
  destruct (positions r) as [[|p ps]|]; try discriminate.
  intros [= <-]. cbn [Inline.text Inline.font Inline.fontSize
                      Inline.characterSpacing Inline.fontFeatures
                      Inline.width Inline.x Inline.alignment].
  intros [= <-]. cbn [Inline.text Inline.width Inline.x].
  split; [reflexivity|]. split; [reflexivity|].
  set (w := widthOfString _ _ _ _ _).
  destruct (Inline.alignment i) as [a|]; [|reflexivity].
  destruct (a =? "right")%string; [ring|].
  destruct (a =? "center")%string; [field|reflexivity].
Qed.

End AbortFacts.

Lemma inherited_parent_throws_witness :
  exists e,
    renderLine (ext := plainCollaborators)
      (taggedLine "text" [TString "Span"] (Some true) None) None None
      (docOn [elem 0 "Document"; elem 1 "constructor"])
    = Throw e.
Proof.
  apply (inherited_parent_throws (ext := plainCollaborators)
           (taggedLine "text" [TString "Span"] (Some true) None) None None
           (docOn [elem 0 "Document"; elem 1 "constructor"])
           [elem 0 "Document"; elem 1 "constructor"] (elem 1 "constructor")
           "Span" []); try reflexivity.
  discriminate.
Defined.

Lemma unresolved_reference_aborts_witness :
  exists e,
    renderLine (ext := plainCollaborators) danglingLine None None blankDoc
    = Throw e.
Proof.
  apply (unresolved_reference_aborts (ext := plainCollaborators) danglingLine
           None None blankDoc danglingInline {| positions := None |}).
  - right. left. reflexivity.
  - reflexivity.
  - reflexivity.
Defined.

Lemma page_ref_resolved_once_witness :
  exists i1 i2,
    preparePageNodeRefLine (ext := plainCollaborators) (pageRef 7)
      (Some wideInline) = Ok i1 /\
    preparePageNodeRefLine (ext := plainCollaborators) (pageRef 7) (Some i1)
    = Ok i2 /\
    Inline.text i2 = Inline.text i1 /\
    Inline.width i2 = Inline.width i1 /\
    (Inline.x i2 == Inline.x i1)%Q.
Proof.
  do 2 eexists. split; [vm_compute; reflexivity|].
  split; [vm_compute; reflexivity|].
  eapply (page_ref_resolved_once (ext := plainCollaborators) (pageRef 7)
            wideInline); vm_compute; reflexivity.
Defined.

(** ** Auto height, further *)

(** X10: at margins that [margins || 40] lets through, with items whose
    bottoms are numbers, the auto height is the largest of the top margin
    and the bottoms of the items, plus the bottom margin. *)
Theorem auto_height_formula (pages : list Page.t) (margins : MarginValue)
  (fixedMargins : Margins.t) (bottoms : list Q) :
  orForty margins = margins ->
  fixPageMargins margins = Ok (MObject fixedMargins) ->
  Forall2 (fun item b => getBottomPosition item = Ok (Some b))
    (flat_map Page.items pages) bottoms ->
  calculatePageHeight pages margins
  = Ok (Some (fold_left Qmax bottoms (Margins.top fixedMargins)
              + Margins.bottom fixedMargins)%Q).
Proof.
  intros Hor Hfix Hitems. unfold calculatePageHeight.
  rewrite Hor, Hfix. cbn [bind dot_top dot_bottom].
  rewrite (scanPages_max _ _ _ Hitems). reflexivity.
Qed.

Lemma auto_height_formula_witness :
  calculatePageHeight threeItems (MArray [10; 20; 30; 40]%Q)
  = Ok (Some (fold_left Qmax [150; 320; 15]%Q 20 + 40)%Q).
Proof.
  apply (auto_height_formula threeItems (MArray [10; 20; 30; 40]%Q)
           {| Margins.left := 10; Margins.top := 20; Margins.right := 30;
              Margins.bottom := 40 |} [150; 320; 15]%Q).
  - reflexivity.
  - reflexivity.
  - repeat constructor.
Defined.

Lemma fold_left_Qmax_ge (bs : list Q) :
  forall h : Q,
    (h <= fold_left Qmax bs h)%Q /\
    (forall b, In b bs -> (b <= fold_left Qmax bs h)%Q).
Proof.
  induction bs as [|b0 bs IH]; intros h; simpl.
  - split; [apply Qle_refl|intros b []].
  - destruct (IH (Qmax h b0)) as [H1 H2]. split.
    + eapply Qle_trans; [apply Q.le_max_l|exact H1].
    + intros b [<-|Hin]; [|apply H2; exact Hin].
      eapply Qle_trans; [apply Q.le_max_r|exact H1].
Qed.

(** X11: the auto height cuts nothing off.  At margins that
    [margins || 40] lets through, with items whose bottoms are numbers,
    the height is a number, at least the top margin plus the bottom
    margin, and at least the bottom of every item plus the bottom
    margin. *)
Theorem auto_height_covers_items (pages : list Page.t)
  (margins : MarginValue) (fixedMargins : Margins.t) (bottoms : list Q) :
  orForty margins = margins ->
  fixPageMargins margins = Ok (MObject fixedMargins) ->
  Forall2 (fun item b => getBottomPosition item = Ok (Some b))
    (flat_map Page.items pages) bottoms ->
  exists height,
    calculatePageHeight pages margins = Ok (Some height) /\
    (Margins.top fixedMargins + Margins.bottom fixedMargins <= height)%Q /\
    (forall b, In b bottoms ->
               (b + Margins.bottom fixedMargins <= height)%Q).
Proof.
  intros Hor Hfix Hitems. unfold calculatePageHeight.
  rewrite Hor, Hfix. cbn [bind dot_top dot_bottom].
  rewrite (scanPages_max _ _ _ Hitems). cbn [bind plus].
  destruct (fold_left_Qmax_ge bottoms (Margins.top fixedMargins)) as [H1 H2].
  eexists. split; [reflexivity|]. split.
  - apply Qplus_le_compat; [exact H1|apply Qle_refl].
  - intros b Hb. apply Qplus_le_compat; [apply H2; exact Hb|apply Qle_refl].
Qed.

Lemma auto_height_covers_items_witness :
  exists height,
    calculatePageHeight threeItems (MNumber 40) = Ok (Some height) /\
    (40 + 40 <= height)%Q /\
    (forall b, In b [150; 320; 15]%Q -> (b + 40 <= height)%Q).
Proof.
  apply (auto_height_covers_items threeItems (MNumber 40)
           {| Margins.left := 40; Margins.top := 40; Margins.right := 40;
              Margins.bottom := 40 |} [150; 320; 15]%Q).
  - reflexivity.
  - reflexivity.
  - repeat constructor.
Defined.

(** X12: resolving resolved margins changes nothing: whatever
    [fixPageMargins] gives back, it gives back again. *)
Theorem fixPageMargins_idempotent (margin fixed : MarginValue) :
  fixPageMargins margin = Ok fixed -> fixPageMargins fixed = Ok fixed.
Proof.
  destruct margin as [m|a|o|s|]; simpl.
  - intros [= <-]. reflexivity.
  - destruct a as [|a0 [|a1 [|a2 [|a3 [|a4 a]]]]]; try discriminate;
      intros [= <-]; reflexivity.
  - intros [= <-]. reflexivity.
  - intros [= <-]. reflexivity.
  - intros [= <-]. reflexivity.
Qed.

Lemma fixPageMargins_idempotent_witness :
  fixPageMargins
    (MObject {| Margins.left := 10; Margins.top := 20; Margins.right := 10;
                Margins.bottom := 20 |})
  = Ok (MObject {| Margins.left := 10; Margins.top := 20; Margins.right := 10;
                   Margins.bottom := 20 |}).
Proof.
  apply (fixPageMargins_idempotent (MArray [10; 20]%Q)). reflexivity.
Defined.

Lemma gt_None_l (h : option Q) : gt None h = false.
Proof. reflexivity. Qed.

Lemma scanItems_skip (item : Item.t) (pre post : list Item.t) :
  getBottomPosition item = Ok None ->
  forall h, scanItems (pre ++ item :: post) h = scanItems (pre ++ post) h.
Proof.
  intros Hb. induction pre as [|i pre IH]; intros h.
  - cbn [app scanItems]. rewrite Hb. cbn [bind]. rewrite gt_None_l.
    reflexivity.
  - cbn [app scanItems]. destruct (getBottomPosition i); [|reflexivity].
    cbn [bind]. apply IH.
Qed.

Lemma scanPages_skip (item : Item.t) (pre post : list Item.t) (page : Page.t)
  (before after : list Page.t) :
  getBottomPosition item = Ok None ->
  forall h,
    scanPages (before ++ replaceItems (pre ++ item :: post) page :: after) h
    = scanPages (before ++ replaceItems (pre ++ post) page :: after) h.
Proof.
  intros Hb. induction before as [|p before IH]; intros h.
  - cbn [app scanPages replaceItems Page.items].
    rewrite (scanItems_skip _ _ _ Hb). reflexivity.
  - cbn [app scanPages]. destruct (scanItems (Page.items p) h); [|reflexivity].
    cbn [bind]. apply IH.
Qed.

(** X13: a vector without [y2] (a rectangle, an ellipse, a polyline, a
    path) has the height [undefined]; its bottom is not a number, no
    comparison with it holds, and the auto height is the same with the
    item as without it. *)
Theorem vector_without_y2_ignored (item : Item.t) (y y1 : option Q)
  (pre post : list Item.t) (page : Page.t) (before after : list Page.t)
  (margins : MarginValue) :
  Item.type item = "vector" -> Item.item item = Item.vector y y1 None ->
  calculatePageHeight
    (before ++ replaceItems (pre ++ item :: post) page :: after) margins
  = calculatePageHeight
      (before ++ replaceItems (pre ++ post) page :: after) margins.
Proof.
  intros Ht Hi.
  assert (Hb : getBottomPosition item = Ok None).
  { unfold getBottomPosition, getItemHeight. rewrite Hi, Ht. cbn.
    destruct y1; reflexivity. }
  unfold calculatePageHeight.
  destruct (fixPageMargins (orForty margins)); [|reflexivity].
  cbn [bind]. rewrite (scanPages_skip _ _ _ _ _ _ Hb). reflexivity.
Qed.

Lemma vector_without_y2_ignored_witness :
  calculatePageHeight
    ([] ++ replaceItems ([sized 100 50] ++ rectAt 500 :: [sized 10 5])
             (linePage []) :: []) (MNumber 40)
  = calculatePageHeight
      ([] ++ replaceItems ([sized 100 50] ++ [sized 10 5]) (linePage []) :: [])
      (MNumber 40).
Proof.
  apply (vector_without_y2_ignored (rectAt 500) (Some 500%Q) None
           [sized 100 50] [sized 10 5] (linePage []) [] [] (MNumber 40));
    reflexivity.
Defined.

(** ** Fonts *)

Section FontFacts.
Context {str : Strings}.

Lemma findKey_Some (requiredFont : string) (fonts : list string)
  (font : string) :
  findKey requiredFont fonts = Some font ->
  exists before after,
    fonts = before ++ font :: after /\
    toLowerCase font = requiredFont /\
    (forall f, In f before -> toLowerCase f <> requiredFont).
Proof.
  induction fonts as [|f fonts IH]; simpl; [discriminate|].
  destruct (String.eqb_spec (toLowerCase f) requiredFont) as [E|N].
  - intros [= <-]. exists [], fonts. repeat split; auto.
  - intros H. destruct (IH H) as (before & after & -> & Hf & Hb).
    exists (f :: before), after. repeat split; auto.
    intros f0 [<-|Hin]; auto.
Qed.

Lemma findKey_None (requiredFont : string) (fonts : list string) :
  findKey requiredFont fonts = None ->
  forall f, In f fonts -> toLowerCase f <> requiredFont.
Proof.
  induction fonts as [|f fonts IH]; simpl; [intros _ f0 []|].
  destruct (String.eqb_spec (toLowerCase f) requiredFont) as [E|N];
    [discriminate|].
  intros H f0 [<-|Hin]; auto.
Qed.

(** X14: [findFont] compares names without regard to case and goes by
    the order of the required fonts first.  Either no key of [fonts]
    matches any required font and the default comes back; or the result
    is the first key, in the order of the enumeration, that matches the
    first required font that has a match at all. *)
Theorem findFont_first_match (fonts requiredFonts : list string)
  (defaultFont : string) :
  ((forall r f, In r requiredFonts -> In f fonts ->
                toLowerCase f <> toLowerCase r) /\
   findFont fonts requiredFonts defaultFont = defaultFont) \/
  (exists earlier r later before font after,
     requiredFonts = earlier ++ r :: later /\
     fonts = before ++ font :: after /\
     toLowerCase font = toLowerCase r /\
     (forall r' f, In r' earlier -> In f fonts ->
                   toLowerCase f <> toLowerCase r') /\
     (forall f, In f before -> toLowerCase f <> toLowerCase r) /\
     findFont fonts requiredFonts defaultFont = font).
Proof.
  induction requiredFonts as [|r rest IH]; simpl.
  - left. split; [intros r f []|reflexivity].
  - destruct (findKey (toLowerCase r) fonts) as [font|] eqn:E.
    + right. destruct (findKey_Some _ _ _ E) as (before & after & Hf & Hm & Hb).
      exists [], r, rest, before, font, after.
      repeat split; auto.
    + pose proof (findKey_None _ _ E) as Hn.
      destruct IH as [[Hno Hd]|(earlier & r0 & later & before & font & after
                                & -> & Hf & Hm & He & Hb & Hr)].
      * left. split; [|exact Hd].
        intros r' f [<-|Hin] Hfin; auto.
      * right. exists (r :: earlier), r0, later, before, font, after.
        repeat split; auto.
        intros r' f [<-|Hin] Hfin; auto.
Qed.

End FontFacts.

(** ** Page sizes *)

Lemma gtNum_asym (a b : Num) : gtNum a b = true -> gtNum b a = false.
Proof.
  destruct a as [p|], b as [q|]; simpl; try reflexivity; try discriminate.
  intros H. apply negb_true_iff in H.
  apply negb_false_iff. apply Qle_bool_iff.
  destruct (Qlt_le_dec q p) as [Hlt|Hle]; [apply Qlt_le_weak; exact Hlt|].
  apply Qle_bool_iff in Hle. congruence.
Qed.

Section SizeFacts.
Context {str : Strings}.

(** X15: the orientation asked for is the orientation given.  When
    [pageOrientation] is ['portrait'] in any case of letters, the size
    that [fixPageSize] returns is not wider than high and is marked
    ['portrait']; when it is ['landscape'], the size is not higher than
    wide, and is marked ['landscape'] unless it is square. *)
Theorem fixPageSize_orientation (pageSize : PageSizeValue) (o : string)
  (size : Size.t) :
  fixPageSize pageSize (Some o) = Ok size ->
  (toLowerCase o = "portrait" ->
   gtNum (Size.width size) (Size.height size) = false /\
   Size.orientation size = "portrait") /\
  (toLowerCase o = "landscape" ->
   gtNum (Size.height size) (Size.width size) = false /\
   (Size.orientation size = "landscape" <->
    gtNum (Size.width size) (Size.height size) = true)).
Proof.
  unfold fixPageSize.
  destruct (pageSize2widthAndHeight _) as [[w h]|]; [|discriminate].
  cbn [bind]. unfold isNeedSwapPageSizes. cbn [fst snd].
  intros [= <-]. split; intros ->; cbn [String.eqb Ascii.eqb Bool.eqb andb orb].
  - rewrite orb_false_r.
    destruct (gtNum w h) eqn:G; cbn [fst snd Size.width Size.height
                                     Size.orientation].
    + rewrite (gtNum_asym _ _ G). auto.
    + rewrite G. auto.
  - destruct (gtNum h w) eqn:G; cbn [fst snd Size.width Size.height
                                     Size.orientation].
    + rewrite (gtNum_asym _ _ G), G. split; [reflexivity|].
      split; auto.
    + rewrite G. split; [reflexivity|].
      destruct (gtNum w h); split; auto; discriminate.
Qed.

(** X16: page sizes by name.  The name is looked up in upper case; an
    empty or missing [pageSize] stands for ['A4']; a name that the table
    does not have makes [fixPageSize] throw; and without an orientation
    the width and height are those of the table. *)
Theorem fixPageSize_named (name : string) (pageOrientation : option string) :
  fixPageSize PSUndefined pageOrientation
  = fixPageSize (PSName "A4") pageOrientation /\
  fixPageSize (PSName "") pageOrientation
  = fixPageSize (PSName "A4") pageOrientation /\
  (name <> "" -> sizes (toUpperCase name) = None ->
   fixPageSize (PSName name) pageOrientation
   = Throw (Thrown ("Page size " ++ name ++ " not recognized")%string)) /\
  (forall w h,
     name <> "" -> sizes (toUpperCase name) = Some (w, h) ->
     exists size,
       fixPageSize (PSName name) None = Ok size /\
       Size.width size = Finite w /\ Size.height size = Finite h).
Proof.
  split; [reflexivity|]. split; [reflexivity|].
  assert (Hname : name <> "" -> (name =? "")%string = false)
    by (intros H; destruct (String.eqb_spec name ""); congruence).
  split.
  - intros Hne Hs. unfold fixPageSize, pageSize2widthAndHeight.
    rewrite (Hname Hne), Hs. reflexivity.
  - intros w h Hne Hs. unfold fixPageSize, pageSize2widthAndHeight.
    rewrite (Hname Hne), Hs. cbn. eexists. split; [reflexivity|]. auto.
Qed.

(** X17: fixing a fixed size changes nothing.  Given back as an object
    with the same orientation asked for, the size that [fixPageSize]
    returned comes back as it is. *)
Theorem fixPageSize_idempotent (pageSize : PageSizeValue)
  (pageOrientation : option string) (size : Size.t) :
  fixPageSize pageSize pageOrientation = Ok size ->
  fixPageSize (PSObject (Size.width size) (HNumber (Size.height size)))
    pageOrientation
  = Ok size.
Proof.
  unfold fixPageSize.
  destruct (pageSize2widthAndHeight _) as [[w h]|]; [|discriminate].
  cbn [bind pageSize2widthAndHeight]. unfold isNeedSwapPageSizes.
  cbn [fst snd]. intros [= <-].
  destruct pageOrientation as [o|]; [|reflexivity].
  destruct (String.eqb_spec (toLowerCase o) "portrait") as [P|P];
    destruct (String.eqb_spec (toLowerCase o) "landscape") as [L|L];
    try (rewrite P in L; discriminate);
    cbn [andb orb]; rewrite ?orb_false_r;
    destruct (gtNum w h) eqn:G1; destruct (gtNum h w) eqn:G2;
    cbn [andb orb fst snd Size.width Size.height];
    rewrite ?G1, ?G2; cbn [andb orb fst snd]; rewrite ?G1, ?G2;
    try reflexivity;
    rewrite (gtNum_asym _ _ G1) in G2; discriminate.
Qed.

End SizeFacts.

Lemma fixPageSize_orientation_witness :
  exists size,
    fixPageSize (str := asciiStrings) (PSName "a4") (Some "Landscape")
    = Ok size /\
    gtNum (Size.height size) (Size.width size) = false /\
    Size.orientation size = "landscape".
Proof.
  assert (R : exists size,
             fixPageSize (str := asciiStrings) (PSName "a4") (Some "Landscape")
             = Ok size)
    by (eexists; vm_compute; reflexivity).
  destruct R as (size & R). exists size. split; [exact R|].
  destruct (fixPageSize_orientation (str := asciiStrings) _ _ _ R) as [_ H].
  destruct (H eq_refl) as [H1 H2]. split; [exact H1|].
  apply H2. revert R. vm_compute. intros [= <-]. reflexivity.
Defined.

Lemma fixPageSize_named_witness :
  fixPageSize (str := asciiStrings) (PSName "B99") (Some "portrait")
  = Throw (Thrown "Page size B99 not recognized") /\
  exists size,
    fixPageSize (str := asciiStrings) (PSName "letter") None = Ok size /\
    Size.width size = Finite 612 /\ Size.height size = Finite 792.
Proof.
  destruct (fixPageSize_named (str := asciiStrings) "B99" (Some "portrait"))
    as (_ & _ & H & _).
  destruct (fixPageSize_named (str := asciiStrings) "letter" None)
    as (_ & _ & _ & K).
  split.
  - apply H; [discriminate|reflexivity].
  - apply K; [discriminate|reflexivity].
Defined.

Lemma fixPageSize_idempotent_witness :
  exists size,
    fixPageSize (str := asciiStrings) (PSObject (Finite 500) HAuto)
      (Some "landscape") = Ok size /\
    fixPageSize (str := asciiStrings)
      (PSObject (Size.width size) (HNumber (Size.height size)))
      (Some "landscape") = Ok size.
Proof.
  assert (R : exists size,
             fixPageSize (str := asciiStrings) (PSObject (Finite 500) HAuto)
               (Some "landscape") = Ok size)
    by (eexists; vm_compute; reflexivity).
  destruct R as (size & R). exists size. split; [exact R|].
  exact (fixPageSize_idempotent (str := asciiStrings) _ _ _ R).
Defined.

(** ** Vectors *)

Lemma polylineCalls_no_paint (vector : Vector.t) :
  forallb (fun c => negb (isPaint c)) (polylineCalls vector) = true.
Proof.
  unfold polylineCalls. destruct (Vector.points vector) as [|p1 rest];
    [reflexivity|].
  simpl. rewrite forallb_app. apply andb_true_intro. split.
  - induction rest as [|p rest IH]; [reflexivity|exact IH].
  - destruct rest; [reflexivity|].
    destruct (Vector.closePath vector || _); reflexivity.
Qed.

Lemma vectorShape_no_paint (vector : Vector.t) :
  forallb (fun c => negb (isPaint c)) (fst (vectorShape vector)) = true.
Proof.
  unfold vectorShape.
  destruct (Vector.type vector =? "ellipse")%string;
    [destruct (isSome _); reflexivity|].
  destruct (Vector.type vector =? "rect")%string;
    [destruct (truthy _); destruct (isSome _); reflexivity|].
  destruct (Vector.type vector =? "line")%string; [reflexivity|].
  destruct (Vector.type vector =? "polyline")%string;
    [apply polylineCalls_no_paint|].
  destruct (Vector.type vector =? "path")%string; reflexivity.
Qed.

Lemma vectorSetup_no_paint (vector : Vector.t) :
  forallb (fun c => negb (isPaint c)) (vectorSetup vector) = true.
Proof. unfold vectorSetup. destruct (Vector.dash vector); reflexivity. Qed.

Lemma gradientStops_no_paint (n : nat) (colors : list string) :
  forall i, forallb (fun c => negb (isPaint c)) (gradientStops n i colors) = true.
Proof. induction colors as [|c colors IH]; intros i; [reflexivity|apply IH]. Qed.

(** X18: every vector is painted, once, by the last call.  The calls of
    [renderVector] end with one of [fillAndStroke], [fill] and [stroke]
    and hold no other painting call; which one is decided by the colour
    the vector is left with and its line colour; and an ellipse or a
    rectangle that has a [linearGradient] is left with the gradient as
    its colour, so that it is filled whether it had a colour or not. *)
Theorem renderVector_paints_once (vector : Vector.t) :
  exists body,
    fst (renderVector vector)
    = body
      ++ [if truthyPaint (snd (renderVector vector))
          then if truthyString (Vector.lineColor vector)
               then VFillAndStroke else VFill
          else VStroke] /\
    forallb (fun c => negb (isPaint c)) body = true /\
    (Vector.linearGradient vector <> None ->
     Vector.type vector = "ellipse" \/ Vector.type vector = "rect" ->
     snd (renderVector vector) = Some Gradient).
Proof.
  unfold renderVector.
  pose proof (vectorShape_no_paint vector) as Hshape.
  assert (Hgrad : Vector.linearGradient vector <> None ->
                  Vector.type vector = "ellipse" \/ Vector.type vector = "rect" ->
                  snd (vectorShape vector) = true).
  { intros Hg Ht. unfold vectorShape.
    destruct (Vector.linearGradient vector); [|congruence].
    destruct Ht as [-> | ->]; reflexivity. }
  destruct (vectorShape vector) as [shape gradient]. cbn [fst snd] in *.
  set (sc := match Vector.linearGradient vector with
             | Some colors => _
             | None => _
             end).
  assert (Hstops : forallb (fun c => negb (isPaint c)) (fst sc) = true).
  { unfold sc. destruct (Vector.linearGradient vector) as [colors|];
      [|reflexivity].
    destruct gradient; [apply gradientStops_no_paint|reflexivity]. }
  assert (Hcolor : Vector.linearGradient vector <> None ->
                   Vector.type vector = "ellipse" \/ Vector.type vector = "rect" ->
                   snd sc = Some Gradient).
  { intros Hg Ht. unfold sc. rewrite (Hgrad Hg Ht).
    destruct (Vector.linearGradient vector); [reflexivity|congruence]. }
  destruct sc as [stops color]. cbn [fst snd] in *.
  pose proof (vectorSetup_no_paint vector) as Hsetup.
  unfold vectorPaint.
  destruct color as [paint|];
    [destruct (truthyPaint (Some paint)) eqn:T;
     [destruct (truthyString (Vector.lineColor vector))|]|].
  - exists (vectorSetup vector ++ shape ++ stops
            ++ [VFillColor paint (opacityOr1 (Vector.fillOpacity vector));
                VStrokeColor (orString (Vector.lineColor vector) "black")
                  (opacityOr1 (Vector.strokeOpacity vector))]).
    split; [rewrite <- !app_assoc; reflexivity|]. split; [|exact Hcolor].
    rewrite !forallb_app, Hsetup, Hshape, Hstops. reflexivity.
  - exists (vectorSetup vector ++ shape ++ stops
            ++ [VFillColor paint (opacityOr1 (Vector.fillOpacity vector))]).
    split; [rewrite <- !app_assoc; reflexivity|]. split; [|exact Hcolor].
    rewrite !forallb_app, Hsetup, Hshape, Hstops. reflexivity.
  - exists (vectorSetup vector ++ shape ++ stops
            ++ [VStrokeColor (orString (Vector.lineColor vector) "black")
                  (opacityOr1 (Vector.strokeOpacity vector))]).
    split; [rewrite <- !app_assoc; reflexivity|]. split; [|exact Hcolor].
    rewrite !forallb_app, Hsetup, Hshape, Hstops. reflexivity.
  - exists (vectorSetup vector ++ shape ++ stops
            ++ [VStrokeColor (orString (Vector.lineColor vector) "black")
                  (opacityOr1 (Vector.strokeOpacity vector))]).
    split; [rewrite <- !app_assoc; reflexivity|]. split; [|exact Hcolor].
    rewrite !forallb_app, Hsetup, Hshape, Hstops. reflexivity.
Qed.

Lemma renderVector_paints_once_witness :
  snd (renderVector (plainVector "rect")) = Some Gradient.
Proof.
  destruct (renderVector_paints_once (plainVector "rect")) as (body & _ & _ & H).
  apply H; [discriminate|right; reflexivity].
Defined.

(** ** Gradient stops

    The offsets are doubles.  What follows bounds the mantissas and the
    exponents that rounding can give, which is enough to tell a number
    from [NaN] and from an infinity. *)

Lemma digits2_size (p : positive) : digits2_pos p = Pos.size p.
Proof. induction p; simpl; congruence. Qed.

Lemma digits2_gt (p : positive) : (Zpos p < 2 ^ Zpos (digits2_pos p))%Z.
Proof.
  rewrite digits2_size. change 2%Z with (Zpos 2). rewrite <- Pos2Z.inj_pow.
  exact (Pos.size_gt p).
Qed.

Lemma digits2_le (p : positive) : (2 ^ Zpos (digits2_pos p) <= 2 * Zpos p)%Z.
Proof.
  rewrite digits2_size. change 2%Z with (Zpos 2) at 1.
  rewrite <- Pos2Z.inj_pow. exact (Pos.size_le p).
Qed.

Lemma Zdigits2_ub (m D : Z) :
  (0 <= m < 2 ^ D)%Z -> (0 <= D)%Z -> (Zdigits2 m <= D)%Z.
Proof.
  intros [H0 H] HD. destruct m as [|p|p]; simpl; [lia| |lia].
  assert (L := digits2_le p).
  assert (H1 : (2 ^ Zpos (digits2_pos p) < 2 ^ (D + 1))%Z).
  { rewrite Z.pow_add_r, Z.pow_1_r by lia. lia. }
  apply Z.pow_lt_mono_r_iff in H1; lia.
Qed.

Lemma Zdigits2_lb (m : Z) :
  (0 < m)%Z -> (2 ^ (Zdigits2 m - 1) <= m)%Z /\ (0 < Zdigits2 m)%Z.
Proof.
  destruct m as [|p|p]; try lia. intros _.
  change (Zdigits2 (Zpos p)) with (Zpos (digits2_pos p)). split; [|lia].
  assert (L := digits2_le p).
  replace (Zpos (digits2_pos p)) with (Zpos (digits2_pos p) - 1 + 1)%Z in L
    by lia.
  rewrite Z.pow_add_r, Z.pow_1_r in L by lia. lia.
Qed.

Lemma iter_pos_nat {A} (f : A -> A) (p : positive) :
  forall x, iter_pos f p x = Nat.iter (Pos.to_nat p) f x.
Proof.
  assert (P : forall a b x,
             Nat.iter (a + b) f x = Nat.iter a f (Nat.iter b f x)).
  { induction a as [|a IH]; intros b x; simpl; [reflexivity|].
    rewrite IH. reflexivity. }
  induction p as [p IH|p IH|]; intros x; cbn [iter_pos].
  - rewrite !IH, Pos2Nat.inj_xI.
    replace (Datatypes.S (2 * Pos.to_nat p))
      with (Pos.to_nat p + (Pos.to_nat p + 1)) by lia.
    rewrite !P. reflexivity.
  - rewrite !IH, Pos2Nat.inj_xO.
    replace (2 * Pos.to_nat p) with (Pos.to_nat p + Pos.to_nat p) by lia.
    rewrite P. reflexivity.
  - reflexivity.
Qed.

Lemma shr_1_m (mrs : shr_record) :
  (0 <= shr_m mrs)%Z -> shr_m (shr_1 mrs) = (shr_m mrs / 2)%Z.
Proof.
  destruct mrs as [m r s]. cbn [shr_m]. intros H.
  destruct m as [|[p|p|]|p]; cbn [shr_1 shr_m]; try lia.
  - reflexivity.
  - rewrite Pos2Z.inj_xI. apply (Z.div_unique _ _ _ 1); lia.
  - rewrite Pos2Z.inj_xO. apply (Z.div_unique _ _ _ 0); lia.
  - reflexivity.
Qed.

Lemma shr_iter_m (k : nat) (mrs : shr_record) :
  (0 <= shr_m mrs)%Z ->
  shr_m (Nat.iter k shr_1 mrs) = (shr_m mrs / 2 ^ Z.of_nat k)%Z.
Proof.
  intros H. induction k as [|k IH].
  - simpl. rewrite Z.div_1_r. reflexivity.
  - change (Nat.iter (Datatypes.S k) shr_1 mrs)
      with (shr_1 (Nat.iter k shr_1 mrs)).
    rewrite shr_1_m.
    + rewrite IH, Z.div_div by lia.
      rewrite Nat2Z.inj_succ, Z.pow_succ_r by lia. f_equal. lia.
    + rewrite IH. apply Z.div_pos; lia.
Qed.

(** What a shift leaves of the mantissa, and the exponent it gives. *)
Lemma shr_spec (mrs : shr_record) (e n : Z) :
  (0 <= shr_m mrs)%Z ->
  shr_m (fst (shr mrs e n)) = (shr_m mrs / 2 ^ Z.max n 0)%Z /\
  snd (shr mrs e n) = (e + Z.max n 0)%Z.
Proof.
  intros H. destruct n as [|p|p]; simpl.
  - rewrite Z.div_1_r. split; [reflexivity|lia].
  - rewrite iter_pos_nat, shr_iter_m, positive_nat_Z by exact H.
    split; [reflexivity|lia].
  - rewrite Z.div_1_r. split; [reflexivity|lia].
Qed.

Lemma shr_record_of_loc_m (m : Z) (l : location) :
  shr_m (shr_record_of_loc m l) = m.
Proof. destruct l as [|[]]; reflexivity. Qed.

Lemma round_nearest_even_bounds (m : Z) (l : location) :
  (m <= round_nearest_even m l <= m + 1)%Z.
Proof.
  destruct l as [|[]]; simpl; try lia. destruct (Z.even m); lia.
Qed.

Lemma fexp_eq (e : Z) :
  fexp F64.prec F64.emax e = Z.max (e - 53) (-1074).
Proof. reflexivity. Qed.

Lemma div_pow2_pos (m n : Z) :
  (0 < m)%Z -> (n <= Zdigits2 m - 1)%Z -> (0 < m / 2 ^ Z.max n 0)%Z.
Proof.
  intros Hm Hn. destruct (Zdigits2_lb m Hm) as [L D].
  apply Z.div_str_pos. split; [apply Z.pow_pos_nonneg; lia|].
  eapply Z.le_trans; [|exact L]. apply Z.pow_le_mono_r; lia.
Qed.

Lemma div_pow2_le (m n : Z) :
  (0 <= m)%Z -> (0 <= m / 2 ^ Z.max n 0 <= m)%Z.
Proof.
  intros Hm. assert (0 < 2 ^ Z.max n 0)%Z by (apply Z.pow_pos_nonneg; lia).
  split; [apply Z.div_pos; lia|]. apply Z.div_le_upper_bound; nia.
Qed.

(** Rounding a mantissa below [2 ^ D] at an exponent of at most [A]
    gives zero or a number whose exponent is at most [A + 2 * D - 105]:
    it does not overflow while that is an exponent of a double. *)
Lemma binary_round_aux_bounds (sx : bool) (mx ex : Z) (lx : location)
  (D A : Z) :
  (0 <= mx < 2 ^ D)%Z -> (53 <= D)%Z -> (ex <= A)%Z -> (-1074 <= A)%Z ->
  (A + 2 * D <= 1076)%Z ->
  binary_round_aux F64.prec F64.emax sx mx ex lx = S754_zero sx \/
  exists m e,
    binary_round_aux F64.prec F64.emax sx mx ex lx = S754_finite sx m e /\
    (Zpos m <= mx + 1)%Z /\ (ex <= e <= A + 2 * D - 105)%Z.
Proof.
  intros [H0 HD] D53 He HA HB. unfold binary_round_aux, shr_fexp.
  destruct (shr_spec (shr_record_of_loc mx lx) ex
              (fexp F64.prec F64.emax (Zdigits2 mx + ex) - ex)) as [M1 E1];
    [rewrite shr_record_of_loc_m; exact H0|].
  rewrite shr_record_of_loc_m in M1.
  destruct (shr _ ex _) as [mrs' e']. simpl in M1, E1.
  set (m1 := round_nearest_even (shr_m mrs') (loc_of_shr_record mrs')).
  assert (B1 : (shr_m mrs' <= m1 <= shr_m mrs' + 1)%Z)
    by apply round_nearest_even_bounds.
  assert (L1 : (0 <= shr_m mrs' <= mx)%Z)
    by (rewrite M1; apply div_pow2_le; exact H0).
  destruct (shr_spec (shr_record_of_loc m1 loc_Exact) e'
              (fexp F64.prec F64.emax (Zdigits2 m1 + e') - e')) as [M2 E2];
    [simpl; lia|].
  destruct (shr _ e' _) as [mrs'' e'']. simpl in M2, E2.
  assert (L2 : (0 <= shr_m mrs'' <= m1)%Z)
    by (rewrite M2; apply div_pow2_le; lia).
  assert (D0 : (Zdigits2 mx <= D)%Z) by (apply Zdigits2_ub; lia).
  assert (D1 : (Zdigits2 m1 <= D + 1)%Z).
  { apply Zdigits2_ub; [|lia]. split; [lia|].
    rewrite Z.pow_add_r, Z.pow_1_r by lia. lia. }
  rewrite !fexp_eq in *.
  assert (X : (e'' <= A + 2 * D - 105)%Z) by lia.
  assert (Y : (ex <= e'')%Z) by lia.
  destruct (shr_m mrs'') as [|m|m] eqn:Em; [left; reflexivity| |lia].
  right. exists m, e''. change (F64.emax - F64.prec)%Z with 971%Z.
  destruct (Z.leb_spec e'' 971); [|lia]. repeat split; lia.
Qed.

(** Rounding a positive mantissa at an exponent of a double does not
    give zero. *)
Lemma binary_round_aux_pos (sx : bool) (mx ex : Z) (lx : location) :
  (0 < mx)%Z -> (-1074 <= ex)%Z ->
  binary_round_aux F64.prec F64.emax sx mx ex lx <> S754_zero sx.
Proof.
  intros H0 He. unfold binary_round_aux, shr_fexp.
  destruct (shr_spec (shr_record_of_loc mx lx) ex
              (fexp F64.prec F64.emax (Zdigits2 mx + ex) - ex)) as [M1 E1];
    [rewrite shr_record_of_loc_m; lia|].
  rewrite shr_record_of_loc_m in M1.
  destruct (shr _ ex _) as [mrs' e']. simpl in M1, E1.
  set (m1 := round_nearest_even (shr_m mrs') (loc_of_shr_record mrs')).
  assert (B1 : (shr_m mrs' <= m1 <= shr_m mrs' + 1)%Z)
    by apply round_nearest_even_bounds.
  rewrite fexp_eq in M1, E1.
  assert (L1 : (0 < shr_m mrs')%Z).
  { rewrite M1. apply div_pow2_pos; [exact H0|].
    destruct (Zdigits2_lb mx H0). lia. }
  destruct (shr_spec (shr_record_of_loc m1 loc_Exact) e'
              (fexp F64.prec F64.emax (Zdigits2 m1 + e') - e')) as [M2 E2];
    [simpl; lia|].
  destruct (shr _ e' _) as [mrs'' e'']. simpl in M2, E2.
  rewrite fexp_eq in M2, E2.
  assert (L2 : (0 < shr_m mrs'')%Z).
  { rewrite M2. apply div_pow2_pos; [lia|].
    destruct (Zdigits2_lb m1); lia. }
  destruct (shr_m mrs'') as [|m|m]; [lia| |lia].
  destruct (Z.leb _ _); discriminate.
Qed.

Lemma iter_xO_digits (p j : positive) :
  digits2_pos (Pos.iter xO p j) = (digits2_pos p + j)%positive.
Proof.
  induction j as [|j IH] using Pos.peano_ind.
  - simpl. rewrite Pos.add_1_r. reflexivity.
  - rewrite Pos.iter_succ. cbn [digits2_pos]. rewrite IH. lia.
Qed.

Lemma iter_xO_value (p j : positive) :
  Zpos (Pos.iter xO p j) = (Zpos p * 2 ^ Zpos j)%Z.
Proof.
  induction j as [|j IH] using Pos.peano_ind.
  - simpl. lia.
  - rewrite Pos.iter_succ, Pos2Z.inj_xO, IH, Pos2Z.inj_succ, Z.pow_succ_r; lia.
Qed.

Lemma shl_align_value (mx : positive) (ex ex' : Z) :
  (ex' <= ex)%Z ->
  Zpos (fst (shl_align mx ex ex')) = (Zpos mx * 2 ^ (ex - ex'))%Z.
Proof.
  intros H. unfold shl_align. destruct (ex' - ex)%Z as [|d|d] eqn:E; cbn [fst].
  - replace (ex - ex')%Z with 0%Z by lia. lia.
  - lia.
  - rewrite iter_xO_value. f_equal. f_equal. lia.
Qed.

(** A mantissa of 53 digits at an exponent of a double needs no
    rounding. *)
Lemma binary_round_aux_exact (sx : bool) (m : positive) (e : Z) :
  Zpos (digits2_pos m) = 53%Z -> (-1074 <= e <= 971)%Z ->
  binary_round_aux F64.prec F64.emax sx (Zpos m) e loc_Exact
  = S754_finite sx m e.
Proof.
  intros D E. unfold binary_round_aux, shr_fexp.
  change (Zdigits2 (Zpos m)) with (Zpos (digits2_pos m)).
  cbn [shr_record_of_loc].
  replace (fexp F64.prec F64.emax (Zpos (digits2_pos m) + e) - e)%Z with 0%Z
    by (rewrite fexp_eq; lia).
  cbn [shr shr_m loc_of_shr_record round_nearest_even shr_record_of_loc].
  change (Zdigits2 (Zpos m)) with (Zpos (digits2_pos m)).
  replace (fexp F64.prec F64.emax (Zpos (digits2_pos m) + e) - e)%Z with 0%Z
    by (rewrite fexp_eq; lia).
  cbn [shr shr_m]. change (F64.emax - F64.prec)%Z with 971%Z.
  destruct (Z.leb_spec e 971); [reflexivity|lia].
Qed.

(** The integers from 1 to [2 ^ 53] are doubles. *)
Lemma ofNat_exact (n : nat) :
  (1 <= Z.of_nat n < 2 ^ 53)%Z ->
  exists m e,
    F64.ofNat n = S754_finite false m e /\
    (-52 <= e <= 0)%Z /\ Zpos m = (Z.of_nat n * 2 ^ (- e))%Z /\
    (Zpos m < 2 ^ 53)%Z.
Proof.
  intros [H1 H2]. unfold F64.ofNat, binary_normalize.
  destruct (Z.of_nat n) as [|p|p]; [lia| |lia].
  assert (D : (0 < Zpos (digits2_pos p) <= 53)%Z).
  { split; [lia|]. apply (Zdigits2_ub (Zpos p)); lia. }
  unfold binary_round, shl_align.
  rewrite fexp_eq.
  destruct (Z.max (Zpos (digits2_pos p) + 0 - 53) (-1074) - 0)%Z
    as [|j|j] eqn:E.
  - exists p, 0%Z. rewrite binary_round_aux_exact by lia.
    repeat split; lia.
  - lia.
  - exists (Pos.iter xO p j),
      (Z.max (Zpos (digits2_pos p) + 0 - 53) (-1074))%Z.
    assert (D' : Zpos (digits2_pos (Pos.iter xO p j)) = 53%Z)
      by (rewrite iter_xO_digits; lia).
    rewrite binary_round_aux_exact by lia.
    repeat split; try lia.
    + rewrite iter_xO_value. f_equal. f_equal. lia.
    + rewrite <- D'. apply digits2_gt.
Qed.

Lemma one_eq : F64.one = S754_finite false 4503599627370496 (-52).
Proof. vm_compute. reflexivity. Qed.

(** [length - 1] is a positive double when there are two colours or
    more. *)
Lemma pred_finite (n : nat) :
  (2 <= Z.of_nat n < 2 ^ 53)%Z ->
  exists m e,
    F64.sub (F64.ofNat n) F64.one = S754_finite false m e /\
    (-52 <= e)%Z /\ (Zpos m < 2 ^ 105)%Z.
Proof.
  intros [H1 H2].
  destruct (ofNat_exact n) as (m & e & -> & He & Hm & _); [lia|].
  rewrite one_eq. unfold F64.sub, SFsub. cbn [cond_Zopp].
  replace (Z.min e (-52)) with (-52)%Z by lia.
  rewrite !shl_align_value by lia.
  replace (-52 - -52)%Z with 0%Z by lia.
  rewrite Hm, <- Z.mul_assoc, <- Z.pow_add_r by lia.
  replace (- e + (e - -52))%Z with 52%Z by lia.
  change (2 ^ 0)%Z with 1%Z. change (2 ^ 52)%Z with 4503599627370496%Z.
  change (2 ^ 53)%Z with 9007199254740992%Z in H2.
  destruct (Z.of_nat n * 4503599627370496 - 4503599627370496 * 1)%Z
    as [|p|p] eqn:Ep; [lia| |lia].
  unfold binary_normalize, binary_round.
  assert (D : (53 <= Zpos (digits2_pos p))%Z).
  { assert (G := digits2_gt p).
    destruct (Z.le_gt_cases 53 (Zpos (digits2_pos p))) as [L|L]; [exact L|].
    assert (H : (2 ^ Zpos (digits2_pos p) <= 2 ^ 52)%Z)
      by (apply Z.pow_le_mono_r; lia).
    change (2 ^ 52)%Z with 4503599627370496%Z in H. lia. }
  assert (R : exists m2 e2,
             binary_round_aux F64.prec F64.emax false (Zpos p) (-52) loc_Exact
             = S754_finite false m2 e2 /\
             (-52 <= e2)%Z /\ (Zpos m2 < 2 ^ 105)%Z).
  { change (2 ^ 105)%Z with 40564819207303340847894502572032%Z.
    destruct (binary_round_aux_bounds false (Zpos p) (-52) loc_Exact 105 (-52))
      as [Z|(m2 & e2 & R & M & X)]; try lia.
    - exfalso. revert Z. apply binary_round_aux_pos; lia.
    - exists m2, e2. split; [exact R|]. lia. }
  unfold shl_align. rewrite fexp_eq.
  destruct (Z.max (Zpos (digits2_pos p) + -52 - 53) (-1074) - -52)%Z
    as [|j|j] eqn:E; [exact R|exact R|lia].
Qed.

(** The step of two colours or more is a number, zero or positive. *)
Lemma stopStep_number (n : nat) :
  (2 <= Z.of_nat n < 2 ^ 53)%Z ->
  stopStep n = S754_zero false \/
  exists m e,
    stopStep n = S754_finite false m e /\
    (Zpos m < 2 ^ 158)%Z /\ (e <= 211)%Z.
Proof.
  intros H. unfold stopStep.
  destruct (pred_finite n H) as (m2 & e2 & -> & He & Hm).
  rewrite one_eq. unfold F64.div, SFdiv, SFdiv_core_binary.
  change (Zdigits2 4503599627370496) with 53%Z.
  change (Zdigits2 (Zpos m2)) with (Zpos (digits2_pos m2)).
  assert (D : (0 < Zpos (digits2_pos m2) <= 105)%Z).
  { split; [lia|]. apply (Zdigits2_ub (Zpos m2)); lia. }
  rewrite fexp_eq.
  set (e' := Z.min _ (-52 - e2)%Z).
  assert (E : (e' <= -52 - e2 /\ 0 <= -52 - e2 - e' <= 105)%Z)
    by (unfold e'; lia).
  set (m' := match (-52 - e2 - e')%Z with
             | 0%Z => _ | Zpos _ => _ | Zneg _ => _ end).
  assert (M : (0 <= m' <= 2 ^ 157)%Z).
  { unfold m'. destruct (-52 - e2 - e')%Z as [|s|s] eqn:S.
    - change (2 ^ 157)%Z with (4503599627370496 * 2 ^ 105)%Z.
      assert (0 < 2 ^ 105)%Z by (apply Z.pow_pos_nonneg; lia). nia.
    - rewrite Z.shiftl_mul_pow2 by lia.
      assert (0 < 2 ^ Zpos s)%Z by (apply Z.pow_pos_nonneg; lia).
      assert (2 ^ Zpos s <= 2 ^ 105)%Z by (apply Z.pow_le_mono_r; lia).
      change (2 ^ 157)%Z with (4503599627370496 * 2 ^ 105)%Z.
      split; [lia|]. apply Z.mul_le_mono_nonneg_l; lia.
    - split; [lia|apply Z.pow_nonneg; lia]. }
  clearbody m'.
  assert (Q := Z_div_mod m' (Zpos m2) ltac:(lia)).
  destruct (Z.div_eucl m' (Zpos m2)) as [q r]. destruct Q as [Q R].
  assert (Hq : (0 <= q <= m')%Z) by nia.
  cbn [xorb].
  assert (P : (2 ^ 158 = 2 * 2 ^ 157)%Z) by reflexivity.
  assert (P0 : (0 < 2 ^ 157)%Z) by reflexivity.
  destruct (binary_round_aux_bounds false q e' (new_location (Zpos m2) r)
              158 0)
    as [Z|(m & e & -> & Mm & Me)]; try lia.
  - left. exact Z.
  - right. exists m, e. split; [reflexivity|]. lia.
Qed.

(** With two colours or more every offset is a number that is not
    negative. *)
Lemma stopOffset_number (n i : nat) :
  (2 <= Z.of_nat n < 2 ^ 53)%Z -> (Z.of_nat i < 2 ^ 53)%Z ->
  F64.isOffset (stopOffset n i) = true.
Proof.
  intros Hn Hi. unfold stopOffset.
  destruct i as [|i].
  - destruct (stopStep_number n Hn) as [->|(m & e & -> & _)]; reflexivity.
  - destruct (ofNat_exact (Datatypes.S i)) as (mi & ei & -> & Ei & _ & Mi);
      [lia|].
    destruct (stopStep_number n Hn) as [->|(m & e & -> & Mm & Me)];
      [reflexivity|].
    unfold F64.mul, SFmul. cbn [xorb].
    assert (P : (2 ^ 211 = 2 ^ 53 * 2 ^ 158)%Z) by reflexivity.
    assert (P1 : (0 < 2 ^ 53)%Z) by reflexivity.
    assert (P2 : (0 < 2 ^ 158)%Z) by reflexivity.
    destruct (binary_round_aux_bounds false (Zpos (mi * m)) (ei + e)
                loc_Exact 211 211)
      as [->|(m' & e' & -> & _)]; try lia; try reflexivity.
    rewrite Pos2Z.inj_mul. split; [lia|]. rewrite P.
    apply Z.mul_lt_mono_nonneg; lia.
Qed.

Lemma gradientStops_nth (n : nat) (colors : list string) :
  forall i k,
    nth_error (gradientStops n i colors) k
    = option_map (VStop (stopOffset n (i + k))) (nth_error colors k).
Proof.
  induction colors as [|c colors IH]; intros i k.
  - destruct k; reflexivity.
  - destruct k as [|k]; simpl.
    + rewrite Nat.add_0_r. reflexivity.
    + rewrite IH. replace (Datatypes.S i + k) with (i + Datatypes.S k) by lia.
      reflexivity.
Qed.

(** X19: the stops of a gradient.  There is one stop for each colour, in
    the order of the colours, the one of index [i] at the double
    [i * step] with [step] the double [1 / (n - 1)].  With two colours or
    more every offset is a number that is not negative, and the first is
    0.  The last is the product [(n - 1) * step], which is rounded twice:
    it is 1 with two colours, and the double below 1,
    [(2 ^ 53 - 1) / 2 ^ 53], with fifty.  With one colour the step is
    infinite and the only stop is at [NaN]. *)
Theorem gradient_stops (colors : list string) :
  let n := List.length colors in
  List.length (gradientStops n 0 colors) = n /\
  (forall i c,
     nth_error colors i = Some c ->
     nth_error (gradientStops n 0 colors) i = Some (VStop (stopOffset n i) c)) /\
  (2 <= n -> (Z.of_nat n < 2 ^ 53)%Z ->
   stopOffset n 0 = S754_zero false /\
   forall i, i < n -> F64.isOffset (stopOffset n i) = true) /\
  (n = 1 -> stopOffset n 0 = S754_nan) /\
  (n = 2 -> stopOffset n (n - 1) = F64.one) /\
  (n = 50 ->
   stopOffset n (n - 1) = S754_finite false 9007199254740991 (-53) /\
   F64.ltb (stopOffset n (n - 1)) F64.one = true).
Proof.
  intros n. split; [|split; [|split; [|split; [|split]]]].
  - unfold n. generalize (List.length colors) at 1. generalize 0.
    induction colors as [|c colors IH]; intros i m; simpl; [reflexivity|].
    rewrite IH. reflexivity.
  - intros i c H. rewrite gradientStops_nth, H. reflexivity.
  - intros H2 Hn. split.
    + unfold stopOffset.
      destruct (stopStep_number n) as [->|(m & e & -> & _)];
        [lia|reflexivity|reflexivity].
    + intros i Hi. apply stopOffset_number; lia.
  - intros ->. vm_compute. reflexivity.
  - intros ->. vm_compute. reflexivity.
  - intros ->. split; vm_compute; reflexivity.
Qed.

Lemma gradient_stops_witness :
  stopOffset 3 0 = S754_zero false /\
  forall i, i < 3 -> F64.isOffset (stopOffset 3 i) = true.
Proof.
  destruct (gradient_stops ["red"; "green"; "blue"]) as (_ & _ & H & _).
  apply H; [simpl; lia|reflexivity].
Defined.

(** ** Progress *)

Lemma countItems_from (pages : list Page.t) :
  forall total,
    fold_left (fun t page => t + List.length (Page.items page)) pages total
    = total + List.length (flat_map Page.items pages).
Proof.
  induction pages as [|page pages IH]; intros total; simpl; [lia|].
  rewrite IH, length_app. lia.
Qed.

Lemma reportItems_seq (items : list Item.t) (totalItems : nat) :
  forall renderedItems,
    reportItems items renderedItems totalItems
    = (map (fun k => ratio k totalItems)
         (seq (Datatypes.S renderedItems) (List.length items)),
       renderedItems + List.length items).
Proof.
  induction items as [|item items IH]; intros renderedItems; simpl.
  - rewrite Nat.add_0_r. reflexivity.
  - rewrite IH. f_equal. lia.
Qed.

Lemma reportPages_seq (pages : list Page.t) (totalItems : nat) :
  forall renderedItems,
    reportPages pages renderedItems totalItems
    = map (fun k => ratio k totalItems)
        (seq (Datatypes.S renderedItems)
           (List.length (flat_map Page.items pages))).
Proof.
  induction pages as [|page pages IH]; intros renderedItems; simpl;
    [reflexivity|].
  rewrite reportItems_seq, IH, length_app, seq_app, map_app.
  reflexivity.
Qed.

(** X20: what a progress callback is told by a pass that runs to its
    end.  With [total] items on all pages it is called [total] times, the
    [k]-th time with [k / total]: every report is above 0 and at most 1,
    each one is larger than the one before, and the last one is 1. *)
Theorem progress_reports (pages : list Page.t) :
  let total := List.length (flat_map Page.items pages) in
  progressReports pages = map (fun k => ratio k total) (seq 1 total) /\
  (forall k, 1 <= k <= total ->
             (0 < ratio k total)%Q /\ (ratio k total <= 1)%Q) /\
  (forall k, 1 <= k < total -> (ratio k total < ratio (Datatypes.S k) total)%Q) /\
  (total <> 0 -> (ratio total total == 1)%Q).
Proof.
  intros total.
  assert (Hc : countItems pages = total)
    by (unfold countItems; rewrite countItems_from; reflexivity).
  assert (Hpos : forall k, 1 <= k -> (0 < inject_Z (Z.of_nat k))%Q).
  { intros k Hk. change 0%Q with (inject_Z 0). rewrite <- Zlt_Qlt. lia. }
  split; [|split; [|split]].
  - unfold progressReports. rewrite Hc. apply reportPages_seq.
  - intros k [H1 H2]. unfold ratio. split.
    + apply Qlt_shift_div_l; [apply Hpos; lia|].
      rewrite Qmult_0_l. apply Hpos. exact H1.
    + apply Qle_shift_div_r; [apply Hpos; lia|].
      rewrite Qmult_1_l. rewrite <- Zle_Qle. lia.
  - intros k [H1 H2]. unfold ratio.
    apply Qmult_lt_compat_r.
    + apply Qinv_lt_0_compat. apply Hpos. lia.
    + rewrite <- Zlt_Qlt. lia.
  - intros Hne. unfold ratio. field.
    intros H. assert (Hp : (0 < inject_Z (Z.of_nat total))%Q)
      by (apply Hpos; lia).
    rewrite H in Hp. apply (Qlt_irrefl 0). exact Hp.
Qed.

Lemma progress_reports_witness :
  (0 < ratio 2 3)%Q /\ (ratio 2 3 <= 1)%Q.
Proof.
  destruct (progress_reports threeItems) as (_ & H & _).
  apply (H 2). simpl. lia.
Defined.

(** ** The text of a line *)

Section TextFacts.
Context {ext : Collaborators}.

Lemma preparePageNodeRefLine_keeps (r : PageNodeRef) (i i' : Inline.t) :
  preparePageNodeRefLine r (Some i) = Ok i' ->
  Inline.font i' = Inline.font i /\ Inline.fontSize i' = Inline.fontSize i /\
  Inline.sup i' = Inline.sup i /\ Inline.sub i' = Inline.sub i.
Proof.
  unfold preparePageNodeRefLine.
  destruct (positions r) as [[|p ps]|]; try discriminate.
  intros [= <-]. auto.
Qed.

Lemma drawInlines_texts (lineHeight ascenderHeight x y : Q)
  (inlines : list Inline.t) :
  forall (d : pdfKitDoc) (inlines' : list Inline.t) (d' : pdfKitDoc),
    drawInlines lineHeight (lineHeight - ascenderHeight) x y inlines d
    = Ok (inlines', d') ->
    calls d' = calls d ++ map (textCall lineHeight ascenderHeight x y) inlines'
    /\ List.length inlines' = List.length inlines.
Proof.
  induction inlines as [|i inlines IH]; intros d inlines' d'; cbn [drawInlines].
  - intros [= <- <-]. simpl. rewrite app_nil_r. auto.
  - destruct (Inline._pageNodeRef i) as [r|] eqn:Hr.
    + destruct (preparePageNodeRefLine r (Some i)) as [i'|] eqn:Hp;
        [|discriminate].
      cbn [bind].
      match goal with |- context [drawInlines ?a ?b ?c ?e ?f ?g] =>
        destruct (drawInlines a b c e f g) as [[rest' d2]|] eqn:E end;
        [|discriminate].
      cbn [bind]. intros [= <- <-].
      destruct (IH _ _ _ E) as [C L].
      destruct (preparePageNodeRefLine_keeps _ _ _ Hp) as (Hf & Hs & _).
      rewrite C. cbn [calls log map List.length]. rewrite <- app_assoc.
      unfold textCall at 2. rewrite Hf, Hs. split; [reflexivity|].
      rewrite L. reflexivity.
    + cbn [bind].
      match goal with |- context [drawInlines ?a ?b ?c ?e ?f ?g] =>
        destruct (drawInlines a b c e f g) as [[rest' d2]|] eqn:E end;
        [|discriminate].
      cbn [bind]. intros [= <- <-].
      destruct (IH _ _ _ E) as [C L].
      rewrite C. cbn [calls log map List.length]. rewrite <- app_assoc.
      split; [reflexivity|]. rewrite L. reflexivity.
Qed.

Lemma processLineTags_notText (line : Line.t) (d : pdfKitDoc) (s : engine)
  (tags' : option (list TagToken)) :
  processLineTags line d = Ok (s, tags') -> adds notText d (doc s).
Proof.
  unfold processLineTags.
  destruct (Line.tags line) as [[|t ts]|];
    try (intros [= <- _]; apply adds_refl).
  destruct (startsNode line || endsNode line);
    [|intros [= <- _]; apply adds_refl].
  match goal with |- context [processTags ?a ?b ?c ?e ?f] =>
    destruct (processTags a b c e f) as [s1|] eqn:E end; [|discriminate].
  simpl. intros [= <- _].
  apply (processTags_adds notText) in E; simpl; auto.
  eapply adds_trans; [|exact E]. simpl.
  unfold ensureRoot. destruct (stk d); [apply adds_refl|].
  eexists. simpl. split; [rewrite <- app_assoc; reflexivity|].
  repeat constructor.
Qed.

Lemma notText_ends (fifo : list StructElem) :
  Forall notText (map ElemEnd fifo).
Proof.
  apply Forall_forall. intros c Hc. apply in_map_iff in Hc.
  destruct Hc as (e & <- & _). exact I.
Qed.

Lemma closeNode_notText (structContent : option StructContent)
  (lastOpened : option StructElem) (fifo : list StructElem) (d : pdfKitDoc) :
  exists q,
    Forall notText q /\
    calls (closeNode structContent lastOpened fifo d) = calls d ++ q.
Proof.
  unfold closeNode.
  destruct structContent as [c|]; [destruct lastOpened as [e|]|];
    match goal with |- context [endAll fifo ?d0] =>
      destruct (endAll_calls fifo d0) as [C _]; rewrite C end; simpl.
  - exists ([ElemAddContent e c; EndMarkedContent] ++ map ElemEnd fifo).
    split; [|rewrite <- !app_assoc; reflexivity].
    apply Forall_app. split; [repeat constructor|apply notText_ends].
  - exists ([EndMarkedContent] ++ map ElemEnd fifo).
    split; [|rewrite <- !app_assoc; reflexivity].
    apply Forall_app. split; [repeat constructor|apply notText_ends].
  - exists (map ElemEnd fifo). split; [apply notText_ends|reflexivity].
Qed.

(** X21: the text of a line is drawn inline by inline.  Between the
    background and the decorations a rendered line makes one [text] call
    for each of its inlines, in their order and with the text, the width
    and the [x] that a page reference has left them with; no other [text]
    call is made. *)
Theorem line_text_calls (line : Line.t) (x y : option Q) (d : pdfKitDoc)
  (line' : Line.t) (d' : pdfKitDoc) :
  renderLine line x y d = Ok (line', d') ->
  List.length (Line.inlines line') = List.length (Line.inlines line) /\
  exists before after,
    Forall notText before /\ Forall notText after /\
    calls d' =
      calls d ++ DrawBackground :: before
      ++ map (textCall (Line.getHeight line) (Line.getAscenderHeight line)
                (orZero x) (orZero y)) (Line.inlines line')
      ++ DrawDecorations :: after.
Proof.
  unfold renderLine.
  destruct (prepareLineRef line) as [inlines0|] eqn:E0; [|discriminate].
  cbn [bind].
  assert (L0 : List.length inlines0 = List.length (Line.inlines line)).
  { revert E0. unfold prepareLineRef.
    destruct (Line._pageNodeRef line); [|intros [= <-]; reflexivity].
    destruct (Line.inlines line).
    - destruct (preparePageNodeRefLine _ None); [|discriminate].
      intros [= <-]. reflexivity.
    - destruct (preparePageNodeRefLine _ _); [|discriminate].
      intros [= <-]. reflexivity. }
  destruct (processLineTags line (log DrawBackground d)) as [[s tags']|] eqn:E;
    [|discriminate].
  cbn [bind]. apply processLineTags_notText in E.
  set (marked := if startsNode line then _ else _).
  assert (E1 : adds notText (log DrawBackground d) (snd marked)).
  { unfold marked. destruct (startsNode line); [|exact E].
    destruct (lastOpenedStructTag s); [|exact E].
    eapply adds_trans; [exact E|]. simpl.
    eexists. simpl. split; [reflexivity|]. repeat constructor. }
  destruct marked as [structContent d1]. cbn [snd] in E1.
  match goal with |- context [drawInlines ?a ?b ?c ?e ?f ?g] =>
    destruct (drawInlines a b c e f g) as [[inlines' d2]|] eqn:E2 end;
    [|discriminate].
  cbn [bind]. apply drawInlines_texts in E2. destruct E2 as [C2 L2].
  destruct E1 as (before & C1 & F1). cbn [calls log] in C1.
  intros [= <- <-]. cbn [Line.inlines]. split; [congruence|].
  exists before.
  destruct (endsNode line).
  - match goal with |- context [closeNode ?a ?b ?c ?e] =>
      destruct (closeNode_notText a b c e) as (q & Fq & Cq) end.
    exists q. split; [exact F1|]. split; [exact Fq|].
    rewrite Cq. cbn [calls log]. rewrite C2, C1, <- !app_assoc.
    reflexivity.
  - exists []. split; [exact F1|]. split; [constructor|].
    cbn [calls log]. rewrite C2, C1, <- !app_assoc. reflexivity.
Qed.

End TextFacts.

Lemma line_text_calls_witness :
  exists line' d',
    renderLine (ext := plainCollaborators) refLine None None blankDoc
    = Ok (line', d') /\
    List.length (Line.inlines line') = List.length (Line.inlines refLine).
Proof.
  assert (R : exists line' d',
             renderLine (ext := plainCollaborators) refLine None None blankDoc
             = Ok (line', d'))
    by (do 2 eexists; vm_compute; reflexivity).
  destruct R as (line' & d' & R). exists line', d'. split; [exact R|].
  exact (proj1 (line_text_calls (ext := plainCollaborators) _ _ _ _ _ _ R)).
Defined.

Example refLine_text :
  exists line' d',
    renderLine (ext := plainCollaborators) refLine None None blankDoc
    = Ok (line', d') /\
    map Inline.text (Line.inlines line') = ["see page "; "7"].
Proof. do 2 eexists. split; [vm_compute; reflexivity|reflexivity]. Qed.

Lemma findFont_first_match_witness :
  ((forall r f, In r ["HELVETICA"; "courier"] -> In f ["Roboto"; "Courier"] ->
                toLowerCase (Strings := asciiStrings) f
                <> toLowerCase (Strings := asciiStrings) r) /\
   findFont (str := asciiStrings) ["Roboto"; "Courier"]
     ["HELVETICA"; "courier"] "Roboto" = "Roboto") \/
  (exists earlier r later before font after,
     ["HELVETICA"; "courier"] = earlier ++ r :: later /\
     ["Roboto"; "Courier"] = before ++ font :: after /\
     toLowerCase (Strings := asciiStrings) font
     = toLowerCase (Strings := asciiStrings) r /\
     (forall r' f, In r' earlier -> In f ["Roboto"; "Courier"] ->
                   toLowerCase (Strings := asciiStrings) f
                   <> toLowerCase (Strings := asciiStrings) r') /\
     (forall f, In f before ->
                toLowerCase (Strings := asciiStrings) f
                <> toLowerCase (Strings := asciiStrings) r) /\
     findFont (str := asciiStrings) ["Roboto"; "Courier"]
       ["HELVETICA"; "courier"] "Roboto" = font).
Proof.
  exact (findFont_first_match (str := asciiStrings) ["Roboto"; "Courier"]
           ["HELVETICA"; "courier"] "Roboto").
Defined.

Example findFont_courier :
  findFont (str := asciiStrings) ["Roboto"; "Courier"]
    ["HELVETICA"; "courier"] "Roboto" = "Courier".
Proof. reflexivity. Qed.
